(** * Long-running agent framework: task selection, guarded mutations and
      the bounded workflow loop

    A shallow embedding of the decision logic of the TypeScript sources

      - [core/feature-manager.ts]  (feature backlog),
      - [core/test-manager.ts]     (test ledger),
      - [core/state-manager.ts]    (agent state file),
      - [core/backlog-manager.ts]  (human backlog),
      - the workflow engine        (four-step workflow with its retry loop),
      - [core/session-manager.ts]  (session files),
      - [core/progress-tracker.ts] (progress snapshot),
      - [core/agent-coordinator.ts] (phase, agent type and task queue),
      - [test-phase.ts]            (lint, build and browser checks),

    followed by the properties established about them.

    Modelling conventions.
    - The disk is a finite map from paths to the text of regular files;
      writes and renames succeed.
    - [JSON.parse] and [JSON.stringify] belong to the JavaScript run time, not
      to the repository: they are the two methods of the class [JSON].  Where
      the source casts the parsed value to an interface without inspecting
      it, the codec is taken at that interface; where the source inspects the
      parsed value (the agent state file), the codec is taken at [JsonValue].
    - [new Date()] is the argument [now] of the operation that reads the
      clock.
    - A thrown exception is the constructor [Throw] of [result].
    - The progress log is represented by the entries [parseProgressEntries]
      reads in it; they are an argument of the operations that consult the
      log.
    - Commands and requests run on a machine whose state is threaded through
      the checks of the test phase. *)

From stdpp Require Import gmap strings list pretty sorting.
From Equations Require Import Equations.
From Stdlib Require Import ZArith.

Local Open Scope string_scope.
Local Open Scope Z_scope.

(** ** The JavaScript run time *)

Module JS.

(** Outcome of a call that may throw. *)
Inductive result (A : Type) : Type :=
| Return (v : A)
| Throw (error : string).
Arguments Return {A} v.
Arguments Throw {A} error.

Definition returns {A} (r : result A) : Prop :=
  match r with Return _ => True | Throw _ => False end.

(** [JSON.parse] (with [None] for a [SyntaxError]) and [JSON.stringify]. *)
Class JSON (A : Type) : Type := {
  JSON_parse : string -> option A;
  JSON_stringify : A -> string
}.

(** The file system: regular files and their text. *)
Abbreviation Disk := (gmap string string).

Definition existsSync (disk : Disk) (path : string) : bool :=
  bool_decide (is_Some (disk !! path)).

Definition readFileSync (disk : Disk) (path : string) : result string :=
  match disk !! path with
  | Some content => Return content
  | None => Throw ("ENOENT: no such file or directory, open '" ++ path ++ "'")
  end.

Definition writeFileSync (disk : Disk) (path content : string) : Disk :=
  <[path := content]> disk.

Definition renameSync (disk : Disk) (oldPath newPath : string) : Disk :=
  match disk !! oldPath with
  | Some content => <[newPath := content]> (delete oldPath disk)
  | None => disk
  end.

(** [haystack.includes(needle)]. *)
Fixpoint includes (haystack needle : string) : bool :=
  String.prefix needle haystack ||
  match haystack with
  | EmptyString => false
  | String _ rest => includes rest needle
  end.

(** The line feed used by [join('\n')]. *)
Definition LF : string := String (Ascii.ascii_of_nat 10) EmptyString.

(** [array.sort(compare)]: the sort of the run time is stable; an element is
    placed before the first already-sorted element it does not exceed. *)
Fixpoint sort_insert {A} (compare : A -> A -> Z) (x : A) (sorted : list A)
  : list A :=
  match sorted with
  | [] => [x]
  | y :: rest =>
      if compare x y <=? 0 then x :: y :: rest
      else y :: sort_insert compare x rest
  end.

Definition sort {A} (compare : A -> A -> Z) (l : list A) : list A :=
  foldr (sort_insert compare) [] l.

(** [array[0]] and [array.length]. *)
Definition first {A} (l : list A) : option A := l !! 0%nat.

(** [String(error)] of a thrown error.  A thrown error is written by its
    message when it is of class [Error] (the errors of [fs] and of
    [child_process]) and with its class first otherwise ([SyntaxError],
    [TypeError: ...]); [String] puts the class first in every case. *)
Definition String_of_error (error : string) : string :=
  if String.prefix "SyntaxError" error || String.prefix "TypeError" error
  then error
  else "Error: " ++ error.

(** [text.padStart(width, '0')] *)
Definition padStart0 (width : nat) (text : string) : string :=
  String.concat "" (replicate (width - String.length text)%nat "0") ++ text.

End JS.

Import JS.

(** ** [core/feature-manager.ts] *)

Module FeatureManager.

Inductive FeatureCategory : Type :=
| functional | ui | ux | performance | security | accessibility
| integration | error_handling.

Record Feature : Type := {
  id : string;
  category : FeatureCategory;
  description : string;
  steps : list string;
  passes : bool;
  priority : Z;
  dependencies : option (list string);
  verificationNotes : option string;
  lastAttemptedAt : option string;
  completedAt : option string
}.

Record FeatureList : Type := {
  projectName : string;
  createdAt : string;
  updatedAt : string;
  totalFeatures : nat;
  completedFeatures : nat;
  features : list Feature
}.

Record VerificationStep : Type := {
  step : string;
  passed : bool;
  evidence : option string
}.

(** The fields of a [FeatureManager] instance. *)
Record Manager : Type := {
  projectRoot : string;
  featureListPath : string;
  featureList : option FeatureList
}.

Definition new (root : string) : Manager :=
  {| projectRoot := root;
     featureListPath := root ++ "/feature_list.json";
     featureList := None |}.

Definition set_featureList (m : Manager) (l : FeatureList) : Manager :=
  {| projectRoot := projectRoot m;
     featureListPath := featureListPath m;
     featureList := Some l |}.

(** [path.basename], as far as [saveFeatureList] needs it. *)
Definition basename (root : string) : string := root.

(** The specification handed to [generateFeatureList]. *)
Record SpecFeature : Type := {
  spec_name : string;
  spec_description : string;
  spec_category : FeatureCategory;
  spec_priority : string;
  spec_steps : option (list string);
  includeErrorHandling : option bool
}.

Record ProjectSpecification : Type := {
  project_name : string;
  project_description : string;
  project_type : string;
  spec_features : list SpecFeature;
  techStack : option (list string)
}.

Section Operations.
Context `{!JSON FeatureList}.

(** [saveFeatureList(features)] *)
Definition saveFeatureList (now : string) (feats : list Feature)
    (m : Manager) (disk : Disk) : Manager * Disk :=
  let l := {| projectName := basename (projectRoot m);
              createdAt := now;
              updatedAt := now;
              totalFeatures := length feats;
              completedFeatures := length (List.filter passes feats);
              features := feats |} in
  (set_featureList m l,
   writeFileSync disk (featureListPath m) (JSON_stringify l)).

(** [loadFeatureList()] *)
Definition loadFeatureList (m : Manager) (disk : Disk)
  : result FeatureList * Manager :=
  match featureList m with
  | Some l => (Return l, m)
  | None =>
      match readFileSync disk (featureListPath m) with
      | Throw e => (Throw e, m)
      | Return content =>
          match JSON_parse content with
          | None => (Throw "SyntaxError", m)
          | Some l => (Return l, set_featureList m l)
          end
      end
  end.

(** The body of [areDependenciesMet] once the list is loaded:
    every dependency names a feature that exists and passes. *)
Fixpoint dependenciesPass (feats : list Feature) (deps : list string) : bool :=
  match deps with
  | [] => true
  | depId :: more =>
      match List.find (fun f => String.eqb (id f) depId) feats with
      | None => false
      | Some depFeature =>
          if passes depFeature then dependenciesPass feats more else false
      end
  end.

(** [areDependenciesMet(feature)] *)
Definition areDependenciesMet (feature : Feature) (m : Manager) (disk : Disk)
  : result bool * Manager :=
  match dependencies feature with
  | None | Some [] => (Return true, m)
  | Some deps =>
      match loadFeatureList m disk with
      | (Throw e, m') => (Throw e, m')
      | (Return l, m') => (Return (dependenciesPass (features l) deps), m')
      end
  end.

(** The [for ... of incompleteFeatures] loop of [getNextIncompleteFeature]:
    the first feature whose dependencies are met. *)
Fixpoint firstWithDependenciesMet (candidates : list Feature)
    (m : Manager) (disk : Disk) : result (option Feature) * Manager :=
  match candidates with
  | [] => (Return None, m)
  | feature :: more =>
      match areDependenciesMet feature m disk with
      | (Throw e, m') => (Throw e, m')
      | (Return true, m') => (Return (Some feature), m')
      | (Return false, m') => firstWithDependenciesMet more m' disk
      end
  end.

Definition byPriority (a b : Feature) : Z := priority a - priority b.

(** [getNextIncompleteFeature()] *)
Definition getNextIncompleteFeature (m : Manager) (disk : Disk)
  : result (option Feature) * Manager :=
  match loadFeatureList m disk with
  | (Throw e, m') => (Throw e, m')
  | (Return l, m') =>
      let incompleteFeatures :=
        sort byPriority (List.filter (fun f => negb (passes f)) (features l)) in
      if bool_decide (length incompleteFeatures = 0%nat) then (Return None, m')
      else
        match firstWithDependenciesMet incompleteFeatures m' disk with
        | (Throw e, m'') => (Throw e, m'')
        | (Return (Some feature), m'') => (Return (Some feature), m'')
        | (Return None, m'') => (Return (first incompleteFeatures), m'')
        end
  end.

(** The notes written by [markFeatureComplete]. *)
Definition stepNote (s : VerificationStep) : string :=
  step s ++ ": " ++ (if passed s then "PASS" else "FAIL").

Definition complete (now : string) (steps : list VerificationStep)
    (f : Feature) : Feature :=
  {| id := id f;
     category := category f;
     description := description f;
     steps := FeatureManager.steps f;
     passes := true;
     priority := priority f;
     dependencies := dependencies f;
     verificationNotes := Some (String.concat LF (map stepNote steps));
     lastAttemptedAt := lastAttemptedAt f;
     completedAt := Some now |}.

(** [markFeatureComplete(featureId, verificationSteps)]: the feature found
    is changed in place, inside the array of the loaded list; the counter
    and date written on the loaded list object are superseded by the list
    object [saveFeatureList] builds from that array and caches. *)
Definition markFeatureComplete (now : string) (featureId : string)
    (verificationSteps : list VerificationStep) (m : Manager) (disk : Disk)
  : result unit * Manager * Disk :=
  match loadFeatureList m disk with
  | (Throw e, m') => (Throw e, m', disk)
  | (Return l, m') =>
      match list_find (fun f => id f = featureId) (features l) with
      | None => (Throw ("Feature not found: " ++ featureId), m', disk)
      | Some (i, feature) =>
          if negb (forallb passed verificationSteps) then
            (Throw "Cannot mark feature as complete: not all verification steps passed",
             m', disk)
          else
            let feats := <[i := complete now verificationSteps feature]> (features l) in
            let '(m'', disk') := saveFeatureList now feats m' disk in
            (Return tt, m'', disk')
      end
  end.

(** [getIncompleteFeatureCount()] *)
Definition getIncompleteFeatureCount (m : Manager) (disk : Disk)
  : result nat * Manager :=
  match loadFeatureList m disk with
  | (Throw e, m') => (Throw e, m')
  | (Return l, m') =>
      (Return (length (List.filter (fun f => negb (passes f)) (features l))), m')
  end.

(** [getFeature(featureId)] *)
Definition getFeature (featureId : string) (m : Manager) (disk : Disk)
  : result (option Feature) * Manager :=
  match loadFeatureList m disk with
  | (Throw e, m') => (Throw e, m')
  | (Return l, m') =>
      (Return (List.find (fun f => String.eqb (id f) featureId) (features l)), m')
  end.

Definition FeatureCategory_eqb (a b : FeatureCategory) : bool :=
  match a, b with
  | functional, functional | ui, ui | ux, ux | performance, performance
  | security, security | accessibility, accessibility
  | integration, integration | error_handling, error_handling => true
  | _, _ => false
  end.

(** [getFeaturesByCategory(category)] *)
Definition getFeaturesByCategory (c : FeatureCategory) (m : Manager)
    (disk : Disk) : result (list Feature) * Manager :=
  match loadFeatureList m disk with
  | (Throw e, m') => (Throw e, m')
  | (Return l, m') =>
      (Return (List.filter (fun f => FeatureCategory_eqb (category f) c)
                 (features l)), m')
  end.

(** [calculatePriority(level)] *)
Definition calculatePriority (level : string) : Z :=
  if String.eqb level "high" then 10
  else if String.eqb level "medium" then 50
  else if String.eqb level "low" then 100
  else 50.

(** [generateDefaultSteps(feature)] *)
Definition generateDefaultSteps (feature : SpecFeature) : list string :=
  if includes (spec_description feature) "user can" then
    ["Navigate to the relevant interface";
     "Perform the user action described";
     "Verify the expected result occurs";
     "Verify no errors are thrown";
     "Verify the UI updates appropriately"]
  else
    ["Set up test environment for: " ++ spec_description feature;
     "Execute the functionality";
     "Verify expected outcome";
     "Verify no regressions"].

(** [`${letter}${String(n).padStart(3, '0')}`] *)
Definition numbered (letter : string) (n : nat) : string :=
  letter ++ padStart0 3 (pretty n).

(** A feature as the generator writes it: failing, with no notes or dates. *)
Definition failing (newId : string) (c : FeatureCategory) (text : string)
    (steps : list string) (p : Z) (deps : option (list string)) : Feature :=
  {| id := newId; category := c; description := text; steps := steps;
     passes := false; priority := p; dependencies := deps;
     verificationNotes := None; lastAttemptedAt := None; completedAt := None |}.

(** [expandFeature(specFeature, startId, spec)] *)
Definition expandFeature (specFeature : SpecFeature) (startId : nat)
  : list Feature :=
  let baseFeature :=
    failing (numbered "F" startId) (spec_category specFeature)
      (spec_description specFeature)
      (match spec_steps specFeature with
       | Some steps => steps
       | None => generateDefaultSteps specFeature
       end)
      (calculatePriority (spec_priority specFeature)) None in
  (baseFeature ::
   match includeErrorHandling specFeature with
   | Some false => []
   | _ =>
       [failing (numbered "F" (startId + 1)) error_handling
          ("Error handling for: " ++ spec_description specFeature)
          ["Trigger error condition for " ++ spec_name specFeature;
           "Verify appropriate error message is displayed";
           "Verify system remains in stable state";
           "Verify user can recover from error"]
          (calculatePriority (spec_priority specFeature) + 10)
          (Some [id baseFeature])]
   end).

(** [spec.techStack?.includes('typescript')] *)
Definition usesTypescript (spec : ProjectSpecification) : bool :=
  match techStack spec with
  | Some stack => bool_decide ("typescript" ∈ stack)
  | None => false
  end.

(** [generateInfrastructureFeatures(spec, startId)] *)
Definition generateInfrastructureFeatures (spec : ProjectSpecification)
    (startId : nat) : list Feature :=
  let server :=
    failing (numbered "I" startId) functional
      "Development server starts successfully"
      ["Run init.sh or npm run dev";
       "Verify server starts without errors";
       "Verify app is accessible at expected URL";
       "Verify hot reload works"] 1 None in
  let production :=
    failing (numbered "I" (startId + 1)) functional
      "Production build completes successfully"
      ["Run build command";
       "Verify no build errors";
       "Verify output files are generated";
       "Verify build size is reasonable"] 1 None in
  let typed :=
    if usesTypescript spec then
      [failing (numbered "I" (startId + 2)) functional
         "TypeScript compilation passes without errors"
         ["Run tsc --noEmit";
          "Verify no type errors";
          "Verify no implicit any warnings"] 1 None]
    else [] in
  let linted :=
    failing (numbered "I" (startId + 2 + length typed)) functional
      "Linting passes without errors"
      ["Run linter (eslint/prettier)";
       "Verify no lint errors";
       "Verify code style is consistent"] 2 None in
  ([server; production] ++ typed ++ [linted])%list.

(** The [for ... of spec.features] loop of [generateFeatureList], from the
    next free number [featureId]. *)
Fixpoint expandFeatures (specs : list SpecFeature) (featureId : nat)
  : list Feature * nat :=
  match specs with
  | [] => ([], featureId)
  | specFeature :: more =>
      let expandedFeatures := expandFeature specFeature featureId in
      let '(rest, lastId) :=
        expandFeatures more (featureId + length expandedFeatures) in
      ((expandedFeatures ++ rest)%list, lastId)
  end.

(** [generateFeatureList(spec)] *)
Definition generateFeatureList (spec : ProjectSpecification) : list Feature :=
  let '(features, featureId) := expandFeatures (spec_features spec) 1 in
  sort byPriority
    (features ++ generateInfrastructureFeatures spec featureId)%list.

End Operations.

End FeatureManager.

(** ** [core/test-manager.ts] *)

Module TestManager.

Inductive TestCategory : Type :=
| functional | style | accessibility | performance | security.

Inductive TestPriority : Type :=
| critical | high | medium | low.

Record TestCase : Type := {
  id : string;
  category : TestCategory;
  description : string;
  steps : list string;
  passes : bool;
  priority : TestPriority;
  verified_at : option string;
  screenshot_path : option string;
  console_log_path : option string;
  notes : option string
}.

Record TestSuite : Type := {
  version : string;
  created_at : string;
  updated_at : string;
  total_tests : nat;
  passed_tests : nat;
  tests : list TestCase
}.

(** The [evidence] argument of [markTestPassing]. *)
Record Evidence : Type := {
  evidence_screenshot_path : string;
  evidence_console_log_path : string;
  evidence_notes : option string
}.

Definition TESTS_FILE_NAME : string := "tests.json".
Definition TESTS_VERSION : string := "1.0.0".

(** The fields of a [TestManager] instance. *)
Record Manager : Type := {
  projectRoot : string;
  testsFilePath : string;
  screenshotDir : string
}.

Definition new (root : string) : Manager :=
  {| projectRoot := root;
     testsFilePath := root ++ "/" ++ TESTS_FILE_NAME;
     screenshotDir := root ++ "/screenshots" |}.

Global Instance TestPriority_eq_dec : EqDecision TestPriority.
Proof. solve_decision. Defined.

Section Operations.
Context `{!JSON TestSuite}.

(** [saveSuite(suite)]: refreshes the counters of the suite it is given,
    writes a temporary file and renames it over [tests.json]. *)
Definition saveSuite (now : string) (suite : TestSuite) (m : Manager)
    (disk : Disk) : TestSuite * Disk :=
  let suite' := {| version := version suite;
                   created_at := created_at suite;
                   updated_at := now;
                   total_tests := length (tests suite);
                   passed_tests := length (List.filter passes (tests suite));
                   tests := tests suite |} in
  let tempPath := testsFilePath m ++ ".tmp" in
  let disk' := writeFileSync disk tempPath (JSON_stringify suite') in
  (suite', renameSync disk' tempPath (testsFilePath m)).

(** [initialize()] *)
Definition initialize (now : string) (m : Manager) (disk : Disk)
  : TestSuite * Disk :=
  let suite := {| version := TESTS_VERSION;
                  created_at := now;
                  updated_at := now;
                  total_tests := 0;
                  passed_tests := 0;
                  tests := [] |} in
  saveSuite now suite m disk.

(** [loadSuite()] *)
Definition loadSuite (now : string) (m : Manager) (disk : Disk)
  : TestSuite * Disk :=
  if negb (existsSync disk (testsFilePath m)) then initialize now m disk
  else
    match readFileSync disk (testsFilePath m) with
    | Throw _ => initialize now m disk
    | Return content =>
        match JSON_parse content with
        | Some suite => (suite, disk)
        | None => initialize now m disk
        end
    end.

Definition pass (now : string) (evidence : Evidence) (test : TestCase)
  : TestCase :=
  {| id := id test;
     category := category test;
     description := description test;
     steps := steps test;
     passes := true;
     priority := priority test;
     verified_at := Some now;
     screenshot_path := Some (evidence_screenshot_path evidence);
     console_log_path := Some (evidence_console_log_path evidence);
     notes := evidence_notes evidence |}.

Definition with_tests (suite : TestSuite) (ts : list TestCase) : TestSuite :=
  {| version := version suite;
     created_at := created_at suite;
     updated_at := updated_at suite;
     total_tests := total_tests suite;
     passed_tests := passed_tests suite;
     tests := ts |}.

(** [markTestPassing(testId, evidence)] *)
Definition markTestPassing (now : string) (testId : string)
    (evidence : Evidence) (m : Manager) (disk : Disk) : result bool * Disk :=
  let '(suite, disk) := loadSuite now m disk in
  match list_find (fun t => id t = testId) (tests suite) with
  | None => (Return false, disk)
  | Some (i, test) =>
      if negb (existsSync disk (evidence_screenshot_path evidence)) then
        (Return false, disk)
      else if negb (existsSync disk (evidence_console_log_path evidence)) then
        (Return false, disk)
      else
        match readFileSync disk (evidence_console_log_path evidence) with
        | Throw e => (Throw e, disk)
        | Return consoleContent =>
            if includes consoleContent "ERROR" || includes consoleContent "FAIL"
            then (Return false, disk)
            else
              let suite' :=
                with_tests suite (<[i := pass now evidence test]> (tests suite)) in
              let '(_, disk') := saveSuite now suite' m disk in
              (Return true, disk')
        end
  end.

(** [getTest(testId)] *)
Definition getTest (now : string) (testId : string) (m : Manager)
    (disk : Disk) : option TestCase * Disk :=
  let '(suite, disk) := loadSuite now m disk in
  (List.find (fun t => String.eqb (id t) testId) (tests suite), disk).

(** [getFailingTests()] *)
Definition getFailingTests (now : string) (m : Manager) (disk : Disk)
  : list TestCase * Disk :=
  let '(suite, disk) := loadSuite now m disk in
  (List.filter (fun t => negb (passes t)) (tests suite), disk).

(** The [for ... of priorityOrder] loop of [getNextTest]. *)
Fixpoint firstByPriority (priorityOrder : list TestPriority)
    (failingTests : list TestCase) : option TestCase :=
  match priorityOrder with
  | [] => None
  | p :: more =>
      match List.find (fun t => bool_decide (priority t = p)) failingTests with
      | Some test => Some test
      | None => firstByPriority more failingTests
      end
  end.

(** [getNextTest()] *)
Definition getNextTest (now : string) (m : Manager) (disk : Disk)
  : option TestCase * Disk :=
  let '(suite, disk) := loadSuite now m disk in
  let failingTests := List.filter (fun t => negb (passes t)) (tests suite) in
  if bool_decide (length failingTests = 0%nat) then (None, disk)
  else
    match firstByPriority [critical; high; medium; low] failingTests with
    | Some test => (Some test, disk)
    | None => (first failingTests, disk)
    end.

(** The counters returned by [getProgressSummary()]; the percentage is
    [Math.round((passed / total) * 100)] taken on exact quotients. *)
Record ProgressSummary : Type := {
  summary_total : nat;
  summary_passed : nat;
  summary_failed : nat;
  summary_percentage : Z;
  byCategory : TestCategory -> nat * nat;
  byPriority : TestPriority -> nat * nat
}.

Global Instance TestCategory_eq_dec : EqDecision TestCategory.
Proof. solve_decision. Defined.

Definition tally {K} `{EqDecision K} (key : TestCase -> K) (ts : list TestCase)
    (k : K) : nat * nat :=
  let mine := List.filter (fun t => bool_decide (key t = k)) ts in
  (length mine, length (List.filter passes mine)).

(** [getProgressSummary()] *)
Definition getProgressSummary (now : string) (m : Manager) (disk : Disk)
  : ProgressSummary * Disk :=
  let '(suite, disk) := loadSuite now m disk in
  let total := length (tests suite) in
  let passed := length (List.filter passes (tests suite)) in
  ({| summary_total := total;
      summary_passed := passed;
      summary_failed := total - passed;
      summary_percentage :=
        if bool_decide (0 < total)%nat
        then (200 * Z.of_nat passed + Z.of_nat total) / (2 * Z.of_nat total)
        else 0;
      byCategory := tally category (tests suite);
      byPriority := tally priority (tests suite) |}, disk).

(** [generateTestId(category)]: the first three letters of the category in
    upper case, then [Date.now()] and a random suffix, both in base 36. *)
Definition categoryPrefix (c : TestCategory) : string :=
  match c with
  | functional => "FUN"
  | style => "STY"
  | accessibility => "ACC"
  | performance => "PER"
  | security => "SEC"
  end.

Definition generateTestId (timestamp random : string) (c : TestCategory)
  : string :=
  categoryPrefix c ++ "-" ++ timestamp ++ "-" ++ random.

(** [{ ...test, id, passes: false }]: whatever id and flag the argument
    carries are overwritten. *)
Definition asNew (newId : string) (test : TestCase) : TestCase :=
  {| id := newId;
     category := category test;
     description := description test;
     steps := steps test;
     passes := false;
     priority := priority test;
     verified_at := verified_at test;
     screenshot_path := screenshot_path test;
     console_log_path := console_log_path test;
     notes := notes test |}.

(** [addTest(test)]; [timestamp] and [random] feed [generateTestId]. *)
Definition addTest (now timestamp random : string) (test : TestCase)
    (m : Manager) (disk : Disk) : TestCase * Disk :=
  let '(suite, disk) := loadSuite now m disk in
  let newTest := asNew (generateTestId timestamp random (category test)) test in
  let '(_, disk') :=
    saveSuite now (with_tests suite (tests suite ++ [newTest])) m disk in
  (newTest, disk').

(** [addTests(tests)]; each test comes with the two readings that feed its
    [generateTestId]. *)
Definition addTests (now : string) (news : list (string * string * TestCase))
    (m : Manager) (disk : Disk) : list TestCase * Disk :=
  let '(suite, disk) := loadSuite now m disk in
  let newTests :=
    map (fun '(timestamp, random, test) =>
           asNew (generateTestId timestamp random (category test)) test)
        news in
  let '(_, disk') :=
    saveSuite now (with_tests suite (tests suite ++ newTests)) m disk in
  (newTests, disk').

Definition fail (reason : option string) (test : TestCase) : TestCase :=
  {| id := id test;
     category := category test;
     description := description test;
     steps := steps test;
     passes := false;
     priority := priority test;
     verified_at := None;
     screenshot_path := screenshot_path test;
     console_log_path := console_log_path test;
     notes := Some (match reason with
                    | Some r => if String.eqb r "" then "Marked as failing"
                                else r
                    | None => "Marked as failing"
                    end) |}.

(** [markTestFailing(testId, reason)] *)
Definition markTestFailing (now : string) (testId : string)
    (reason : option string) (m : Manager) (disk : Disk) : bool * Disk :=
  let '(suite, disk) := loadSuite now m disk in
  match list_find (fun t => id t = testId) (tests suite) with
  | None => (false, disk)
  | Some (i, test) =>
      let suite' := with_tests suite (<[i := fail reason test]> (tests suite)) in
      let '(_, disk') := saveSuite now suite' m disk in
      (true, disk')
  end.

(** [getPassingTests()] *)
Definition getPassingTests (now : string) (m : Manager) (disk : Disk)
  : list TestCase * Disk :=
  let '(suite, disk) := loadSuite now m disk in
  (List.filter passes (tests suite), disk).

(** [getTestsByCategory(category)] *)
Definition getTestsByCategory (now : string) (c : TestCategory) (m : Manager)
    (disk : Disk) : list TestCase * Disk :=
  let '(suite, disk) := loadSuite now m disk in
  (List.filter (fun t => bool_decide (category t = c)) (tests suite), disk).

(** The first loop of [validate]: an issue for every test whose id was seen
    before. *)
Fixpoint duplicateIssues (seen : list string) (ts : list TestCase)
  : list string :=
  match ts with
  | [] => []
  | test :: rest =>
      (if bool_decide (id test ∈ seen)
       then ["Duplicate test ID: " ++ id test] else [])
      ++ duplicateIssues (id test :: seen) rest
  end.

(** [!path] on an optional string. *)
Definition missing (path : option string) : bool :=
  match path with
  | Some p => String.eqb p ""
  | None => true
  end.

(** The second loop of [validate]. *)
Definition fieldIssues (test : TestCase) : list string :=
  (if String.eqb (description test) ""
   then ["Test " ++ id test ++ " missing description"] else [])
  ++ (if bool_decide (length (steps test) = 0%nat)
      then ["Test " ++ id test ++ " has no steps"] else []).

(** The third loop of [validate], over the passing tests. *)
Definition evidenceIssues (test : TestCase) : list string :=
  (if missing (screenshot_path test)
   then ["Passing test " ++ id test ++ " missing screenshot_path"] else [])
  ++ (if missing (console_log_path test)
      then ["Passing test " ++ id test ++ " missing console_log_path"]
      else []).

(** [validate()] *)
Definition validate (now : string) (m : Manager) (disk : Disk)
  : (bool * list string) * Disk :=
  let '(suite, disk) := loadSuite now m disk in
  let issues : list string :=
    (duplicateIssues [] (tests suite)
     ++ mjoin (map fieldIssues (tests suite))
     ++ mjoin (map evidenceIssues (List.filter passes (tests suite))))%list in
  ((bool_decide (length issues = 0%nat), issues), disk).

End Operations.

End TestManager.

(** ** [core/state-manager.ts] *)

Module StateManager.

(** The values [JSON.parse] produces; a property of an object is found by
    its first occurrence in [fields].  Numbers are kept as integers: only
    their being zero or not is ever looked at. *)
#[warnings="-register-all"] Inductive JsonValue : Type :=
| JNull
| JBool (b : bool)
| JNum (n : Z)
| JStr (s : string)
| JArr (items : list JsonValue)
| JObj (fields : list (string * JsonValue)).

(** [VALID_STATES] *)
Definition VALID_STATES : list string :=
  ["continuous"; "run_once"; "run_cleanup"; "pause"; "terminated"].

Definition STATE_FILE_NAME : string := "agent_state.json".

Record Manager : Type := {
  projectRoot : string;
  stateFilePath : string
}.

Definition new (root : string) : Manager :=
  {| projectRoot := root;
     stateFilePath := root ++ "/" ++ STATE_FILE_NAME |}.

(** Own property of an object, by its key. *)
Fixpoint field (key : string) (fields : list (string * JsonValue))
  : option JsonValue :=
  match fields with
  | [] => None
  | (k, v) :: rest => if String.eqb k key then Some v else field key rest
  end.

(** [fields[key] = value] on an object: replaces the property when it is
    there and adds it at the end otherwise. *)
Fixpoint set_field (key : string) (value : JsonValue)
    (fields : list (string * JsonValue)) : list (string * JsonValue) :=
  match fields with
  | [] => [(key, value)]
  | (k, v) :: rest =>
      if String.eqb k key then (k, value) :: rest
      else (k, v) :: set_field key value rest
  end.

(** [state.key]: reading a property of [null] throws, a property that is
    absent (or asked of a number, string, boolean or array) is [undefined]. *)
Definition get (state : JsonValue) (key : string) : result (option JsonValue) :=
  match state with
  | JNull => Throw "TypeError: Cannot read properties of null"
  | JObj fields => Return (field key fields)
  | _ => Return None
  end.

(** [state.key = value] in strict mode: a primitive refuses the property;
    the property an array would take is not part of its JSON value. *)
Definition set (state : JsonValue) (key : string) (value : JsonValue)
  : result JsonValue :=
  match state with
  | JObj fields => Return (JObj (set_field key value fields))
  | JArr items => Return (JArr items)
  | _ => Throw "TypeError: Cannot create property"
  end.

(** Truthiness of [state.key]. *)
Definition truthy (v : option JsonValue) : bool :=
  match v with
  | None | Some JNull => false
  | Some (JBool b) => b
  | Some (JNum n) => negb (n =? 0)
  | Some (JStr s) => negb (String.eqb s "")
  | Some (JArr _) | Some (JObj _) => true
  end.

(** [VALID_STATES.has(v)] *)
Definition VALID_STATES_has (v : option JsonValue) : bool :=
  match v with
  | Some (JStr s) => bool_decide (s ∈ VALID_STATES)
  | _ => false
  end.

(** The record returned when the file cannot be used. *)
Definition pauseState (now note : string) : JsonValue :=
  JObj [("desired_state", JStr "pause");
        ("current_state", JStr "pause");
        ("timestamp", JStr now);
        ("setBy", JStr "agent");
        ("note", JStr note)].

Section Operations.
Context `{!JSON JsonValue}.

(** The [try] block of [readState]. *)
Definition readState_try (now : string) (m : Manager) (disk : Disk)
  : result JsonValue :=
  match readFileSync disk (stateFilePath m) with
  | Throw e => Throw e
  | Return content =>
      match JSON_parse content with
      | None => Throw "SyntaxError"
      | Some state =>
          match get state "desired_state" with
          | Throw e => Throw e
          | Return desired =>
              if negb (truthy desired) then
                Return (pauseState now "Malformed state file")
              else
                match get state "current_state" with
                | Throw e => Throw e
                | Return current =>
                    if negb (truthy current) then
                      Return (pauseState now "Malformed state file")
                    else
                      match
                        (if negb (VALID_STATES_has desired)
                         then set state "desired_state" (JStr "pause")
                         else Return state)
                      with
                      | Throw e => Throw e
                      | Return state =>
                          if negb (VALID_STATES_has current)
                          then set state "current_state" (JStr "pause")
                          else Return state
                      end
                end
          end
      end
  end.

(** [readState()] *)
Definition readState (now : string) (m : Manager) (disk : Disk)
  : result JsonValue :=
  if negb (existsSync disk (stateFilePath m)) then
    Return (pauseState now "Default state (file did not exist)")
  else
    match readState_try now m disk with
    | Return state => Return state
    | Throw error => Return (pauseState now ("Read error: " ++ error))
    end.

(** The [updates] argument of [writeState]: a [Partial<AgentStateData>],
    each field present or not. *)
Record StateUpdates : Type := {
  u_desired_state : option string;
  u_current_state : option string;
  u_timestamp : option string;
  u_setBy : option string;
  u_note : option string;
  u_phase : option string;
  u_current_issue : option Z;
  u_restart_count : option Z;
  u_last_commit : option string
}.

Definition noUpdates : StateUpdates :=
  {| u_desired_state := None; u_current_state := None; u_timestamp := None;
     u_setBy := None; u_note := None; u_phase := None;
     u_current_issue := None; u_restart_count := None;
     u_last_commit := None |}.

(** One property of a spread [{...target, key: value}]: written when the
    source has it. *)
Definition put (key : string) (value : option JsonValue)
    (fields : list (string * JsonValue)) : list (string * JsonValue) :=
  match value with
  | Some v => set_field key v fields
  | None => fields
  end.

(** The properties of a state that may be spread ([{...state}]). *)
Definition properties (state : JsonValue) : list (string * JsonValue) :=
  match state with
  | JObj fields => fields
  | _ => []
  end.

(** [{...currentState, ...updates}] *)
Definition spread (currentState : list (string * JsonValue))
    (updates : StateUpdates) : list (string * JsonValue) :=
  put "last_commit" (JStr <$> u_last_commit updates)
    (put "restart_count" (JNum <$> u_restart_count updates)
       (put "current_issue" (JNum <$> u_current_issue updates)
          (put "phase" (JStr <$> u_phase updates)
             (put "note" (JStr <$> u_note updates)
                (put "setBy" (JStr <$> u_setBy updates)
                   (put "timestamp" (JStr <$> u_timestamp updates)
                      (put "current_state" (JStr <$> u_current_state updates)
                         (put "desired_state" (JStr <$> u_desired_state updates)
                            currentState)))))))).

(** [value || fallback] on a string that may be absent. *)
Definition orElse (value : option string) (fallback : string) : string :=
  match value with
  | Some s => if String.eqb s "" then fallback else s
  | None => fallback
  end.

(** [newState.key = currentState.key], where a property that holds
    [undefined] is not part of the JSON value. *)
Fixpoint remove_field (key : string) (fields : list (string * JsonValue))
  : list (string * JsonValue) :=
  match fields with
  | [] => []
  | (k, v) :: rest =>
      if String.eqb k key then rest else (k, v) :: remove_field key rest
  end.

Definition restore (key : string) (currentState : list (string * JsonValue))
    (newState : list (string * JsonValue)) : list (string * JsonValue) :=
  match field key currentState with
  | Some v => set_field key v newState
  | None => remove_field key newState
  end.

(** [updates.key && !VALID_STATES.has(updates.key)] *)
Definition rejected (value : option string) : bool :=
  truthy (JStr <$> value) && negb (VALID_STATES_has (JStr <$> value)).

(** The object [writeState] serialises. *)
Definition mergedState (now : string) (currentState : JsonValue)
    (updates : StateUpdates) : list (string * JsonValue) :=
  let current := properties currentState in
  let newState :=
    set_field "setBy" (JStr (orElse (u_setBy updates) "agent"))
      (set_field "timestamp" (JStr now) (spread current updates)) in
  let newState :=
    if rejected (u_desired_state updates)
    then restore "desired_state" current newState else newState in
  if rejected (u_current_state updates)
  then restore "current_state" current newState else newState.

(** [writeState(updates)] *)
Definition writeState (now : string) (updates : StateUpdates) (m : Manager)
    (disk : Disk) : Disk :=
  match readState now m disk with
  | Throw _ => disk
  | Return currentState =>
      let newState := JObj (mergedState now currentState updates) in
      let tempPath := stateFilePath m ++ ".tmp" in
      renameSync (writeFileSync disk tempPath (JSON_stringify newState))
        tempPath (stateFilePath m)
  end.

(** [updateCurrentState(current, note)] *)
Definition updateCurrentState (now : string) (current : string)
    (note : option string) (m : Manager) (disk : Disk) : Disk :=
  writeState now
    {| u_desired_state := None; u_current_state := Some current;
       u_timestamp := None; u_setBy := None;
       u_note := Some (orElse note ("State updated to " ++ current));
       u_phase := None; u_current_issue := None; u_restart_count := None;
       u_last_commit := None |} m disk.

(** The updates of [pause], [startContinuous] and [terminate]: both states. *)
Definition bothStates (name note : string) : StateUpdates :=
  {| u_desired_state := Some name; u_current_state := Some name;
     u_timestamp := None; u_setBy := None; u_note := Some note;
     u_phase := None; u_current_issue := None; u_restart_count := None;
     u_last_commit := None |}.

(** The updates of [requestRunOnce] and [requestCleanup]: the desired state
    only. *)
Definition desiredState (name note : string) : StateUpdates :=
  {| u_desired_state := Some name; u_current_state := None;
     u_timestamp := None; u_setBy := None; u_note := Some note;
     u_phase := None; u_current_issue := None; u_restart_count := None;
     u_last_commit := None |}.

(** [pause(note)] *)
Definition pause (now : string) (note : option string) (m : Manager)
    (disk : Disk) : Disk :=
  writeState now (bothStates "pause" (orElse note "Agent paused")) m disk.

(** [startContinuous(note)] *)
Definition startContinuous (now : string) (note : option string) (m : Manager)
    (disk : Disk) : Disk :=
  writeState now
    (bothStates "continuous" (orElse note "Starting continuous mode")) m disk.

(** [requestRunOnce(note)] *)
Definition requestRunOnce (now : string) (note : option string) (m : Manager)
    (disk : Disk) : Disk :=
  writeState now
    (desiredState "run_once" (orElse note "Single run requested")) m disk.

(** [requestCleanup(note)] *)
Definition requestCleanup (now : string) (note : option string) (m : Manager)
    (disk : Disk) : Disk :=
  writeState now
    (desiredState "run_cleanup" (orElse note "Cleanup session requested"))
    m disk.

(** [terminate(note)] *)
Definition terminate (now : string) (note : option string) (m : Manager)
    (disk : Disk) : Disk :=
  writeState now (bothStates "terminated" (orElse note "Agent terminated"))
    m disk.

(** [state.desired_state === name] on what [readState] returned. *)
Definition desiredIs (name : string) (state : result JsonValue) : bool :=
  match state with
  | Return (JObj fields) =>
      match field "desired_state" fields with
      | Some (JStr s) => String.eqb s name
      | _ => false
      end
  | _ => false
  end.

(** [shouldPause()] *)
Definition shouldPause (now : string) (m : Manager) (disk : Disk) : bool :=
  let state := readState now m disk in
  desiredIs "pause" state || desiredIs "terminated" state.

(** [shouldContinue()] *)
Definition shouldContinue (now : string) (m : Manager) (disk : Disk) : bool :=
  desiredIs "continuous" (readState now m disk).

(** [isRunOnce()] *)
Definition isRunOnce (now : string) (m : Manager) (disk : Disk) : bool :=
  desiredIs "run_once" (readState now m disk).

(** [isCleanupRequested()] *)
Definition isCleanupRequested (now : string) (m : Manager) (disk : Disk)
  : bool :=
  desiredIs "run_cleanup" (readState now m disk).

End Operations.

End StateManager.

(** ** [core/backlog-manager.ts] *)

Module BacklogManager.

Inductive BacklogItemType : Type := bug | feature | idea.

Inductive Author : Type := agent | human.

Record BacklogComment : Type := {
  author : Author;
  timestamp : string;
  text : string
}.

(** [priority] and [status] are kept as the strings the file holds: the file
    is cast to [BacklogItem[]] unread, and the last fallback of [getNextItem]
    is reached only by a priority that is none of the four names. *)
Record BacklogItem : Type := {
  id : string;
  type : BacklogItemType;
  priority : string;
  status : string;
  description : string;
  details : string;
  comments : list BacklogComment;
  added : string;
  completed : bool;
  completedDate : option string;
  github_issue : option Z;
  vote_count : option Z
}.

(** The values of [BacklogStatus]. *)
Definition BacklogStatus : list string :=
  ["backlog"; "in_progress"; "blocked"; "done"].

(** The values of [BacklogPriority], in the order [getNextItem] scans them. *)
Definition priorityOrder : list string :=
  ["critical"; "high"; "medium"; "low"].

Definition BACKLOG_FILE_NAME : string := "human_backlog.json".

Record Manager : Type := {
  projectRoot : string;
  backlogFilePath : string
}.

Definition new (root : string) : Manager :=
  {| projectRoot := root;
     backlogFilePath := root ++ "/" ++ BACKLOG_FILE_NAME |}.

Definition set_status (s : string) (item : BacklogItem) : BacklogItem :=
  {| id := id item; type := type item; priority := priority item;
     status := s;
     description := description item; details := details item;
     comments := comments item; added := added item;
     completed := completed item; completedDate := completedDate item;
     github_issue := github_issue item; vote_count := vote_count item |}.

Definition set_completed (now : string) (item : BacklogItem) : BacklogItem :=
  {| id := id item; type := type item; priority := priority item;
     status := status item;
     description := description item; details := details item;
     comments := comments item; added := added item;
     completed := true; completedDate := Some now;
     github_issue := github_issue item; vote_count := vote_count item |}.

Definition push_comment (c : BacklogComment) (item : BacklogItem)
  : BacklogItem :=
  {| id := id item; type := type item; priority := priority item;
     status := status item;
     description := description item; details := details item;
     comments := comments item ++ [c]; added := added item;
     completed := completed item; completedDate := completedDate item;
     github_issue := github_issue item; vote_count := vote_count item |}.

Section Operations.
Context `{!JSON (list BacklogItem)}.

(** [loadBacklog()] *)
Definition loadBacklog (m : Manager) (disk : Disk) : list BacklogItem :=
  if negb (existsSync disk (backlogFilePath m)) then []
  else
    match readFileSync disk (backlogFilePath m) with
    | Throw _ => []
    | Return content =>
        match JSON_parse content with
        | Some backlog => backlog
        | None => []
        end
    end.

(** [saveBacklog(backlog)] *)
Definition saveBacklog (backlog : list BacklogItem) (m : Manager)
    (disk : Disk) : Disk :=
  let tempPath := backlogFilePath m ++ ".tmp" in
  renameSync (writeFileSync disk tempPath (JSON_stringify backlog))
    tempPath (backlogFilePath m).

(** [addItem(type, priority, description, details, github_issue)];
    [newId] is [Date.now().toString()]. *)
Definition addItem (now newId : string) (type : BacklogItemType)
    (priority description details : string) (github_issue : option Z)
    (m : Manager) (disk : Disk) : BacklogItem * Disk :=
  let backlog := loadBacklog m disk in
  let item := {| id := newId; type := type; priority := priority;
                 status := "backlog";
                 description := description; details := details;
                 comments := []; added := now;
                 completed := false; completedDate := None;
                 github_issue := github_issue; vote_count := Some 0 |} in
  (item, saveBacklog (backlog ++ [item]) m disk).

(** [updateStatus(id, status)] *)
Definition updateStatus (now : string) (itemId status : string)
    (m : Manager) (disk : Disk) : bool * Disk :=
  let backlog := loadBacklog m disk in
  match list_find (fun i => id i = itemId) backlog with
  | None => (false, disk)
  | Some (k, item) =>
      let item := set_status status item in
      let item := if String.eqb status "done" then set_completed now item
                  else item in
      (true, saveBacklog (<[k := item]> backlog) m disk)
  end.

(** [markComplete(id)] *)
Definition markComplete (now : string) (itemId : string) (m : Manager)
    (disk : Disk) : bool * Disk :=
  updateStatus now itemId "done" m disk.

(** [markInProgress(id)] *)
Definition markInProgress (now : string) (itemId : string) (m : Manager)
    (disk : Disk) : bool * Disk :=
  updateStatus now itemId "in_progress" m disk.

(** [markBlocked(id, reason)] *)
Definition markBlocked (now : string) (itemId reason : string) (m : Manager)
    (disk : Disk) : bool * Disk :=
  let backlog := loadBacklog m disk in
  match list_find (fun i => id i = itemId) backlog with
  | None => (false, disk)
  | Some (k, item) =>
      let item := set_status "blocked" item in
      let item := push_comment {| author := agent; timestamp := now;
                                  text := "Blocked: " ++ reason |} item in
      (true, saveBacklog (<[k := item]> backlog) m disk)
  end.

(** [addComment(id, author, text)] *)
Definition addComment (now : string) (itemId : string) (who : Author)
    (words : string) (m : Manager) (disk : Disk) : bool * Disk :=
  let backlog := loadBacklog m disk in
  match list_find (fun i => id i = itemId) backlog with
  | None => (false, disk)
  | Some (k, item) =>
      let item := push_comment {| author := who; timestamp := now;
                                  text := words |} item in
      (true, saveBacklog (<[k := item]> backlog) m disk)
  end.

(** A [for (const priority of priorityOrder)] loop of [getNextItem]: the
    first priority for which [incomplete.find] answers. *)
Fixpoint scanPriorities (matches : string -> BacklogItem -> bool)
    (order : list string) (incomplete : list BacklogItem)
  : option BacklogItem :=
  match order with
  | [] => None
  | p :: more =>
      match List.find (matches p) incomplete with
      | Some item => Some item
      | None => scanPriorities matches more incomplete
      end
  end.

(** [getNextItem()] *)
Definition getNextItem (m : Manager) (disk : Disk) : option BacklogItem :=
  let backlog := loadBacklog m disk in
  let incomplete := List.filter (fun item => negb (completed item)) backlog in
  if bool_decide (length incomplete = 0%nat) then None
  else
    match List.find (fun item => String.eqb (status item) "in_progress")
            incomplete with
    | Some inProgress => Some inProgress
    | None =>
        match scanPriorities
                (fun p i => String.eqb (priority i) p
                            && String.eqb (status i) "backlog")
                priorityOrder incomplete with
        | Some item => Some item
        | None =>
            match scanPriorities (fun p i => String.eqb (priority i) p)
                    priorityOrder incomplete with
            | Some item => Some item
            | None => first incomplete
            end
        end
    end.

(** [getItem(id)] *)
Definition getItem (itemId : string) (m : Manager) (disk : Disk)
  : option BacklogItem :=
  List.find (fun item => String.eqb (id item) itemId) (loadBacklog m disk).

(** [getItemByIssue(issueNumber)] *)
Definition getItemByIssue (issueNumber : Z) (m : Manager) (disk : Disk)
  : option BacklogItem :=
  List.find (fun item => bool_decide (github_issue item = Some issueNumber))
    (loadBacklog m disk).

(** [getItemsByStatus(status)] *)
Definition getItemsByStatus (wanted : string) (m : Manager) (disk : Disk)
  : list BacklogItem :=
  List.filter (fun item => String.eqb (status item) wanted) (loadBacklog m disk).

(** [getItemsByPriority(priority)] *)
Definition getItemsByPriority (wanted : string) (m : Manager) (disk : Disk)
  : list BacklogItem :=
  List.filter (fun item => String.eqb (priority item) wanted)
    (loadBacklog m disk).

(** [a.vote_count || 0] *)
Definition votes (item : BacklogItem) : Z := default 0 (vote_count item).

(** [priorityOrder.indexOf(priority)] *)
Definition priorityIndex (p : string) : Z :=
  if String.eqb p "critical" then 0
  else if String.eqb p "high" then 1
  else if String.eqb p "medium" then 2
  else if String.eqb p "low" then 3
  else -1.

Definition inProgress (item : BacklogItem) : bool :=
  String.eqb (status item) "in_progress".

(** The comparator of [sortBacklog]. *)
Definition compareItems (a b : BacklogItem) : Z :=
  if negb (Bool.eqb (completed a) (completed b)) then
    (if completed a then 1 else -1)
  else if inProgress a && negb (inProgress b) then -1
  else if inProgress b && negb (inProgress a) then 1
  else if negb (votes a =? votes b) then votes b - votes a
  else priorityIndex (priority a) - priorityIndex (priority b).

(** [sortBacklog()] *)
Definition sortBacklog (m : Manager) (disk : Disk) : Disk :=
  let backlog := loadBacklog m disk in
  saveBacklog (sort compareItems backlog) m disk.

End Operations.

End BacklogManager.

(** ** The workflow engine *)

Module WorkflowEngine.

Inductive WorkflowStep : Type := Step1 | Step2 | Step3 | Step4.

Inductive WorkflowState : Type :=
| idle | initializing | selecting | coding | verifying | completed | failed.

Inductive NextAction : Type := continue | retry | abort.

(** Wall-clock readings ([startedAt], [lastStepCompletedAt], [duration],
    [totalDuration]) are left out of the records. *)
Record WorkflowContext : Type := {
  sessionId : string;
  currentStep : WorkflowStep;
  state : WorkflowState;
  currentFeatureId : option string;
  iterationCount : Z;
  maxIterations : Z
}.

Record StepResult : Type := {
  step : WorkflowStep;
  success : bool;
  output : string;
  error : option string;
  nextAction : NextAction
}.

(** What [TestPhase.executeTestPhase] reports ([./test-phase] is an external
    collaborator of the engine). *)
Record CheckResult : Type := {
  passed : bool;
  check_output : string
}.

Record TestPhaseResult : Type := {
  lint : CheckResult;
  build : CheckResult;
  browserTests : CheckResult;
  allPassed : bool;
  failedTests : list string
}.

(** [testResults] is read from a property that no [StepResult] carries, so
    it is always [undefined]. *)
Record WorkflowResult : Type := {
  result_success : bool;
  featureCompleted : bool;
  featureId : option string;
  iterations : Z;
  steps : list StepResult;
  testResults : option TestPhaseResult
}.

(** The fields of a [WorkflowEngine] instance that the workflow reads or
    writes. *)
Record Engine : Type := {
  projectRoot : string;
  featureManager : FeatureManager.Manager;
  context : WorkflowContext
}.

(** What the world outside the engine answers during one workflow:
    [execSync('chmod ...')], [waitForServer], and the successive calls of
    [testPhase.executeTestPhase()]. *)
Record Environment : Type := {
  chmod : result unit;
  serverReady : bool;
  executeTestPhase : nat -> result TestPhaseResult
}.

(** [createInitialContext()]; [newSessionId] is [generateSessionId()]. *)
Definition createInitialContext (newSessionId : string) : WorkflowContext :=
  {| sessionId := newSessionId;
     currentStep := Step1;
     state := idle;
     currentFeatureId := None;
     iterationCount := 0;
     maxIterations := 3 |}.

(** [new WorkflowEngine(projectRoot, featureManager, progressTracker,
    maxIterations = 3)] *)
Definition new (newSessionId : string) (root : string)
    (fm : FeatureManager.Manager) (maxIterations : option Z) : Engine :=
  let maxIterations := default 3 maxIterations in
  {| projectRoot := root;
     featureManager := fm;
     context := createInitialContext newSessionId |}.

Definition set_context (e : Engine) (c : WorkflowContext) : Engine :=
  {| projectRoot := projectRoot e;
     featureManager := featureManager e;
     context := c |}.

Definition set_featureManager (e : Engine) (fm : FeatureManager.Manager)
  : Engine :=
  {| projectRoot := projectRoot e;
     featureManager := fm;
     context := context e |}.

Definition set_state (s : WorkflowState) (c : WorkflowContext)
  : WorkflowContext :=
  {| sessionId := sessionId c; currentStep := currentStep c; state := s;
     currentFeatureId := currentFeatureId c;
     iterationCount := iterationCount c; maxIterations := maxIterations c |}.

Definition set_currentStep (s : WorkflowStep) (c : WorkflowContext)
  : WorkflowContext :=
  {| sessionId := sessionId c; currentStep := s; state := state c;
     currentFeatureId := currentFeatureId c;
     iterationCount := iterationCount c; maxIterations := maxIterations c |}.

Definition set_currentFeatureId (f : string) (c : WorkflowContext)
  : WorkflowContext :=
  {| sessionId := sessionId c; currentStep := currentStep c; state := state c;
     currentFeatureId := Some f;
     iterationCount := iterationCount c; maxIterations := maxIterations c |}.

Definition set_iterationCount (n : Z) (c : WorkflowContext)
  : WorkflowContext :=
  {| sessionId := sessionId c; currentStep := currentStep c; state := state c;
     currentFeatureId := currentFeatureId c;
     iterationCount := n; maxIterations := maxIterations c |}.

(** [`${value}`] of a string that may be [null]. *)
Definition show (s : option string) : string := default "null" s.

(** [text.substring(0, 200)] *)
Definition head200 (s : string) : string := String.substring 0 200 s.

(** [formatTestPhaseOutput(results)] *)
Definition formatCheck (name : string) (c : CheckResult) : string :=
  name ++ ": " ++ (if passed c then "PASSED" else "FAILED") ++ LF ++
  (if String.eqb (check_output c) "" then ""
   else "  " ++ head200 (check_output c) ++ LF).

Definition formatTestPhaseOutput (results : TestPhaseResult) : string :=
  "=== Test Phase Results ===" ++ LF ++ LF ++
  formatCheck "Lint" (lint results) ++
  formatCheck "Build" (build results) ++
  formatCheck "Browser Tests" (browserTests results) ++
  LF ++ "Overall: " ++
  (if allPassed results then "ALL PASSED" else "SOME FAILED") ++ LF ++
  (if bool_decide (0 < length (failedTests results))%nat
   then LF ++ "Failed: " ++ String.concat ", " (failedTests results) ++ LF
   else "").

Section Operations.
Context `{!JSON FeatureManager.FeatureList}.

(** [executeStep1()] *)
Definition executeStep1 (env : Environment) (e : Engine) (disk : Disk)
  : StepResult * Engine :=
  if negb (existsSync disk (projectRoot e ++ "/init.sh")) then
    ({| step := Step1; success := false; output := "init.sh not found";
        error := Some "init.sh script does not exist in project root";
        nextAction := abort |}, e)
  else
    match chmod env with
    | Throw err =>
        ({| step := Step1; success := false; output := "";
            error := Some (String_of_error err); nextAction := retry |}, e)
    | Return _ =>
        let output := "Executing: ./init.sh" ++ LF in
        if negb (serverReady env) then
          ({| step := Step1; success := false; output := output;
              error := Some "Server did not start within timeout";
              nextAction := retry |}, e)
        else
          ({| step := Step1; success := true;
              output := output ++ "Server running at http://localhost:3000";
              error := None; nextAction := continue |},
           set_context e (set_currentStep Step2 (context e)))
    end.

(** [executeStep2()] *)
Definition executeStep2 (e : Engine) (disk : Disk) : StepResult * Engine :=
  match FeatureManager.getNextIncompleteFeature (featureManager e) disk with
  | (Throw err, fm) =>
      ({| step := Step2; success := false; output := "";
          error := Some (String_of_error err); nextAction := retry |},
       set_featureManager e fm)
  | (Return None, fm) =>
      ({| step := Step2; success := false;
          output := "No incomplete features found";
          error := Some "All features completed or no features defined";
          nextAction := abort |},
       set_featureManager e fm)
  | (Return (Some nextFeature), fm) =>
      let e := set_featureManager e fm in
      ({| step := Step2; success := true;
          output := "Selected feature: " ++ FeatureManager.id nextFeature
                    ++ " - " ++ FeatureManager.description nextFeature;
          error := None; nextAction := continue |},
       set_context e
         (set_currentStep Step3
            (set_currentFeatureId (FeatureManager.id nextFeature) (context e))))
  end.

(** [executeStep3(iteration)] *)
Definition executeStep3 (iteration : Z) (e : Engine) : StepResult * Engine :=
  let output :=
    if iteration =? 1
    then "Starting implementation of feature: "
         ++ show (currentFeatureId (context e))
    else "Retrying implementation (iteration " ++ pretty iteration ++ "): "
         ++ show (currentFeatureId (context e)) in
  ({| step := Step3; success := true; output := output; error := None;
      nextAction := continue |},
   set_context e (set_currentStep Step4 (context e))).

(** [executeStep4()]; [call] counts the earlier calls of the test phase. *)
Definition executeStep4 (env : Environment) (call : nat) (e : Engine)
  : StepResult * Engine :=
  match executeTestPhase env call with
  | Throw err =>
      ({| step := Step4; success := false; output := "";
          error := Some (String_of_error err); nextAction := retry |}, e)
  | Return testResults =>
      let output := formatTestPhaseOutput testResults in
      if allPassed testResults then
        ({| step := Step4; success := true; output := output; error := None;
            nextAction := continue |},
         set_context e (set_state completed (context e)))
      else
        ({| step := Step4; success := false; output := output;
            error := Some (String.concat ", " (failedTests testResults));
            nextAction := retry |}, e)
  end.

(** The variables of the [while] loop of [executeWorkflow]. *)
Record Loop : Type := {
  loop_allPassed : bool;
  loop_iterations : Z;
  loop_steps : list StepResult;
  loop_calls : nat;
  loop_engine : Engine
}.

(** One pass through the body of the loop. *)
Definition iteration (env : Environment) (l : Loop) : Loop :=
  let iterations := loop_iterations l + 1 in
  let e := loop_engine l in
  let e := set_context e (set_iterationCount iterations (context e)) in
  let e := set_context e (set_state coding (context e)) in
  let '(step3Result, e) := executeStep3 iterations e in
  let steps := (loop_steps l ++ [step3Result])%list in
  if negb (success step3Result) then
    {| loop_allPassed := loop_allPassed l; loop_iterations := iterations;
       loop_steps := steps; loop_calls := loop_calls l; loop_engine := e |}
  else
    let e := set_context e (set_state verifying (context e)) in
    let '(step4Result, e) := executeStep4 env (loop_calls l) e in
    let steps := (steps ++ [step4Result])%list in
    if success step4Result then
      {| loop_allPassed := true; loop_iterations := iterations;
         loop_steps := steps; loop_calls := S (loop_calls l);
         loop_engine := set_context e (set_state completed (context e)) |}
    else
      {| loop_allPassed := loop_allPassed l; loop_iterations := iterations;
         loop_steps := steps; loop_calls := S (loop_calls l);
         loop_engine := set_context e (set_state coding (context e)) |}.

Definition loop_condition (l : Loop) : bool :=
  negb (loop_allPassed l)
  && (loop_iterations l <? maxIterations (context (loop_engine l))).

Lemma iteration_maxIterations env l :
  maxIterations (context (loop_engine (iteration env l)))
  = maxIterations (context (loop_engine l)).
Proof.
  unfold iteration, executeStep3, executeStep4. simpl.
  destruct (executeTestPhase env (loop_calls l)) as [r|err]; simpl; [|done].
  destruct (allPassed r); done.
Qed.

Lemma iteration_iterations env l :
  loop_iterations (iteration env l) = loop_iterations l + 1.
Proof.
  unfold iteration, executeStep3, executeStep4. simpl.
  destruct (executeTestPhase env (loop_calls l)) as [r|err]; simpl; [|done].
  destruct (allPassed r); done.
Qed.

(** [while (!allPassed && iterations < this.context.maxIterations) { ... }] *)
Equations? while (env : Environment) (l : Loop) : Loop
  by wf (Z.to_nat (maxIterations (context (loop_engine l)) - loop_iterations l)) lt :=
  while env l with Logic.inspect (loop_condition l) := {
    | exist _ true running => while env (iteration env l);
    | exist _ false _ => l }.
Proof.
  rewrite iteration_maxIterations, iteration_iterations.
  unfold loop_condition in running.
  apply andb_prop in running as [_ below%Z.ltb_lt]. lia.
Qed.

(** [createFailedResult(steps, startTime, error)] *)
Definition createFailedResult (steps : list StepResult) (e : Engine)
  : WorkflowResult * Engine :=
  let e := set_context e (set_state failed (context e)) in
  ({| result_success := false;
      featureCompleted := false;
      featureId := currentFeatureId (context e);
      iterations := iterationCount (context e);
      steps := steps;
      testResults := None |}, e).

(** [executeWorkflow()] *)
Definition executeWorkflow (env : Environment) (e : Engine) (disk : Disk)
  : WorkflowResult * Engine :=
  let steps : list StepResult := [] in
  let e := set_context e (set_state initializing (context e)) in
  let '(step1Result, e) := executeStep1 env e disk in
  let steps := (steps ++ [step1Result])%list in
  if negb (success step1Result) then createFailedResult steps e
  else
    let e := set_context e (set_state selecting (context e)) in
    let '(step2Result, e) := executeStep2 e disk in
    let steps := (steps ++ [step2Result])%list in
    if negb (success step2Result) then createFailedResult steps e
    else
      let l := while env {| loop_allPassed := false; loop_iterations := 0;
                            loop_steps := steps; loop_calls := 0;
                            loop_engine := e |} in
      ({| result_success := loop_allPassed l;
          featureCompleted := loop_allPassed l;
          featureId := currentFeatureId (context (loop_engine l));
          iterations := loop_iterations l;
          steps := loop_steps l;
          testResults := None |}, loop_engine l).

End Operations.

End WorkflowEngine.

(** ** [core/session-manager.ts] *)

Module SessionManager.

Inductive AgentType : Type := initializer | coding | testing | cleanup.

Inductive SessionStatus : Type :=
| pending | running | completed | failed | timeout.

Record SessionMetadata : Type := {
  modelUsed : option string;
  tokensUsed : option Z;
  contextWindowUsage : option Z;
  toolsInvoked : option (list string);
  errors : option (list string)
}.

Record SessionResult : Type := {
  success : bool;
  summary : string;
  filesModified : list string;
  testsRun : Z;
  testsPassed : Z;
  featureCompleted : bool
}.

Record Session : Type := {
  id : string;
  type : AgentType;
  status : SessionStatus;
  startTime : string;
  endTime : option string;
  featureId : option string;
  parentSessionId : option string;
  metadata : SessionMetadata;
  session_result : option SessionResult
}.

(** The fields of a [SessionManager] instance. *)
Record Manager : Type := {
  projectRoot : string;
  sessionsPath : string;
  currentSession : option Session
}.

Definition new (root : string) : Manager :=
  {| projectRoot := root;
     sessionsPath := root ++ "/.agent-sessions";
     currentSession := None |}.

Definition set_currentSession (m : Manager) (s : option Session) : Manager :=
  {| projectRoot := projectRoot m;
     sessionsPath := sessionsPath m;
     currentSession := s |}.

Definition set_status (st : SessionStatus) (s : Session) : Session :=
  {| id := id s; type := type s; status := st; startTime := startTime s;
     endTime := endTime s; featureId := featureId s;
     parentSessionId := parentSessionId s; metadata := metadata s;
     session_result := session_result s |}.

Definition set_endTime (now : string) (s : Session) : Session :=
  {| id := id s; type := type s; status := status s; startTime := startTime s;
     endTime := Some now; featureId := featureId s;
     parentSessionId := parentSessionId s; metadata := metadata s;
     session_result := session_result s |}.

Definition set_result (r : SessionResult) (s : Session) : Session :=
  {| id := id s; type := type s; status := status s; startTime := startTime s;
     endTime := endTime s; featureId := featureId s;
     parentSessionId := parentSessionId s; metadata := metadata s;
     session_result := Some r |}.

Definition set_featureId (f : string) (s : Session) : Session :=
  {| id := id s; type := type s; status := status s; startTime := startTime s;
     endTime := endTime s; featureId := Some f;
     parentSessionId := parentSessionId s; metadata := metadata s;
     session_result := session_result s |}.

Definition set_metadata (d : SessionMetadata) (s : Session) : Session :=
  {| id := id s; type := type s; status := status s; startTime := startTime s;
     endTime := endTime s; featureId := featureId s;
     parentSessionId := parentSessionId s; metadata := d;
     session_result := session_result s |}.

(** [{ ...old, ...updates }] on metadata: a field of [updates] wins when it
    is there. *)
Definition mergeMetadata (old updates : SessionMetadata) : SessionMetadata :=
  {| modelUsed := from_option Some (modelUsed old) (modelUsed updates);
     tokensUsed := from_option Some (tokensUsed old) (tokensUsed updates);
     contextWindowUsage :=
       from_option Some (contextWindowUsage old) (contextWindowUsage updates);
     toolsInvoked :=
       from_option Some (toolsInvoked old) (toolsInvoked updates);
     errors := from_option Some (errors old) (errors updates) |}.

Definition noMetadata : SessionMetadata :=
  {| modelUsed := None; tokensUsed := None; contextWindowUsage := None;
     toolsInvoked := None; errors := None |}.

(** [`${type}`] *)
Definition typeName (t : AgentType) : string :=
  match t with
  | initializer => "initializer"
  | coding => "coding"
  | testing => "testing"
  | cleanup => "cleanup"
  end.

(** The character [-]. *)
Definition dash : Ascii.ascii := Ascii.ascii_of_nat 45.

(** [text.replace(/-/g, '')] *)
Fixpoint withoutDashes (text : string) : string :=
  match text with
  | EmptyString => EmptyString
  | String c rest =>
      if Ascii.eqb c dash then withoutDashes rest
      else String c (withoutDashes rest)
  end.

(** [generateSessionId(type)]; [uuid] is [uuidv4()]. *)
Definition generateSessionId (now uuid : string) (t : AgentType) : string :=
  typeName t ++ "-" ++ withoutDashes (String.substring 0 10 now)
  ++ "-" ++ String.substring 0 8 uuid.

Definition sessionFile (m : Manager) (sessionId : string) : string :=
  sessionsPath m ++ "/" ++ sessionId ++ ".json".

Section Operations.
Context `{!JSON Session}.

(** [saveSession(session)] *)
Definition saveSession (session : Session) (m : Manager) (disk : Disk) : Disk :=
  writeFileSync disk (sessionFile m (id session)) (JSON_stringify session).

(** [loadSession(sessionId)] *)
Definition loadSession (sessionId : string) (m : Manager) (disk : Disk)
  : option Session :=
  match readFileSync disk (sessionFile m sessionId) with
  | Throw _ => None
  | Return content => JSON_parse content
  end.

(** [createSession(type, parentSessionId)] *)
Definition createSession (now uuid : string) (t : AgentType)
    (parent : option string) (m : Manager) (disk : Disk)
  : Session * Manager * Disk :=
  let session :=
    {| id := generateSessionId now uuid t; type := t; status := pending;
       startTime := now; endTime := None; featureId := None;
       parentSessionId := parent; metadata := noMetadata;
       session_result := None |} in
  (session, set_currentSession m (Some session), saveSession session m disk).

(** [startSession(sessionId)] *)
Definition startSession (sessionId : string) (m : Manager) (disk : Disk)
  : result unit * Manager * Disk :=
  match loadSession sessionId m disk with
  | None => (Throw ("Session not found: " ++ sessionId), m, disk)
  | Some session =>
      let session := set_status running session in
      (Return tt, set_currentSession m (Some session),
       saveSession session m disk)
  end.

(** [endSession(sessionId, status, result)] *)
Definition endSession (now : string) (sessionId : string)
    (st : SessionStatus) (r : option SessionResult) (m : Manager)
    (disk : Disk) : result unit * Manager * Disk :=
  match loadSession sessionId m disk with
  | None => (Throw ("Session not found: " ++ sessionId), m, disk)
  | Some session =>
      let session := set_endTime now (set_status st session) in
      let session :=
        match r with Some r => set_result r session | None => session end in
      (Return tt,
       match currentSession m with
       | Some current =>
           if String.eqb (id current) sessionId
           then set_currentSession m None else m
       | None => m
       end,
       saveSession session m disk)
  end.

(** [getCurrentSession()] *)
Definition getCurrentSession (m : Manager) : option Session :=
  currentSession m.

(** [updateMetadata(sessionId, metadata)] *)
Definition updateMetadata (sessionId : string) (updates : SessionMetadata)
    (m : Manager) (disk : Disk) : result unit * Manager * Disk :=
  match loadSession sessionId m disk with
  | None => (Throw ("Session not found: " ++ sessionId), m, disk)
  | Some session =>
      let session :=
        set_metadata (mergeMetadata (metadata session) updates) session in
      (Return tt, m, saveSession session m disk)
  end.

(** [setFeature(sessionId, featureId)] *)
Definition setFeature (sessionId : string) (feature : string)
    (m : Manager) (disk : Disk) : result unit * Manager * Disk :=
  match loadSession sessionId m disk with
  | None => (Throw ("Session not found: " ++ sessionId), m, disk)
  | Some session =>
      (Return tt, m, saveSession (set_featureId feature session) m disk)
  end.

End Operations.

End SessionManager.

(** ** [core/progress-tracker.ts] *)

Module ProgressTracker.

(** An entry as [parseSection] builds it: the fields it did not find are
    absent, the two counters start at zero. *)
Record ProgressEntry : Type := {
  timestamp : option string;
  sessionId : option string;
  agentType : option string;
  summary : option string;
  featureWorkedOn : option string;
  featureCompleted : option bool;
  filesModified : list string;
  testsRun : Z;
  testsPassed : Z;
  issuesEncountered : option (list string);
  nextSteps : option (list string)
}.

Record ProgressSnapshot : Type := {
  totalSessions : nat;
  totalFeaturesCompleted : nat;
  currentStreak : nat;
  lastSessionDate : option string;
  recentProgress : list ProgressEntry;
  blockedIssues : list string
}.

(** [e.featureCompleted], as a condition. *)
Definition completedFeature (e : ProgressEntry) : bool :=
  default false (featureCompleted e).

(** [entries[i].featureCompleted || entries[i].testsPassed > 0] *)
Definition madeProgress (e : ProgressEntry) : bool :=
  completedFeature e || (0 <? testsPassed e).

(** The loop that counts the streak, from the last entry backwards. *)
Fixpoint streak (backwards : list ProgressEntry) : nat :=
  match backwards with
  | [] => 0
  | e :: earlier => if madeProgress e then S (streak earlier) else 0
  end.

(** [entries.slice(-count)] *)
Definition lastEntries {A} (count : nat) (entries : list A) : list A :=
  drop (length entries - count) entries.

(** [[...new Set(items)]]: the first occurrence of each item, in order. *)
Fixpoint unique (seen items : list string) : list string :=
  match items with
  | [] => []
  | x :: rest =>
      if bool_decide (x ∈ seen) then unique seen rest
      else x :: unique (x :: seen) rest
  end.

(** The issues collected over all entries. *)
Definition collectIssues (entries : list ProgressEntry) : list string :=
  mjoin (map (fun e => default [] (issuesEncountered e)) entries).

(** [getCurrentProgress()], from the entries [parseProgressEntries] reads in
    the progress file. *)
Definition getCurrentProgress (entries : list ProgressEntry)
  : ProgressSnapshot :=
  {| totalSessions := length entries;
     totalFeaturesCompleted := length (List.filter completedFeature entries);
     currentStreak := streak (reverse entries);
     lastSessionDate := last entries ≫= timestamp;
     recentProgress := lastEntries 5 entries;
     blockedIssues := unique [] (collectIssues entries) |}.

End ProgressTracker.

(** ** [core/agent-coordinator.ts] *)

Module AgentCoordinator.

Inductive TaskType : Type :=
| initialize_project | implement_feature | write_tests | run_tests
| fix_bug | code_review | cleanup | documentation.

Inductive ProjectPhase : Type :=
| initialization | development | testing | refinement | completion.

Inductive TaskStatus : Type := pending | in_progress | completed | blocked.

Record Task : Type := {
  id : string;
  type : TaskType;
  priority : Z;
  featureId : option string;
  dependencies : list string;
  assignedTo : option string;
  status : TaskStatus;
  createdAt : string
}.

(** The fields of an [AgentCoordinator] instance that its decisions read or
    write: its own feature manager and the task queue. *)
Record Coordinator : Type := {
  projectRoot : string;
  featureManager : FeatureManager.Manager;
  taskQueue : list Task
}.

Definition new (root : string) : Coordinator :=
  {| projectRoot := root;
     featureManager := FeatureManager.new root;
     taskQueue := [] |}.

Definition set_featureManager (c : Coordinator) (fm : FeatureManager.Manager)
  : Coordinator :=
  {| projectRoot := projectRoot c; featureManager := fm;
     taskQueue := taskQueue c |}.

Definition set_taskQueue (c : Coordinator) (queue : list Task) : Coordinator :=
  {| projectRoot := projectRoot c; featureManager := featureManager c;
     taskQueue := queue |}.

Definition set_status (st : TaskStatus) (t : Task) : Task :=
  {| id := id t; type := type t; priority := priority t;
     featureId := featureId t; dependencies := dependencies t;
     assignedTo := assignedTo t; status := st; createdAt := createdAt t |}.

Definition TaskStatus_eqb (a b : TaskStatus) : bool :=
  match a, b with
  | pending, pending | in_progress, in_progress
  | completed, completed | blocked, blocked => true
  | _, _ => false
  end.

(** [createTask(type, priority, featureId)]; [newId] is the generated id. *)
Definition createTask (newId now : string) (t : TaskType) (p : Z)
    (feature : option string) : Task :=
  {| id := newId; type := t; priority := p; featureId := feature;
     dependencies := []; assignedTo := None; status := pending;
     createdAt := now |}.

(** [areDependenciesMet(task)] *)
Fixpoint dependenciesCompleted (queue : list Task) (deps : list string) : bool :=
  match deps with
  | [] => true
  | depId :: more =>
      match List.find (fun t => String.eqb (id t) depId) queue with
      | None => false
      | Some dep =>
          if TaskStatus_eqb (status dep) completed
          then dependenciesCompleted queue more else false
      end
  end.

Definition areDependenciesMet (c : Coordinator) (task : Task) : bool :=
  dependenciesCompleted (taskQueue c) (dependencies task).

Definition byPriorityDescending (a b : Task) : Z := priority b - priority a.

(** [getNextTask()] *)
Definition getNextTask (c : Coordinator) : option Task :=
  let availableTasks :=
    sort byPriorityDescending
      (List.filter (areDependenciesMet c)
         (List.filter (fun t => TaskStatus_eqb (status t) pending)
            (taskQueue c))) in
  first availableTasks.

(** The loop of [completeTask] over the queue. *)
Definition unblock (taskId : string) (t : Task) : Task :=
  if bool_decide (taskId ∈ dependencies t) && TaskStatus_eqb (status t) blocked
  then set_status pending t else t.

(** [completeTask(taskId)] *)
Definition completeTask (taskId : string) (c : Coordinator) : Coordinator :=
  match list_find (fun t => id t = taskId) (taskQueue c) with
  | None => c
  | Some (i, task) =>
      set_taskQueue c
        (map (unblock taskId) (<[i := set_status completed task]> (taskQueue c)))
  end.

Section Operations.
Context `{!JSON FeatureManager.FeatureList}.

(** [determineProjectPhase()]; [entries] is what the progress file holds. *)
Definition determineProjectPhase (entries : list ProgressTracker.ProgressEntry)
    (c : Coordinator) (disk : Disk) : result ProjectPhase * Coordinator :=
  let progress := ProgressTracker.getCurrentProgress entries in
  match FeatureManager.getIncompleteFeatureCount (featureManager c) disk with
  | (Throw e, fm) => (Throw e, set_featureManager c fm)
  | (Return incompleteFeatures, fm) =>
      (Return
         (if bool_decide (ProgressTracker.totalSessions progress = 0%nat)
          then initialization
          else if bool_decide (incompleteFeatures = 0%nat) then completion
          else if bool_decide (ProgressTracker.currentStreak progress = 0%nat)
                  && bool_decide (5 < ProgressTracker.totalSessions progress)%nat
          then refinement
          else development),
       set_featureManager c fm)
  end.

(** [lastSession?.agentType === 'coding' && lastSession.testsRun === 0] *)
Definition untestedCoding (lastSession : option ProgressTracker.ProgressEntry)
  : bool :=
  match lastSession with
  | Some entry =>
      bool_decide (ProgressTracker.agentType entry = Some "coding")
      && (ProgressTracker.testsRun entry =? 0)
  | None => false
  end.

(** [getNextAgentType()] *)
Definition getNextAgentType (entries : list ProgressTracker.ProgressEntry)
    (c : Coordinator) (disk : Disk)
  : result SessionManager.AgentType * Coordinator :=
  match determineProjectPhase entries c disk with
  | (Throw e, c) => (Throw e, c)
  | (Return phase, c) =>
      let progress := ProgressTracker.getCurrentProgress entries in
      (Return
         match phase with
         | initialization => SessionManager.initializer
         | development =>
             let lastSession := first (ProgressTracker.recentProgress progress) in
             if untestedCoding lastSession then SessionManager.testing
             else SessionManager.coding
         | refinement => SessionManager.testing
         | completion => SessionManager.cleanup
         | testing => SessionManager.coding
         end, c)
  end.

(** [createSessionTasks()]; [newId k] is the id generated for the [k]-th
    task of the call. *)
Definition createSessionTasks (newId : nat → string) (now : string)
    (entries : list ProgressTracker.ProgressEntry) (c : Coordinator)
    (disk : Disk) : result (list Task) * Coordinator :=
  match getNextAgentType entries c disk with
  | (Throw e, c) => (Throw e, c)
  | (Return agentType, c) =>
      let created : result (list Task) * Coordinator :=
        match agentType with
        | SessionManager.initializer =>
            (Return [createTask (newId 0%nat) now initialize_project 100 None], c)
        | SessionManager.coding =>
            match FeatureManager.getNextIncompleteFeature (featureManager c) disk with
            | (Throw e, fm) => (Throw e, set_featureManager c fm)
            | (Return None, fm) => (Return [], set_featureManager c fm)
            | (Return (Some nextFeature), fm) =>
                (Return
                   [createTask (newId 0%nat) now implement_feature 50
                      (Some (FeatureManager.id nextFeature));
                    createTask (newId 1%nat) now write_tests 40
                      (Some (FeatureManager.id nextFeature))],
                 set_featureManager c fm)
            end
        | SessionManager.testing =>
            (Return [createTask (newId 0%nat) now run_tests 60 None], c)
        | SessionManager.cleanup =>
            (Return [createTask (newId 0%nat) now code_review 30 None;
                     createTask (newId 1%nat) now cleanup 25 None;
                     createTask (newId 2%nat) now documentation 20 None], c)
        end in
      match created with
      | (Throw e, c) => (Throw e, c)
      | (Return tasks, c) =>
          (Return tasks, set_taskQueue c (taskQueue c ++ tasks)%list)
      end
  end.

End Operations.

End AgentCoordinator.

(** ** [test-phase.ts] *)

Module TestPhase.

Import StateManager.

Inductive TestType : Type := Lint | Build | Browser.

Inductive TestStatus : Type := Pending | Running | Passed | Failed | Skipped.

(** [duration] and [timestamp] are wall-clock readings and are left out. *)
Record TestResult : Type := {
  type : TestType;
  status : TestStatus;
  passed : bool;
  output : string;
  error : option string
}.

Record TestPhaseResult : Type := {
  lint : TestResult;
  build : TestResult;
  browserTests : TestResult;
  allPassed : bool;
  failedTests : list TestType
}.

Record TestPhaseConfig : Type := {
  lintCommand : string;
  buildCommand : string;
  browserTestTimeout : Z;
  failFast : bool;
  captureScreenshots : bool;
  screenshotDir : string
}.

(** A [Partial<TestPhaseConfig>]. *)
Record PartialConfig : Type := {
  p_lintCommand : option string;
  p_buildCommand : option string;
  p_browserTestTimeout : option Z;
  p_failFast : option bool;
  p_captureScreenshots : option bool;
  p_screenshotDir : option string
}.

Definition DEFAULT_CONFIG : TestPhaseConfig :=
  {| lintCommand := "npm run lint";
     buildCommand := "npm run build";
     browserTestTimeout := 60000;
     failFast := false;
     captureScreenshots := true;
     screenshotDir := ".agent/screenshots" |}.

(** [{ ...DEFAULT_CONFIG, ...config }] *)
Definition withDefaults (config : option PartialConfig) : TestPhaseConfig :=
  match config with
  | None => DEFAULT_CONFIG
  | Some c =>
      {| lintCommand := default (lintCommand DEFAULT_CONFIG) (p_lintCommand c);
         buildCommand := default (buildCommand DEFAULT_CONFIG) (p_buildCommand c);
         browserTestTimeout :=
           default (browserTestTimeout DEFAULT_CONFIG) (p_browserTestTimeout c);
         failFast := default (failFast DEFAULT_CONFIG) (p_failFast c);
         captureScreenshots :=
           default (captureScreenshots DEFAULT_CONFIG) (p_captureScreenshots c);
         screenshotDir :=
           default (screenshotDir DEFAULT_CONFIG) (p_screenshotDir c) |}
  end.

(** The fields of a [TestPhase] instance. *)
Record Phase : Type := {
  projectRoot : string;
  config : TestPhaseConfig
}.

Definition new (root : string) (c : option PartialConfig) : Phase :=
  {| projectRoot := root; config := withDefaults c |}.

(** The error [execSync] throws: the captured streams, when the command
    ran, and the message. *)
Record ExecError : Type := {
  stdout : option string;
  stderr : option string;
  message : string
}.

(** The machine the checks run on, in a state of type [W]:
    [execSync command cwd timeout] runs a command, [files] is the disk as it
    stands, [httpGet url] answers a status code or the message of the
    request error. *)
Record Machine (W : Type) : Type := {
  execSync : string → string → Z → W → (ExecError + string) * W;
  files : W → Disk;
  httpGet : string → W → result Z * W
}.
Arguments execSync {W}.
Arguments files {W}.
Arguments httpGet {W}.

(** [error.stdout || error.stderr || error.message] *)
Definition errorOutput (e : ExecError) : string :=
  orElse (stdout e) (orElse (stderr e) (message e)).

(** An error that is not one of [execSync]: it has a message only. *)
Definition thrown (text : string) : ExecError :=
  {| stdout := None; stderr := None; message := text |}.

Definition succeeded (t : TestType) (text fallback : string) : TestResult :=
  {| type := t; status := Passed; passed := true;
     output := if String.eqb text "" then fallback else text;
     error := None |}.

Definition failedWith (t : TestType) (e : ExecError) (label : string)
  : TestResult :=
  {| type := t; status := Failed; passed := false;
     output := errorOutput e; error := Some label |}.

(** [value?.includes('playwright')] on a value that is there: a string is
    searched, an array is scanned for the string, anything else has no such
    method. *)
Definition includesPlaywright (v : JsonValue) : result bool :=
  match v with
  | JStr s => Return (includes s "playwright")
  | JArr items =>
      Return (existsb (fun item =>
                         match item with
                         | JStr s => String.eqb s "playwright"
                         | _ => false
                         end) items)
  | _ => Throw "TypeError: includes is not a function"
  end.

(** [packageJson.scripts?.[key]?.includes('playwright')] *)
Definition scriptIncludesPlaywright (packageJson : JsonValue) (key : string)
  : result (option bool) :=
  match get packageJson "scripts" with
  | Throw e => Throw e
  | Return None | Return (Some JNull) => Return None
  | Return (Some scripts) =>
      match get scripts key with
      | Throw e => Throw e
      | Return None | Return (Some JNull) => Return None
      | Return (Some script) =>
          match includesPlaywright script with
          | Throw e => Throw e
          | Return b => Return (Some b)
          end
      end
  end.

(** [hasPlaywrightTest], as the condition [!hasPlaywrightTest] reads it. *)
Definition hasPlaywrightTest (packageJson : JsonValue) : result bool :=
  match scriptIncludesPlaywright packageJson "test" with
  | Throw e => Throw e
  | Return (Some true) => Return true
  | Return _ =>
      match scriptIncludesPlaywright packageJson "test:e2e" with
      | Throw e => Throw e
      | Return b => Return (default false b)
      end
  end.

(** [packageJson.scripts?.['test:e2e'] || 'npx playwright test'] *)
Definition testCommand (packageJson : JsonValue) : result JsonValue :=
  match get packageJson "scripts" with
  | Throw e => Throw e
  | Return None | Return (Some JNull) => Return (JStr "npx playwright test")
  | Return (Some scripts) =>
      match get scripts "test:e2e" with
      | Throw e => Throw e
      | Return script =>
          if truthy script then Return (default JNull script)
          else Return (JStr "npx playwright test")
      end
  end.

Section Operations.
Context {W : Type} (os : Machine W).
Context `{!JSON JsonValue}.

(** [runLint()] *)
Definition runLint (t : Phase) (w : W) : TestResult * W :=
  match execSync os (lintCommand (config t)) (projectRoot t) 120000 w with
  | (inr text, w) => (succeeded Lint text "No lint errors found", w)
  | (inl e, w) => (failedWith Lint e "Lint check failed", w)
  end.

(** [runBuild()] *)
Definition runBuild (t : Phase) (w : W) : TestResult * W :=
  match execSync os (buildCommand (config t)) (projectRoot t) 300000 w with
  | (inr text, w) => (succeeded Build text "Build completed successfully", w)
  | (inl e, w) => (failedWith Build e "Build failed", w)
  end.

(** [runBasicBrowserCheck(startTime)] *)
Definition runBasicBrowserCheck (w : W) : TestResult * W :=
  let failure (text : string) : TestResult :=
    {| type := Browser; status := Failed; passed := false; output := "";
       error := Some ("Browser check failed: " ++ text) |} in
  match httpGet os "http://localhost:3000" w with
  | (Return statusCode, w) =>
      if statusCode =? 200 then
        ({| type := Browser; status := Passed; passed := true;
            output := "Basic browser check passed - server responding on localhost:3000";
            error := None |}, w)
      else (failure ("Status code: " ++ pretty statusCode), w)
  | (Throw text, w) => (failure text, w)
  end.

(** [runBrowserTests()] *)
Definition runBrowserTests (t : Phase) (w : W) : TestResult * W :=
  let failure (e : ExecError) : TestResult :=
    failedWith Browser e "Browser tests failed" in
  let packageJsonPath := projectRoot t ++ "/package.json" in
  if negb (existsSync (files os w) packageJsonPath) then
    ({| type := Browser; status := Skipped; passed := true;
        output := "No package.json found - browser tests skipped";
        error := None |}, w)
  else
    match readFileSync (files os w) packageJsonPath with
    | Throw text => (failure (thrown text), w)
    | Return content =>
        match JSON_parse content with
        | None => (failure (thrown "SyntaxError"), w)
        | Some packageJson =>
            match hasPlaywrightTest packageJson with
            | Throw text => (failure (thrown text), w)
            | Return false => runBasicBrowserCheck w
            | Return true =>
                match testCommand packageJson with
                | Throw text => (failure (thrown text), w)
                | Return (JStr command) =>
                    match execSync os command (projectRoot t)
                            (browserTestTimeout (config t)) w with
                    | (inr text, w) =>
                        (succeeded Browser text "Browser tests passed", w)
                    | (inl e, w) => (failure e, w)
                    end
                | Return _ =>
                    (failure
                       (thrown "TypeError: The command argument must be of type string"),
                     w)
                end
            end
        end
    end.

(** [executeTestPhase()] *)
Definition executeTestPhase (t : Phase) (w : W) : TestPhaseResult * W :=
  let failedTests : list TestType := [] in
  let '(lintResult, w) := runLint t w in
  let '(buildResult, w) := runBuild t w in
  let '(browserResult, w) := runBrowserTests t w in
  let failedTests :=
    if negb (passed lintResult) then (failedTests ++ [Lint])%list
    else failedTests in
  let failedTests :=
    if negb (passed buildResult) then (failedTests ++ [Build])%list
    else failedTests in
  let failedTests :=
    if negb (passed browserResult) then (failedTests ++ [Browser])%list
    else failedTests in
  let allPassed := bool_decide (length failedTests = 0%nat) in
  ({| lint := lintResult; build := buildResult; browserTests := browserResult;
      allPassed := allPassed; failedTests := failedTests |}, w).

(** [runTest(type)] *)
Definition runTest (kind : TestType) (t : Phase) (w : W) : TestResult * W :=
  match kind with
  | Lint => runLint t w
  | Build => runBuild t w
  | Browser => runBrowserTests t w
  end.

End Operations.

End TestPhase.

(** * Properties *)

(** ** Vocabulary of the statements *)

(** How many records of [steps] belong to workflow step [s]. *)
Definition sameStep (a b : WorkflowEngine.WorkflowStep) : bool :=
  match a, b with
  | WorkflowEngine.Step1, WorkflowEngine.Step1
  | WorkflowEngine.Step2, WorkflowEngine.Step2
  | WorkflowEngine.Step3, WorkflowEngine.Step3
  | WorkflowEngine.Step4, WorkflowEngine.Step4 => true
  | _, _ => false
  end.

Definition stepCount (s : WorkflowEngine.WorkflowStep)
    (steps : list WorkflowEngine.StepResult) : nat :=
  length (List.filter (fun r => sameStep (WorkflowEngine.step r) s) steps).

(** The [call]-th run of the test phase does not report success. *)
Definition verificationFails (env : WorkflowEngine.Environment) (call : nat)
  : Prop :=
  match WorkflowEngine.executeTestPhase env call with
  | Return r => WorkflowEngine.allPassed r = false
  | Throw _ => True
  end.

(** The step records appended by [n] code-then-verify cycles. *)
Definition cycles (n : nat) : list WorkflowEngine.WorkflowStep :=
  mjoin (replicate n [WorkflowEngine.Step3; WorkflowEngine.Step4]).

(** Steps 1 and 2 of the workflow succeed: the start-up script is there and
    can be made executable, the server answers, and the feature backlog
    names a next feature. *)
Definition setupSucceeds `{!JSON FeatureManager.FeatureList}
    (env : WorkflowEngine.Environment) (e : WorkflowEngine.Engine)
    (disk : Disk) : Prop :=
  existsSync disk (WorkflowEngine.projectRoot e ++ "/init.sh") = true
  ∧ WorkflowEngine.chmod env = Return tt
  ∧ WorkflowEngine.serverReady env = true
  ∧ ∃ next fm,
      FeatureManager.getNextIncompleteFeature
        (WorkflowEngine.featureManager e) disk = (Return (Some next), fm).

(** A dependency is satisfied when the feature found under that id exists
    and passes. *)
Definition dependencySatisfied (feats : list FeatureManager.Feature)
    (depId : string) : Prop :=
  ∃ g, List.find (fun f => String.eqb (FeatureManager.id f) depId) feats = Some g
       ∧ FeatureManager.passes g = true.

(** A feature is eligible when all its dependencies are satisfied. *)
Definition eligible (feats : list FeatureManager.Feature)
    (f : FeatureManager.Feature) : Prop :=
  ∀ depId, depId ∈ default [] (FeatureManager.dependencies f) →
           dependencySatisfied feats depId.

(** The order of the stable sort: ascending priority, ties by position in
    the original list. *)
Definition precedes (i : nat) (f : FeatureManager.Feature)
    (j : nat) (g : FeatureManager.Feature) : Prop :=
  FeatureManager.priority f < FeatureManager.priority g
  ∨ (FeatureManager.priority f = FeatureManager.priority g ∧ (i ≤ j)%nat).

(** The selection rule in the words of the specification: nothing when every
    feature passes; otherwise the first eligible incomplete feature in sort
    order, and when no incomplete feature is eligible, the first incomplete
    feature in sort order. *)
Definition nextIncomplete (feats : list FeatureManager.Feature)
    (r : option FeatureManager.Feature) : Prop :=
  match r with
  | None => ∀ f, f ∈ feats → FeatureManager.passes f = true
  | Some f =>
      ∃ i, feats !! i = Some f ∧ FeatureManager.passes f = false
        ∧ ((eligible feats f
            ∧ ∀ j g, feats !! j = Some g → FeatureManager.passes g = false →
                     eligible feats g → precedes i f j g)
           ∨ ((∀ g, g ∈ feats → FeatureManager.passes g = false →
                    ¬ eligible feats g)
              ∧ ∀ j g, feats !! j = Some g →
                       FeatureManager.passes g = false → precedes i f j g))
  end.

(** What [areDependenciesMet] answers for the loaded list [l]. *)
Definition dependenciesMet (l : FeatureManager.FeatureList)
    (f : FeatureManager.Feature) : bool :=
  match FeatureManager.dependencies f with
  | None | Some [] => true
  | Some deps => FeatureManager.dependenciesPass (FeatureManager.features l) deps
  end.

(** The evidence of a test stands on [disk]: both paths exist and the
    console log holds no failure marker. *)
Definition failureMarker (content : string) : bool :=
  includes content "ERROR" || includes content "FAIL".

Definition evidenceStands (disk : Disk) (ev : TestManager.Evidence) : bool :=
  existsSync disk (TestManager.evidence_screenshot_path ev)
  && match disk !! TestManager.evidence_console_log_path ev with
     | Some content => negb (failureMarker content)
     | None => false
     end.

(** The suite [initialize] writes. *)
Definition emptySuite (now : string) : TestManager.TestSuite :=
  {| TestManager.version := "1.0.0";
     TestManager.created_at := now;
     TestManager.updated_at := now;
     TestManager.total_tests := 0;
     TestManager.passed_tests := 0;
     TestManager.tests := [] |}.

(** The ledger file cannot be used: it is absent, or its text is not JSON. *)
Definition ledgerUnusable `{!JSON TestManager.TestSuite}
    (m : TestManager.Manager) (disk : Disk) : Prop :=
  match disk !! TestManager.testsFilePath m with
  | None => True
  | Some text => JSON_parse text = None
  end.

(** The conversion "unknown value to [pause]" of a state field. *)
Definition coerced (v : StateManager.JsonValue) : StateManager.JsonValue :=
  if StateManager.VALID_STATES_has (Some v) then v
  else StateManager.JStr "pause".

(** [v] is one of the five state names. *)
Definition validState (v : option StateManager.JsonValue) : Prop :=
  ∃ name, v = Some (StateManager.JStr name) ∧ name ∈ StateManager.VALID_STATES.

(** The state file cannot be used: it is absent, or its text is not JSON. *)
Definition stateFileUnusable `{!JSON StateManager.JsonValue}
    (m : StateManager.Manager) (disk : Disk) : Prop :=
  match disk !! StateManager.stateFilePath m with
  | None => True
  | Some text => JSON_parse text = None
  end.

(** The state file holds an object whose two required fields are there and
    truthy. *)
Definition stateFileHolds `{!JSON StateManager.JsonValue}
    (m : StateManager.Manager) (disk : Disk)
    (fields : list (string * StateManager.JsonValue))
    (desired current : StateManager.JsonValue) : Prop :=
  (∃ text, disk !! StateManager.stateFilePath m = Some text
           ∧ JSON_parse text = Some (StateManager.JObj fields))
  ∧ StateManager.field "desired_state" fields = Some desired
  ∧ StateManager.field "current_state" fields = Some current
  ∧ StateManager.truthy (Some desired) = true
  ∧ StateManager.truthy (Some current) = true.

(** [x] is the first item of [backlog], in file order, that satisfies
    [rule]; no item of [backlog] satisfies [rule]. *)
Definition firstSuch (rule : BacklogManager.BacklogItem → bool)
    (backlog : list BacklogManager.BacklogItem)
    (x : BacklogManager.BacklogItem) : Prop :=
  ∃ i, backlog !! i = Some x ∧ rule x = true
       ∧ ∀ j y, backlog !! j = Some y → (j < i)%nat → rule y = false.

Definition noneSuch (rule : BacklogManager.BacklogItem → bool)
    (backlog : list BacklogManager.BacklogItem) : Prop :=
  ∀ y, y ∈ backlog → rule y = false.

(** The scans of [getNextItem] as the code performs them, over its list
    [priorityOrder] (they serve the proofs): [x] is the first item
    satisfying [rule p] for the first [p] of the list that has one; no [p]
    of the list has one. *)
Definition firstByPriority
    (rule : string → BacklogManager.BacklogItem → bool)
    (backlog : list BacklogManager.BacklogItem)
    (x : BacklogManager.BacklogItem) : Prop :=
  ∃ k p, BacklogManager.priorityOrder !! k = Some p
         ∧ firstSuch (rule p) backlog x
         ∧ ∀ k' q, (k' < k)%nat → BacklogManager.priorityOrder !! k' = Some q →
                   noneSuch (rule q) backlog.

Definition noPriorityMatch
    (rule : string → BacklogManager.BacklogItem → bool)
    (backlog : list BacklogManager.BacklogItem) : Prop :=
  ∀ q, q ∈ BacklogManager.priorityOrder → noneSuch (rule q) backlog.

(** The rules of the precedence, each over incomplete items. *)
Definition pending (item : BacklogManager.BacklogItem) : bool :=
  negb (BacklogManager.completed item).

Definition resumable (item : BacklogManager.BacklogItem) : bool :=
  pending item && String.eqb (BacklogManager.status item) "in_progress".

Definition queued (p : string) (item : BacklogManager.BacklogItem) : bool :=
  pending item
  && (String.eqb (BacklogManager.priority item) p
      && String.eqb (BacklogManager.status item) "backlog").

Definition ranked (p : string) (item : BacklogManager.BacklogItem) : bool :=
  pending item && String.eqb (BacklogManager.priority item) p.

(** What the cascade of [getNextItem] gives, in terms of these scans. *)
Definition scanOutcome (backlog : list BacklogManager.BacklogItem)
    (r : option BacklogManager.BacklogItem) : Prop :=
  match r with
  | None => noneSuch pending backlog
  | Some x =>
      firstSuch resumable backlog x
      ∨ (noneSuch resumable backlog ∧ firstByPriority queued backlog x)
      ∨ (noneSuch resumable backlog ∧ noPriorityMatch queued backlog
         ∧ firstByPriority ranked backlog x)
      ∨ (noneSuch resumable backlog ∧ noPriorityMatch queued backlog
         ∧ noPriorityMatch ranked backlog ∧ firstSuch pending backlog x)
  end.

(** The precedence in the words of the specification.  The rank of a
    priority in the scan critical, high, medium, low; a text that is none of
    the four has no rank. *)
Definition urgency (p : string) : option nat :=
  if String.eqb p "critical" then Some 0%nat
  else if String.eqb p "high" then Some 1%nat
  else if String.eqb p "medium" then Some 2%nat
  else if String.eqb p "low" then Some 3%nat
  else None.

(** An incomplete item of status [backlog]. *)
Definition waiting (item : BacklogManager.BacklogItem) : bool :=
  pending item && String.eqb (BacklogManager.status item) "backlog".

(** [x] is what scanning the priorities finds among the items that satisfy
    [rule]: its priority has a rank, no item satisfying [rule] has a
    priority of a lower rank, and [x] is the first in file order of those
    of its rank. *)
Definition foundByScan (rule : BacklogManager.BacklogItem → bool)
    (backlog : list BacklogManager.BacklogItem)
    (x : BacklogManager.BacklogItem) : Prop :=
  ∃ i k, backlog !! i = Some x ∧ rule x = true
         ∧ urgency (BacklogManager.priority x) = Some k
         ∧ ∀ j y k', backlog !! j = Some y → rule y = true →
                     urgency (BacklogManager.priority y) = Some k' →
                     (k < k')%nat ∨ (k = k' ∧ (i ≤ j)%nat).

(** Scanning the priorities finds nothing: no item satisfying [rule] has
    one of the four priorities. *)
Definition scanFindsNone (rule : BacklogManager.BacklogItem → bool)
    (backlog : list BacklogManager.BacklogItem) : Prop :=
  ∀ y, y ∈ backlog → rule y = true →
       urgency (BacklogManager.priority y) = None.

(** The four-step precedence: the first in-progress item; else the item of
    status [backlog] the scan finds; else the incomplete item the scan
    finds; else the first incomplete item. *)
Definition precedence (backlog : list BacklogManager.BacklogItem)
    (r : option BacklogManager.BacklogItem) : Prop :=
  match r with
  | None => noneSuch pending backlog
  | Some x =>
      firstSuch resumable backlog x
      ∨ (noneSuch resumable backlog ∧ foundByScan waiting backlog x)
      ∨ (noneSuch resumable backlog ∧ scanFindsNone waiting backlog
         ∧ foundByScan pending backlog x)
      ∨ (noneSuch resumable backlog ∧ scanFindsNone waiting backlog
         ∧ scanFindsNone pending backlog ∧ firstSuch pending backlog x)
  end.

(** The invariant the specification gives for a backlog item. *)
Definition completedIffDone (item : BacklogManager.BacklogItem) : Prop :=
  BacklogManager.completed item = true ↔ BacklogManager.status item = "done".

(** The [call]-th run of the test phase reports success. *)
Definition verificationPasses (env : WorkflowEngine.Environment) (call : nat)
  : Prop :=
  ∃ r, WorkflowEngine.executeTestPhase env call = Return r
       ∧ WorkflowEngine.allPassed r = true.

(** Step 1 of the workflow succeeds. *)
Definition environmentStarts (env : WorkflowEngine.Environment)
    (e : WorkflowEngine.Engine) (disk : Disk) : Prop :=
  existsSync disk (WorkflowEngine.projectRoot e ++ "/init.sh") = true
  ∧ WorkflowEngine.chmod env = Return tt
  ∧ WorkflowEngine.serverReady env = true.

(** The codec reads back the text it produces for [v]. *)
Definition readsBack {A} `{!JSON A} (v : A) : Prop :=
  JSON_parse (JSON_stringify v) = Some v.

(** The object [writeState] serialises on [disk]. *)
Definition writtenState `{!JSON StateManager.JsonValue} (now : string)
    (updates : StateManager.StateUpdates) (m : StateManager.Manager)
    (disk : Disk) : StateManager.JsonValue :=
  match StateManager.readState now m disk with
  | Return currentState =>
      StateManager.JObj (StateManager.mergedState now currentState updates)
  | Throw _ => StateManager.JNull
  end.

(** The state name a write asks for is kept when it is one of the five
    names, replaced by the stored value when it is another non-empty name,
    and written as it is when it is the empty string. *)
Definition requestedState (asked : option string)
    (stored : option StateManager.JsonValue)
  : option StateManager.JsonValue :=
  match asked with
  | None => stored
  | Some name =>
      if String.eqb name "" then Some (StateManager.JStr "")
      else if bool_decide (name ∈ StateManager.VALID_STATES)
           then Some (StateManager.JStr name)
           else stored
  end.

(** The keys a [Partial<AgentStateData>] can carry. *)
Definition stateKeys : list string :=
  ["desired_state"; "current_state"; "timestamp"; "setBy"; "note"; "phase";
   "current_issue"; "restart_count"; "last_commit"].

(** The place of a test priority in the scan critical, high, medium, low. *)
Definition priorityRank (p : TestManager.TestPriority) : nat :=
  match p with
  | TestManager.critical => 0
  | TestManager.high => 1
  | TestManager.medium => 2
  | TestManager.low => 3
  end.

(** What [validate] looks for in a ledger: distinct ids, a description and
    at least one step for every test, and both evidence paths for every
    passing test. *)
Definition evidenceRecorded (t : TestManager.TestCase) : Prop :=
  (∃ p, TestManager.screenshot_path t = Some p ∧ p ≠ "")
  ∧ (∃ p, TestManager.console_log_path t = Some p ∧ p ≠ "").

Definition ledgerSound (ts : list TestManager.TestCase) : Prop :=
  NoDup (map TestManager.id ts)
  ∧ ∀ t, t ∈ ts →
         TestManager.description t ≠ ""
         ∧ TestManager.steps t ≠ []
         ∧ (TestManager.passes t = true → evidenceRecorded t).

(** [new] is the item [old] after status or comment operations: what the
    human submitted is intact and the comments of [old] come first. *)
Definition sameRequest (old new : BacklogManager.BacklogItem) : Prop :=
  BacklogManager.id new = BacklogManager.id old
  ∧ BacklogManager.type new = BacklogManager.type old
  ∧ BacklogManager.priority new = BacklogManager.priority old
  ∧ BacklogManager.description new = BacklogManager.description old
  ∧ BacklogManager.details new = BacklogManager.details old
  ∧ BacklogManager.added new = BacklogManager.added old
  ∧ BacklogManager.comments old `prefix_of` BacklogManager.comments new.

(** The project is stalled: more than five sessions are logged and the last
    one made no progress. *)
Definition stalled (entries : list ProgressTracker.ProgressEntry) : Prop :=
  (5 < length entries)%nat
  ∧ ∃ e, last entries = Some e ∧ ProgressTracker.madeProgress e = false.

(** The entry [getNextAgentType] calls the last session: the first of the
    five most recent ones. *)
Definition consultedEntry (entries : list ProgressTracker.ProgressEntry)
  : option ProgressTracker.ProgressEntry :=
  entries !! (length entries - 5)%nat.

(** A task may be handed out: it is pending and each of its dependencies
    names a task of the queue that is completed. *)
Definition ready (queue : list AgentCoordinator.Task)
    (t : AgentCoordinator.Task) : Prop :=
  AgentCoordinator.status t = AgentCoordinator.pending
  ∧ ∀ depId, depId ∈ AgentCoordinator.dependencies t →
      ∃ dep,
        List.find (fun u => String.eqb (AgentCoordinator.id u) depId) queue
        = Some dep
        ∧ AgentCoordinator.status dep = AgentCoordinator.completed.

(** [new] is the task [old] with, at most, another status. *)
Definition sameTask (old new : AgentCoordinator.Task) : Prop :=
  AgentCoordinator.id new = AgentCoordinator.id old
  ∧ AgentCoordinator.type new = AgentCoordinator.type old
  ∧ AgentCoordinator.priority new = AgentCoordinator.priority old
  ∧ AgentCoordinator.featureId new = AgentCoordinator.featureId old
  ∧ AgentCoordinator.dependencies new = AgentCoordinator.dependencies old.

(** A check result is coherent: it carries its kind; when it passed, its
    status is passed or skipped and it has no error; when it did not, its
    status is failed and it names an error. *)
Definition verdictOf (kind : TestPhase.TestType) (r : TestPhase.TestResult)
  : Prop :=
  TestPhase.type r = kind
  ∧ if TestPhase.passed r
    then (TestPhase.status r = TestPhase.Passed
          ∨ TestPhase.status r = TestPhase.Skipped)
         ∧ TestPhase.error r = None
    else TestPhase.status r = TestPhase.Failed
         ∧ is_Some (TestPhase.error r).

(** The result of a test phase for one kind of check. *)
Definition checkOf (r : TestPhase.TestPhaseResult) (kind : TestPhase.TestType)
  : TestPhase.TestResult :=
  match kind with
  | TestPhase.Lint => TestPhase.lint r
  | TestPhase.Build => TestPhase.build r
  | TestPhase.Browser => TestPhase.browserTests r
  end.

(** The note of the record [readState] returned. *)
Definition noteOf (state : result StateManager.JsonValue)
  : option StateManager.JsonValue :=
  match state with
  | Return (StateManager.JObj fields) => StateManager.field "note" fields
  | _ => None
  end.

(** The text an operation records for an optional text: the one given, and
    [fallback] when none or an empty one is given. *)
Definition noteOrDefault (given : option string) (fallback : string) : string :=
  match given with
  | Some text => if String.eqb text "" then fallback else text
  | None => fallback
  end.

(** ** Sample stores used to exercise the statements *)

Module Samples.

Definition feature (name : string) (prio : Z) (deps : option (list string))
    (done : bool) : FeatureManager.Feature :=
  {| FeatureManager.id := name;
     FeatureManager.category := FeatureManager.functional;
     FeatureManager.description := "feature " ++ name;
     FeatureManager.steps := ["check " ++ name];
     FeatureManager.passes := done;
     FeatureManager.priority := prio;
     FeatureManager.dependencies := deps;
     FeatureManager.verificationNotes := None;
     FeatureManager.lastAttemptedAt := None;
     FeatureManager.completedAt := None |}.

Definition featureListOf (fs : list FeatureManager.Feature)
  : FeatureManager.FeatureList :=
  {| FeatureManager.projectName := "p";
     FeatureManager.createdAt := "2025-01-01T00:00:00.000Z";
     FeatureManager.updatedAt := "2025-01-01T00:00:00.000Z";
     FeatureManager.totalFeatures := length fs;
     FeatureManager.completedFeatures :=
       length (List.filter FeatureManager.passes fs);
     FeatureManager.features := fs |}.

(** Scenario A of the specification: F1 (priority 10) and F2 (priority 5,
    depending on F1), both incomplete. *)
Definition scenarioA : FeatureManager.FeatureList :=
  featureListOf [feature "F1" 10 None false;
                 feature "F2" 5 (Some ["F1"]) false].

(** A codec that knows one document, the text [features]. *)
Definition featureCodec : JSON FeatureManager.FeatureList :=
  {| JSON_parse := fun text =>
       if String.eqb text "features" then Some scenarioA else None;
     JSON_stringify := fun _ => "features" |}.

Definition projectDisk : Disk :=
  {[ "/p/init.sh" := "npm run dev"; "/p/feature_list.json" := "features" ]}.

Definition failedPhase : WorkflowEngine.TestPhaseResult :=
  {| WorkflowEngine.lint :=
       {| WorkflowEngine.passed := false;
          WorkflowEngine.check_output := "1 problem" |};
     WorkflowEngine.build :=
       {| WorkflowEngine.passed := true; WorkflowEngine.check_output := "" |};
     WorkflowEngine.browserTests :=
       {| WorkflowEngine.passed := true; WorkflowEngine.check_output := "" |};
     WorkflowEngine.allPassed := false;
     WorkflowEngine.failedTests := ["lint"] |}.

(** The environment in which the server starts and every test phase fails. *)
Definition failingEnvironment : WorkflowEngine.Environment :=
  {| WorkflowEngine.chmod := Return tt;
     WorkflowEngine.serverReady := true;
     WorkflowEngine.executeTestPhase := fun _ => Return failedPhase |}.

Definition test (name : string) : TestManager.TestCase :=
  {| TestManager.id := name;
     TestManager.category := TestManager.functional;
     TestManager.description := "test " ++ name;
     TestManager.steps := ["open the page"];
     TestManager.passes := false;
     TestManager.priority := TestManager.high;
     TestManager.verified_at := None;
     TestManager.screenshot_path := None;
     TestManager.console_log_path := None;
     TestManager.notes := None |}.

Definition ledger : TestManager.TestSuite :=
  {| TestManager.version := "1.0.0";
     TestManager.created_at := "2025-01-01T00:00:00.000Z";
     TestManager.updated_at := "2025-01-01T00:00:00.000Z";
     TestManager.total_tests := 1;
     TestManager.passed_tests := 0;
     TestManager.tests := [test "T1"] |}.

(** A codec that knows one document, the text [ledger]. *)
Definition ledgerCodec : JSON TestManager.TestSuite :=
  {| JSON_parse := fun text =>
       if String.eqb text "ledger" then Some ledger else None;
     JSON_stringify := fun _ => "ledger" |}.

(** Scenario C of the specification: the console log is there, the
    screenshot is not. *)
Definition scenarioC : Disk :=
  {[ "/p/tests.json" := "ledger"; "/p/console.log" := "page loaded" ]}.

Definition evidenceC : TestManager.Evidence :=
  {| TestManager.evidence_screenshot_path := "/p/screenshots/T1.png";
     TestManager.evidence_console_log_path := "/p/console.log";
     TestManager.evidence_notes := Some "verified by hand" |}.

(** Scenario D of the specification: the text
    [{"desired_state":"bogus","current_state":"continuous"}]. *)
Definition quoted (s : string) : string :=
  String (Ascii.ascii_of_nat 34) (s ++ String (Ascii.ascii_of_nat 34) "").

Definition scenarioD_text : string :=
  "{" ++ quoted "desired_state" ++ ":" ++ quoted "bogus" ++ ","
  ++ quoted "current_state" ++ ":" ++ quoted "continuous" ++ "}".

Definition scenarioD_value : StateManager.JsonValue :=
  StateManager.JObj [("desired_state", StateManager.JStr "bogus");
                     ("current_state", StateManager.JStr "continuous")].

(** A codec that knows the document of scenario D. *)
Definition stateCodec : JSON StateManager.JsonValue :=
  {| JSON_parse := fun text =>
       if String.eqb text scenarioD_text then Some scenarioD_value else None;
     JSON_stringify := fun _ => scenarioD_text |}.

Definition scenarioD : Disk := {[ "/p/agent_state.json" := scenarioD_text ]}.

(** A backlog item that was completed. *)
Definition doneItem : BacklogManager.BacklogItem :=
  {| BacklogManager.id := "1735689600000";
     BacklogManager.type := BacklogManager.bug;
     BacklogManager.priority := "high";
     BacklogManager.status := "done";
     BacklogManager.description := "login fails";
     BacklogManager.details := "";
     BacklogManager.comments := [];
     BacklogManager.added := "2025-01-01T00:00:00.000Z";
     BacklogManager.completed := true;
     BacklogManager.completedDate := Some "2025-01-01T12:00:00.000Z";
     BacklogManager.github_issue := None;
     BacklogManager.vote_count := Some 0 |}.

(** A codec that knows one document, the text [backlog]. *)
Definition backlogCodec : JSON (list BacklogManager.BacklogItem) :=
  {| JSON_parse := fun text =>
       if String.eqb text "backlog" then Some [doneItem] else None;
     JSON_stringify := fun _ => "backlog" |}.

Definition backlogDisk : Disk := {[ "/p/human_backlog.json" := "backlog" ]}.

Definition passedPhase : WorkflowEngine.TestPhaseResult :=
  {| WorkflowEngine.lint :=
       {| WorkflowEngine.passed := true; WorkflowEngine.check_output := "" |};
     WorkflowEngine.build :=
       {| WorkflowEngine.passed := true; WorkflowEngine.check_output := "" |};
     WorkflowEngine.browserTests :=
       {| WorkflowEngine.passed := true; WorkflowEngine.check_output := "" |};
     WorkflowEngine.allPassed := true;
     WorkflowEngine.failedTests := [] |}.

(** The environment in which the second test phase is the first to pass. *)
Definition recoveringEnvironment : WorkflowEngine.Environment :=
  {| WorkflowEngine.chmod := Return tt;
     WorkflowEngine.serverReady := true;
     WorkflowEngine.executeTestPhase := fun call =>
       match call with
       | O => Return failedPhase
       | _ => Return passedPhase
       end |}.

(** The environment in which the server never answers. *)
Definition deadEnvironment : WorkflowEngine.Environment :=
  {| WorkflowEngine.chmod := Return tt;
     WorkflowEngine.serverReady := false;
     WorkflowEngine.executeTestPhase := fun _ => Return passedPhase |}.

(** What [pause()] writes at [stamp] when no state file exists yet. *)
Definition stamp : string := "2025-01-02T00:00:00.000Z".

Definition pausedValue : StateManager.JsonValue :=
  StateManager.JObj
    (StateManager.mergedState stamp
       (StateManager.pauseState stamp "Default state (file did not exist)")
       (StateManager.bothStates "pause" "Agent paused")).

(** A codec that knows one document, the text [paused]. *)
Definition pausedCodec : JSON StateManager.JsonValue :=
  {| JSON_parse := fun text =>
       if String.eqb text "paused" then Some pausedValue else None;
     JSON_stringify := fun _ => "paused" |}.

(** A coordinator whose feature manager holds scenario A. *)
Definition coordinator : AgentCoordinator.Coordinator :=
  AgentCoordinator.set_featureManager (AgentCoordinator.new "/p")
    (FeatureManager.set_featureList (FeatureManager.new "/p") scenarioA).

Definition firstTask : AgentCoordinator.Task :=
  AgentCoordinator.createTask "task-1" stamp
    AgentCoordinator.initialize_project 100 None.

(** A session as [createSession] writes it, and a codec that knows it
    pending and running. *)
Definition session : SessionManager.Session :=
  {| SessionManager.id := "coding-20250102-1234abcd";
     SessionManager.type := SessionManager.coding;
     SessionManager.status := SessionManager.pending;
     SessionManager.startTime := stamp;
     SessionManager.endTime := None;
     SessionManager.featureId := None;
     SessionManager.parentSessionId := None;
     SessionManager.metadata := SessionManager.noMetadata;
     SessionManager.session_result := None |}.

Definition sessionCodec : JSON SessionManager.Session :=
  {| JSON_parse := fun text =>
       if String.eqb text "pending" then Some session
       else if String.eqb text "running"
            then Some (SessionManager.set_status SessionManager.running session)
            else None;
     JSON_stringify := fun s =>
       match SessionManager.status s with
       | SessionManager.pending => "pending"
       | SessionManager.running => "running"
       | _ => "ended"
       end |}.





(** A backlog with a medium request waiting first in the file, a blocked
    high one, a critical one waiting, and a completed one. *)
Definition request (name prio state : string) : BacklogManager.BacklogItem :=
  {| BacklogManager.id := name;
     BacklogManager.type := BacklogManager.feature;
     BacklogManager.priority := prio;
     BacklogManager.status := state;
     BacklogManager.description := "request " ++ name;
     BacklogManager.details := "";
     BacklogManager.comments := [];
     BacklogManager.added := "2025-01-01T00:00:00.000Z";
     BacklogManager.completed := false;
     BacklogManager.completedDate := None;
     BacklogManager.github_issue := None;
     BacklogManager.vote_count := Some 0 |}.

Definition requests : list BacklogManager.BacklogItem :=
  [request "1" "medium" "backlog"; request "2" "high" "blocked";
   request "3" "critical" "backlog"; doneItem].

Definition requestsCodec : JSON (list BacklogManager.BacklogItem) :=
  {| JSON_parse := fun text =>
       if String.eqb text "requests" then Some requests else None;
     JSON_stringify := fun _ => "requests" |}.

Definition requestsDisk : Disk := {[ "/p/human_backlog.json" := "requests" ]}.

End Samples.

(** ** The stable sort of the run time *)

Section SortFacts.
Context {A : Type} (key : A → Z).

Let compare (a b : A) : Z := key a - key b.
Let ascending (a b : A) : Prop := key a ≤ key b.

Lemma sort_insert_front x (s : list A) :
  Forall (ascending x) s → sort_insert compare x s = x :: s.
Proof.
  destruct 1 as [|y s Hy _]; simpl; [done|].
  unfold compare, ascending in *.
  destruct (Z.leb_spec (key x - key y) 0); [done|lia].
Qed.

Lemma sort_insert_elem x y (s : list A) :
  y ∈ sort_insert compare x s ↔ y = x ∨ y ∈ s.
Proof.
  induction s as [|z s IH]; simpl.
  - rewrite elem_of_cons. tauto.
  - destruct (compare x z <=? 0); rewrite !elem_of_cons; [tauto|].
    rewrite IH. tauto.
Qed.

Lemma sort_insert_sorted x (s : list A) :
  StronglySorted ascending s → StronglySorted ascending (sort_insert compare x s).
Proof.
  induction 1 as [|y s Hs IH Hy]; simpl.
  - by repeat constructor.
  - unfold compare, ascending in *.
    destruct (Z.leb_spec (key x - key y) 0).
    + constructor; [by constructor|].
      constructor; [lia|]. eapply Forall_impl; [exact Hy|]. simpl. intros. lia.
    + constructor; [done|]. apply Forall_forall. intros z Hz.
      apply sort_insert_elem in Hz as [->|Hz]; [lia|].
      rewrite Forall_forall in Hy. by apply Hy.
Qed.

Lemma sort_sorted (l : list A) : StronglySorted ascending (sort compare l).
Proof.
  induction l as [|x l IH]; simpl; [constructor|by apply sort_insert_sorted].
Qed.

Lemma filter_sort_insert (P : A → bool) x (s : list A) :
  StronglySorted ascending s →
  List.filter P (sort_insert compare x s)
  = if P x then sort_insert compare x (List.filter P s) else List.filter P s.
Proof.
  induction 1 as [|y s Hs IH Hy]; simpl.
  - by destruct (P x).
  - unfold compare, ascending in *.
    destruct (Z.leb_spec (key x - key y) 0) as [Hle|Hgt]; simpl.
    + destruct (P x) eqn:Px; [|done].
      rewrite sort_insert_front; [done|].
      assert (Forall (fun z => key x ≤ key z) (y :: s)) as Hall.
      { constructor; [lia|]. eapply Forall_impl; [exact Hy|]. simpl. intros. lia. }
      rewrite Forall_forall in Hall. apply Forall_forall. intros z Hz.
      apply Hall. simpl in Hz. destruct (P y).
      * apply elem_of_cons in Hz as [->|Hz]; [left|right].
        apply list_elem_of_In, List.filter_In in Hz as [Hz _].
        by apply list_elem_of_In.
      * apply list_elem_of_In, List.filter_In in Hz as [Hz _].
        right. by apply list_elem_of_In.
    + rewrite IH. destruct (P x), (P y); simpl; try done.
      destruct (Z.leb_spec (key x - key y) 0); [lia|done].
Qed.

(** Sorting and filtering commute: the sort keeps the relative order of the
    elements it does not need to exchange. *)
Lemma filter_sort (P : A → bool) (l : list A) :
  List.filter P (sort compare l) = sort compare (List.filter P l).
Proof.
  induction l as [|x l IH]; simpl; [done|].
  rewrite filter_sort_insert by apply sort_sorted.
  rewrite IH. by destruct (P x).
Qed.

Lemma find_first_filter (Q : A → bool) (s : list A) :
  List.find Q s = first (List.filter Q s).
Proof.
  induction s as [|x s IH]; simpl; [done|]. by destruct (Q x).
Qed.

Lemma filter_filter_andb (P Q : A → bool) (l : list A) :
  List.filter Q (List.filter P l) = List.filter (fun x => P x && Q x) l.
Proof.
  induction l as [|x l IH]; simpl; [done|].
  destruct (P x); simpl; [destruct (Q x)|]; by rewrite IH.
Qed.

Lemma first_sort_insert x (s : list A) :
  first (sort_insert compare x s)
  = match first s with
    | None => Some x
    | Some y => if key x <=? key y then Some x else Some y
    end.
Proof.
  destruct s as [|y s]; simpl; [done|]. unfold compare.
  destruct (Z.leb_spec (key x - key y) 0), (Z.leb_spec (key x) (key y));
    done || lia.
Qed.

(** The head of the sorted selection is the leftmost element of least key
    among the selected ones. *)
Lemma first_sort_filter (R : A → bool) (l : list A) :
  match first (sort compare (List.filter R l)) with
  | None => ∀ y, y ∈ l → R y = false
  | Some x =>
      ∃ i, l !! i = Some x ∧ R x = true
        ∧ ∀ j y, l !! j = Some y → R y = true →
                 key x < key y ∨ (key x = key y ∧ (i ≤ j)%nat)
  end.
Proof.
  induction l as [|a l IH]; simpl.
  - intros y Hy. by apply elem_of_nil in Hy.
  - destruct (R a) eqn:Ra; simpl.
    + rewrite first_sort_insert.
      destruct (first (sort compare (List.filter R l))) as [h|].
      * destruct IH as (i & Hi & Rh & Hmin).
        destruct (Z.leb_spec (key a) (key h)) as [Hle|Hgt].
        -- exists 0%nat. split; [done|]. split; [done|].
           intros [|j] y Hy Ry; simpl in Hy.
           ++ injection Hy as <-. right. split; [done|lia].
           ++ destruct (Hmin j y Hy Ry) as [?|[? ?]].
              ** left. lia.
              ** destruct (decide (key a = key y)); [right; split; [done|lia]|].
                 left. lia.
        -- exists (S i). split; [done|]. split; [done|].
           intros [|j] y Hy Ry; simpl in Hy.
           ++ injection Hy as <-. left. lia.
           ++ destruct (Hmin j y Hy Ry) as [?|[? ?]]; [by left|].
              right. split; [done|lia].
      * exists 0%nat. split; [done|]. split; [done|].
        intros [|j] y Hy Ry; simpl in Hy.
        -- injection Hy as <-. right. split; [done|lia].
        -- apply list_elem_of_lookup_2 in Hy. rewrite (IH y Hy) in Ry. done.
    + destruct (first (sort compare (List.filter R l))) as [h|].
      * destruct IH as (i & Hi & Rh & Hmin).
        exists (S i). split; [done|]. split; [done|].
        intros [|j] y Hy Ry; simpl in Hy.
        -- injection Hy as <-. congruence.
        -- destruct (Hmin j y Hy Ry) as [?|[? ?]]; [by left|].
           right. split; [done|lia].
      * intros y [->|Hy]%elem_of_cons; [done|by apply IH].
Qed.

End SortFacts.

(** ** Feature selection *)

Section FeatureSelection.
Import FeatureManager.
Context `{!JSON FeatureList}.

Lemma loadFeatureList_cached m disk l m' :
  loadFeatureList m disk = (Return l, m') →
  featureList m' = Some l
  ∧ featureListPath m' = featureListPath m
  ∧ projectRoot m' = projectRoot m.
Proof.
  unfold loadFeatureList. destruct (featureList m) as [c|] eqn:Hc.
  - intros [= <- <-]. done.
  - destruct (readFileSync disk (featureListPath m)) as [content|err]; [|done].
    destruct (JSON_parse content) as [parsed|]; [|done].
    intros [= <- <-]. done.
Qed.

Lemma loadFeatureList_hit m disk l :
  featureList m = Some l → loadFeatureList m disk = (Return l, m).
Proof. unfold loadFeatureList. by intros ->. Qed.

Lemma areDependenciesMet_cached f m disk l :
  featureList m = Some l →
  areDependenciesMet f m disk = (Return (dependenciesMet l f), m).
Proof.
  intros Hm. unfold areDependenciesMet, dependenciesMet.
  destruct (dependencies f) as [[|d deps]|]; try done.
  by rewrite (loadFeatureList_hit m disk l Hm).
Qed.

Lemma firstWithDependenciesMet_cached candidates m disk l :
  featureList m = Some l →
  firstWithDependenciesMet candidates m disk
  = (Return (List.find (dependenciesMet l) candidates), m).
Proof.
  intros Hm. induction candidates as [|f more IH]; simpl; [done|].
  rewrite (areDependenciesMet_cached f m disk l Hm).
  by destruct (dependenciesMet l f).
Qed.

Lemma dependenciesPass_satisfied feats deps :
  dependenciesPass feats deps = true
  ↔ ∀ depId, depId ∈ deps → dependencySatisfied feats depId.
Proof.
  unfold dependencySatisfied. induction deps as [|d deps IH]; simpl.
  - split; [|done]. intros _ depId Hin. by apply elem_of_nil in Hin.
  - destruct (List.find _ feats) as [g|] eqn:Hfind.
    + destruct (passes g) eqn:Hg.
      * rewrite IH. split.
        -- intros Hall depId [->|Hin]%elem_of_cons; [by exists g|by apply Hall].
        -- intros Hall depId Hin. apply Hall. by right.
      * split; [done|]. intros Hall.
        destruct (Hall d) as (g' & Hg' & Hp); [by left|]. congruence.
    + split; [done|]. intros Hall.
      destruct (Hall d) as (g' & Hg' & Hp); [by left|]. congruence.
Qed.

Lemma dependenciesMet_eligible l f :
  dependenciesMet l f = true ↔ eligible (features l) f.
Proof.
  unfold dependenciesMet, eligible.
  destruct (dependencies f) as [[|d deps]|]; cbn [default].
  - split; [|done]. intros _ depId Hin. by apply elem_of_nil in Hin.
  - apply dependenciesPass_satisfied.
  - split; [|done]. intros _ depId Hin. by apply elem_of_nil in Hin.
Qed.

(** The value [getNextIncompleteFeature] returns for the loaded list. *)
Lemma getNextIncompleteFeature_value m disk l m' :
  loadFeatureList m disk = (Return l, m') →
  getNextIncompleteFeature m disk
  = (Return
       (let incomplete :=
          sort byPriority (List.filter (fun f => negb (passes f)) (features l)) in
        match List.find (dependenciesMet l) incomplete with
        | Some f => Some f
        | None => first incomplete
        end), m').
Proof.
  intros Hload. unfold getNextIncompleteFeature. rewrite Hload.
  apply loadFeatureList_cached in Hload as (Hm & _).
  case_bool_decide as Hlen.
  - apply nil_length_inv in Hlen. simpl. by rewrite Hlen.
  - rewrite (firstWithDependenciesMet_cached _ m' disk l Hm).
    by destruct (List.find _ _).
Qed.

Lemma precedes_antisym i f j g :
  precedes i f j g → precedes j g i f → i = j.
Proof. unfold precedes. lia. Qed.

(** The selection rule names at most one result. *)
Lemma nextIncomplete_unique feats r r' :
  nextIncomplete feats r → nextIncomplete feats r' → r = r'.
Proof.
  destruct r as [f|], r' as [f'|]; simpl; try done.
  - intros (i & Hi & Hp & Hsel) (i' & Hi' & Hp' & Hsel').
    assert (i = i') as <-; [|congruence].
    destruct Hsel as [[He Hmin]|[Hnone Hmin]],
             Hsel' as [[He' Hmin']|[Hnone' Hmin']].
    + apply (precedes_antisym i f i' f'); [by apply Hmin|by apply Hmin'].
    + exfalso. apply (Hnone' f); eauto using list_elem_of_lookup_2.
    + exfalso. apply (Hnone f'); eauto using list_elem_of_lookup_2.
    + apply (precedes_antisym i f i' f'); [by apply Hmin|by apply Hmin'].
  - intros (i & Hi & Hp & _) Hall.
    rewrite (Hall f) in Hp by eauto using list_elem_of_lookup_2. done.
  - intros Hall (i & Hi & Hp & _).
    rewrite (Hall f') in Hp by eauto using list_elem_of_lookup_2. done.
Qed.

(** The selection made by the code follows the rule. *)
Lemma selection_nextIncomplete l :
  nextIncomplete (features l)
    (let incomplete :=
       sort byPriority (List.filter (fun f => negb (passes f)) (features l)) in
     match List.find (dependenciesMet l) incomplete with
     | Some f => Some f
     | None => first incomplete
     end).
Proof.
  simpl. unfold byPriority.
  rewrite (find_first_filter (dependenciesMet l)).
  rewrite (filter_sort priority), filter_filter_andb.
  pose proof (first_sort_filter priority
                (fun f => negb (passes f) && dependenciesMet l f) (features l))
    as Hfirst.
  destruct (first (sort _ (List.filter (fun f => negb (passes f) && _) _)))
    as [f|].
  - destruct Hfirst as (i & Hi & [Hp He]%andb_prop & Hmin).
    exists i. split; [done|]. split; [by apply negb_true_iff|].
    left. split; [by apply dependenciesMet_eligible|].
    intros j g Hj Hg Heg. apply Hmin; [done|].
    rewrite Hg. by apply dependenciesMet_eligible.
  - pose proof (first_sort_filter priority (fun f => negb (passes f))
                  (features l)) as Hhead.
    destruct (first (sort _ (List.filter (fun f => negb (passes f)) _)))
      as [f|].
    + destruct Hhead as (i & Hi & Hp & Hmin).
      exists i. split; [done|]. split; [by apply negb_true_iff|].
      right. split.
      * intros g Hin Hg Heg. apply dependenciesMet_eligible in Heg.
        specialize (Hfirst g Hin). rewrite Hg, Heg in Hfirst. done.
      * intros j g Hj Hg. apply Hmin; [done|]. by rewrite Hg.
    + intros f Hin. specialize (Hhead f Hin). by apply negb_false_iff.
Qed.

(** C1 — for every loaded feature collection, [getNextIncompleteFeature]
    returns a value [r] (it does not throw) such that: [r] is null exactly
    when every feature passes; otherwise [r] is an incomplete feature, the
    first in ascending priority (ties by original position) among the
    incomplete features whose dependencies all exist and pass, and, when no
    incomplete feature is eligible, the first incomplete feature in that
    order.  Hence the result is non-null as soon as one feature is
    incomplete, and it is the only value the rule allows. *)
Theorem getNextIncompleteFeature_selection m disk l m' :
  loadFeatureList m disk = (Return l, m') →
  ∃ r, getNextIncompleteFeature m disk = (Return r, m')
       ∧ nextIncomplete (features l) r
       ∧ (r = None ↔ ∀ f, f ∈ features l → passes f = true)
       ∧ ((∃ f, f ∈ features l ∧ passes f = false) → r ≠ None)
       ∧ ∀ r', nextIncomplete (features l) r' → r' = r.
Proof.
  intros Hload. eexists. split; [by apply getNextIncompleteFeature_value|].
  pose proof (selection_nextIncomplete l) as Hsel. simpl in Hsel.
  simpl. remember (match List.find _ _ with Some f => Some f | None => _ end)
    as r eqn:Hr. clear Hr.
  split; [done|]. split; [|split].
  - split; [by intros ->|]. intros Hall.
    apply (nextIncomplete_unique (features l)); done.
  - intros (f & Hin & Hf) ->. simpl in Hsel. rewrite (Hsel f Hin) in Hf. done.
  - intros r' Hr'. by apply (nextIncomplete_unique (features l)).
Qed.

(** The guard of [markFeatureComplete] rejects: the call throws, nothing is
    written and the loaded list stays as it was. *)
Lemma markFeatureComplete_rejected now featureId vsteps m disk l m0 :
  loadFeatureList m disk = (Return l, m0) →
  list_find (fun f => id f = featureId) (features l) = None
  ∨ forallb passed vsteps = false →
  ∃ error, markFeatureComplete now featureId vsteps m disk
           = (Throw error, m0, disk)
    ∧ (error = "Feature not found: " ++ featureId
       ∨ error = "Cannot mark feature as complete: not all verification steps passed").
Proof.
  intros Hload Hbad. unfold markFeatureComplete. rewrite Hload.
  destruct (list_find _ (features l)) as [[i f]|].
  - destruct Hbad as [?| ->]; [done|]. simpl. eauto.
  - eauto.
Qed.

(** The guard accepts: the feature found is completed in place and the list
    is saved with a recounted [completedFeatures]. *)
Lemma markFeatureComplete_accepted now featureId vsteps m disk l m0 i f :
  loadFeatureList m disk = (Return l, m0) →
  list_find (fun f => id f = featureId) (features l) = Some (i, f) →
  forallb passed vsteps = true →
  ∃ l', markFeatureComplete now featureId vsteps m disk
        = (Return tt, set_featureList m0 l',
           <[featureListPath m := JSON_stringify l']> disk)
    ∧ features l' = <[i := complete now vsteps f]> (features l)
    ∧ completedFeatures l' = length (List.filter passes (features l'))
    ∧ totalFeatures l' = length (features l).
Proof.
  intros Hload Hfind Hall. unfold markFeatureComplete. rewrite Hload, Hfind, Hall.
  apply loadFeatureList_cached in Hload as (_ & Hpath & _).
  simpl. eexists. split; [unfold saveFeatureList, writeFileSync|].
  - rewrite Hpath. reflexivity.
  - simpl. by rewrite length_insert.
Qed.

(** C3 — for every feature id and list of verification steps, on a loaded
    collection: if the id is not found or some step reports failure,
    [markFeatureComplete] throws its error and leaves the records and the
    file as they were; if the id is found and every step reports success,
    the feature found gets [passes = true], the completion time and the
    notes ["step: PASS"] joined by line feeds, the other features stay as
    they were, and the saved list carries a [completedFeatures] equal to the
    recount of passing features. *)
Theorem markFeatureComplete_guarded now featureId vsteps m disk l m0 :
  loadFeatureList m disk = (Return l, m0) →
  (list_find (fun f => id f = featureId) (features l) = None
   ∨ forallb passed vsteps = false →
   ∃ error, markFeatureComplete now featureId vsteps m disk
            = (Throw error, m0, disk)
     ∧ (error = "Feature not found: " ++ featureId
        ∨ error = "Cannot mark feature as complete: not all verification steps passed")
     ∧ featureList m0 = Some l)
  ∧ (∀ i f,
       list_find (fun f => id f = featureId) (features l) = Some (i, f) →
       forallb passed vsteps = true →
       ∃ l' f' m' disk',
         markFeatureComplete now featureId vsteps m disk = (Return tt, m', disk')
         ∧ featureList m' = Some l'
         ∧ disk' !! featureListPath m = Some (JSON_stringify l')
         ∧ features l' !! i = Some f'
         ∧ passes f' = true
         ∧ completedAt f' = Some now
         ∧ verificationNotes f'
           = Some (String.concat LF
                     (map (fun s => step s ++ ": PASS") vsteps))
         ∧ (∀ j, j ≠ i → features l' !! j = features l !! j)
         ∧ completedFeatures l' = length (List.filter passes (features l'))).
Proof.
  intros Hload. split.
  - intros Hbad.
    destruct (markFeatureComplete_rejected now featureId vsteps m disk l m0)
      as (error & Heq & Hmsg); [done..|].
    exists error. split; [done|]. split; [done|].
    by apply loadFeatureList_cached in Hload as [? _].
  - intros i f Hfind Hall.
    destruct (markFeatureComplete_accepted now featureId vsteps m disk l m0 i f)
      as (l' & Heq & Hfeat & Hcount & _); [done..|].
    apply list_find_Some in Hfind as (Hi & _ & _).
    exists l', (complete now vsteps f), (set_featureList m0 l'),
      (<[featureListPath m := JSON_stringify l']> disk).
    split; [done|]. split; [done|]. split; [apply lookup_insert_eq|].
    split.
    { rewrite Hfeat. apply list_lookup_insert_eq. by eapply lookup_lt_Some. }
    split; [done|]. split; [done|]. split.
    { simpl. do 2 f_equal. clear -Hall.
      induction vsteps as [|s vsteps IH]; simpl in *; [done|].
      apply andb_prop in Hall as [Hs Hrest].
      unfold stepNote at 1. rewrite Hs. f_equal. by apply IH. }
    split; [|done].
    intros j Hj. rewrite Hfeat. by apply list_lookup_insert_ne.
Qed.

(** On a store whose file is missing, a manager that holds no loaded list
    cannot answer: each operation throws the error of the failed read. *)
Lemma loadFeatureList_missing m disk :
  featureList m = None →
  disk !! featureListPath m = None →
  ∃ error, loadFeatureList m disk = (Throw error, m).
Proof.
  intros Hm Hfile. unfold loadFeatureList, readFileSync. rewrite Hm, Hfile. eauto.
Qed.

(** C8, as the code has it — when the feature-list file is missing and the
    manager holds no loaded list, every operation that loads the list
    throws the read error and changes nothing: the read-only queries
    [getNextIncompleteFeature] and [getIncompleteFeatureCount] as well as the
    mutation [markFeatureComplete]. *)
Theorem missing_store_fails_every_operation now featureId vsteps m disk :
  featureList m = None →
  disk !! featureListPath m = None →
  ∃ error,
    getNextIncompleteFeature m disk = (Throw error, m)
    ∧ getIncompleteFeatureCount m disk = (Throw error, m)
    ∧ markFeatureComplete now featureId vsteps m disk = (Throw error, m, disk).
Proof.
  intros Hm Hfile.
  destruct (loadFeatureList_missing m disk Hm Hfile) as (error & Hload).
  exists error.
  unfold getNextIncompleteFeature, getIncompleteFeatureCount, markFeatureComplete.
  by rewrite Hload.
Qed.

End FeatureSelection.

Lemma getNextIncompleteFeature_selection_witness :
  ∃ r, (FeatureManager.getNextIncompleteFeature (JSON0 := Samples.featureCodec)
          (FeatureManager.new "/p") Samples.projectDisk).1 = Return r
       ∧ nextIncomplete (FeatureManager.features Samples.scenarioA) r.
Proof.
  destruct (getNextIncompleteFeature_selection (JSON0 := Samples.featureCodec)
              (FeatureManager.new "/p") Samples.projectDisk Samples.scenarioA
              (FeatureManager.set_featureList (FeatureManager.new "/p")
                 Samples.scenarioA))
    as (r & Hr & Hsel & _).
  - vm_compute. reflexivity.
  - exists r. rewrite Hr. exact (conj eq_refl Hsel).
Defined.

(** Scenario A: F2 has the lower priority number but waits for F1. *)
Example scenario_A_selects_F1 :
  (FeatureManager.getNextIncompleteFeature (JSON0 := Samples.featureCodec)
     (FeatureManager.new "/p") Samples.projectDisk).1
  = Return (Some (Samples.feature "F1" 10 None false)).
Proof. vm_compute. reflexivity. Qed.

(** Scenario B: the only feature depends on a feature that does not exist. *)
Example scenario_B_falls_back :
  (FeatureManager.getNextIncompleteFeature (JSON0 := Samples.featureCodec)
     (FeatureManager.set_featureList (FeatureManager.new "/p")
        (Samples.featureListOf [Samples.feature "F1" 5 (Some ["F2"]) false]))
     Samples.projectDisk).1
  = Return (Some (Samples.feature "F1" 5 (Some ["F2"]) false)).
Proof. vm_compute. reflexivity. Qed.

Lemma markFeatureComplete_guarded_witness :
  ∃ error,
    FeatureManager.markFeatureComplete (JSON0 := Samples.featureCodec)
      "2025-01-02T00:00:00.000Z" "F1"
      [{| FeatureManager.step := "open the page";
          FeatureManager.passed := false;
          FeatureManager.evidence := None |}]
      (FeatureManager.new "/p") Samples.projectDisk
    = (Throw error,
       FeatureManager.set_featureList (FeatureManager.new "/p") Samples.scenarioA,
       Samples.projectDisk).
Proof.
  destruct (markFeatureComplete_guarded (JSON0 := Samples.featureCodec)
              "2025-01-02T00:00:00.000Z" "F1"
              [{| FeatureManager.step := "open the page";
                  FeatureManager.passed := false;
                  FeatureManager.evidence := None |}]
              (FeatureManager.new "/p") Samples.projectDisk Samples.scenarioA
              (FeatureManager.set_featureList (FeatureManager.new "/p")
                 Samples.scenarioA)) as [Hreject _].
  - vm_compute. reflexivity.
  - destruct Hreject as (error & Heq & _); [right; reflexivity|].
    exists error. exact Heq.
Defined.

(** C8, as stated, fails: on a missing store the count query does not
    answer zero and the selection query does not answer null. *)
Lemma missing_store_queries_do_not_degrade :
  ¬ ((FeatureManager.getIncompleteFeatureCount (JSON0 := Samples.featureCodec)
        (FeatureManager.new "/p") ∅).1 = Return 0%nat
     ∧ (FeatureManager.getNextIncompleteFeature (JSON0 := Samples.featureCodec)
          (FeatureManager.new "/p") ∅).1 = Return None).
Proof. vm_compute. intros [H _]. discriminate H. Qed.

Lemma missing_store_fails_every_operation_witness :
  ∃ error,
    FeatureManager.getIncompleteFeatureCount (JSON0 := Samples.featureCodec)
      (FeatureManager.new "/p") ∅
    = (Throw error, FeatureManager.new "/p").
Proof.
  destruct (missing_store_fails_every_operation (JSON0 := Samples.featureCodec)
              "2025-01-02T00:00:00.000Z" "F1" []
              (FeatureManager.new "/p") ∅) as (error & _ & Hcount & _).
  - reflexivity.
  - reflexivity.
  - exists error. exact Hcount.
Defined.

(** ** The test ledger *)

Section TestLedger.
Import TestManager.
Context `{!JSON TestSuite}.

Lemma existsSync_lookup (disk : Disk) path :
  existsSync disk path = true ↔ is_Some (disk !! path).
Proof. unfold existsSync. apply bool_decide_eq_true. Qed.

Lemma existsSync_None (disk : Disk) path :
  disk !! path = None → existsSync disk path = false.
Proof.
  intros Hnone. unfold existsSync. apply bool_decide_eq_false.
  rewrite Hnone. by intros [? ?].
Qed.

Lemma existsSync_Some (disk : Disk) path content :
  disk !! path = Some content → existsSync disk path = true.
Proof. intros Hsome. apply existsSync_lookup. eauto. Qed.

Lemma loadSuite_present now m disk text suite :
  disk !! testsFilePath m = Some text →
  JSON_parse text = Some suite →
  loadSuite now m disk = (suite, disk).
Proof.
  intros Hfile Hparse. unfold loadSuite, readFileSync.
  rewrite (existsSync_Some _ _ _ Hfile), Hfile. simpl. by rewrite Hparse.
Qed.

(** What [initialize] leaves on disk. *)
Lemma initialize_disk now m disk :
  initialize now m disk
  = (emptySuite now,
     <[testsFilePath m := JSON_stringify (emptySuite now)]>
       (delete (testsFilePath m ++ ".tmp") disk)).
Proof.
  unfold initialize, saveSuite, renameSync, writeFileSync. simpl.
  rewrite lookup_insert_eq. by rewrite delete_insert_eq.
Qed.

Lemma loadSuite_unusable now m disk :
  ledgerUnusable m disk → loadSuite now m disk = initialize now m disk.
Proof.
  unfold ledgerUnusable, loadSuite, readFileSync.
  destruct (disk !! testsFilePath m) as [text|] eqn:Hfile.
  - intros ->. by rewrite (existsSync_Some _ _ _ Hfile).
  - intros _. by rewrite (existsSync_None _ _ Hfile).
Qed.

(** [loadSuite] either reads the suite and leaves the disk alone, or
    initializes the ledger. *)
Lemma loadSuite_cases now m disk :
  (∃ suite, loadSuite now m disk = (suite, disk))
  ∨ loadSuite now m disk = initialize now m disk.
Proof.
  unfold loadSuite. destruct (existsSync disk (testsFilePath m)); simpl; [|by right].
  destruct (readFileSync disk (testsFilePath m)) as [content|]; [|by right].
  destruct (JSON_parse content) as [suite|]; [left; eauto|by right].
Qed.

(** The decision of [markTestPassing] once the test is found. *)
Lemma markTestPassing_found now testId ev m disk text suite i test :
  disk !! testsFilePath m = Some text →
  JSON_parse text = Some suite →
  list_find (fun t => id t = testId) (tests suite) = Some (i, test) →
  markTestPassing now testId ev m disk
  = if evidenceStands disk ev
    then (Return true,
          (saveSuite now
             (with_tests suite (<[i := pass now ev test]> (tests suite)))
             m disk).2)
    else (Return false, disk).
Proof.
  intros Hfile Hparse Hfind. unfold markTestPassing, evidenceStands.
  rewrite (loadSuite_present now m disk text suite Hfile Hparse), Hfind.
  destruct (existsSync disk (evidence_screenshot_path ev)); simpl; [|done].
  unfold readFileSync, failureMarker.
  destruct (disk !! evidence_console_log_path ev) as [content|] eqn:Hlog.
  - rewrite (existsSync_Some _ _ _ Hlog). simpl.
    destruct (includes content "ERROR" || includes content "FAIL"); simpl; done.
  - by rewrite (existsSync_None _ _ Hlog).
Qed.

Lemma markTestPassing_true_only_with_evidence now testId ev m disk disk' :
  markTestPassing now testId ev m disk = (Return true, disk') →
  evidenceStands disk ev = true.
Proof.
  unfold markTestPassing.
  destruct (loadSuite_cases now m disk) as [[suite ->]| ->].
  - destruct (list_find _ (tests suite)) as [[i test]|]; [|done].
    unfold evidenceStands, readFileSync, failureMarker.
    destruct (existsSync disk (evidence_screenshot_path ev)); simpl; [|done].
    destruct (disk !! evidence_console_log_path ev) as [content|] eqn:Hlog.
    + rewrite (existsSync_Some _ _ _ Hlog). simpl.
      by destruct (includes content "ERROR" || includes content "FAIL").
    + by rewrite (existsSync_None _ _ Hlog).
  - by rewrite initialize_disk.
Qed.

(** C2 — [markTestPassing] answers [true] only when the screenshot path
    exists, the console-log path exists and the log holds neither [ERROR]
    nor [FAIL].  For every test case of the ledger and every evidence record
    for which one of these conditions fails, the call returns [false] and
    the disk, hence the stored record with its [passes] flag and verification
    fields, is left as it was, whatever the caller supplies; when the
    conditions hold the stored record gets [passes = true] and the evidence
    fields. *)
Theorem markTestPassing_evidence_gated now testId ev m disk text suite i test :
  disk !! testsFilePath m = Some text →
  JSON_parse text = Some suite →
  list_find (fun t => id t = testId) (tests suite) = Some (i, test) →
  (∀ disk', markTestPassing now testId ev m disk = (Return true, disk') →
            existsSync disk (evidence_screenshot_path ev) = true
            ∧ ∃ content, disk !! evidence_console_log_path ev = Some content
                         ∧ includes content "ERROR" = false
                         ∧ includes content "FAIL" = false)
  ∧ (existsSync disk (evidence_screenshot_path ev) = false
     ∨ existsSync disk (evidence_console_log_path ev) = false
     ∨ (∃ content, disk !! evidence_console_log_path ev = Some content
                   ∧ failureMarker content = true) →
     markTestPassing now testId ev m disk = (Return false, disk))
  ∧ (evidenceStands disk ev = true →
     ∃ disk' suite',
       markTestPassing now testId ev m disk = (Return true, disk')
       ∧ disk' !! testsFilePath m = Some (JSON_stringify suite')
       ∧ tests suite' = <[i := pass now ev test]> (tests suite)
       ∧ passed_tests suite' = length (List.filter passes (tests suite'))).
Proof.
  intros Hfile Hparse Hfind.
  pose proof (markTestPassing_found now testId ev m disk text suite i test
                Hfile Hparse Hfind) as Hrun.
  split; [|split].
  - intros disk' Htrue.
    apply markTestPassing_true_only_with_evidence in Htrue.
    unfold evidenceStands in Htrue. apply andb_prop in Htrue as [Hshot Hlog].
    split; [done|].
    destruct (disk !! evidence_console_log_path ev) as [content|]; [|done].
    exists content. split; [done|].
    apply negb_true_iff, orb_false_elim in Hlog. done.
  - intros Hbad. rewrite Hrun.
    assert (evidenceStands disk ev = false) as ->; [|done].
    unfold evidenceStands. destruct Hbad as [->|[Hlog|(content & -> & ->)]].
    + done.
    + apply andb_false_intro2.
      destruct (disk !! evidence_console_log_path ev) as [content|] eqn:E; [|done].
      by rewrite (existsSync_Some _ _ _ E) in Hlog.
    + by apply andb_false_intro2.
  - intros Hok. rewrite Hrun, Hok.
    eexists _, _. split; [done|].
    unfold saveSuite, renameSync, writeFileSync. simpl.
    rewrite lookup_insert_eq. split; [apply lookup_insert_eq|]. done.
Qed.

(** C10 — [loadSuite] writes when it cannot read: if [tests.json] is absent
    or is not JSON, [loadSuite] returns the suite of [initialize] (version
    1.0.0, no tests) and leaves its text in [tests.json]; so do the
    read-only queries [getTest], [getFailingTests], [getNextTest] and
    [getProgressSummary], each answering for the empty suite. *)
Theorem loadSuite_writes_on_unusable_ledger now testId m disk :
  ledgerUnusable m disk →
  let written := <[testsFilePath m := JSON_stringify (emptySuite now)]>
                   (delete (testsFilePath m ++ ".tmp") disk) in
  loadSuite now m disk = (emptySuite now, written)
  ∧ written !! testsFilePath m = Some (JSON_stringify (emptySuite now))
  ∧ getTest now testId m disk = (None, written)
  ∧ getFailingTests now m disk = ([], written)
  ∧ getNextTest now m disk = (None, written)
  ∧ (getProgressSummary now m disk).2 = written
  ∧ summary_total (getProgressSummary now m disk).1 = 0%nat.
Proof.
  intros Hbad written.
  pose proof (loadSuite_unusable now m disk Hbad) as Hload.
  rewrite initialize_disk in Hload. fold written in Hload.
  unfold getTest, getFailingTests, getNextTest, getProgressSummary.
  rewrite Hload. split; [done|]. split; [apply lookup_insert_eq|]. done.
Qed.

End TestLedger.

Lemma markTestPassing_evidence_gated_witness :
  TestManager.markTestPassing (JSON0 := Samples.ledgerCodec)
    "2025-01-02T00:00:00.000Z" "T1" Samples.evidenceC
    (TestManager.new "/p") Samples.scenarioC
  = (Return false, Samples.scenarioC).
Proof.
  destruct (markTestPassing_evidence_gated (JSON0 := Samples.ledgerCodec)
              "2025-01-02T00:00:00.000Z" "T1" Samples.evidenceC
              (TestManager.new "/p") Samples.scenarioC "ledger" Samples.ledger
              0%nat (Samples.test "T1")) as (_ & Hreject & _).
  - reflexivity.
  - reflexivity.
  - reflexivity.
  - apply Hreject. left. reflexivity.
Defined.

Lemma loadSuite_writes_on_unusable_ledger_witness :
  (TestManager.getFailingTests (JSON0 := Samples.ledgerCodec)
     "2025-01-02T00:00:00.000Z" (TestManager.new "/p") ∅).2
    !! "/p/tests.json"
  = Some "ledger".
Proof.
  destruct (loadSuite_writes_on_unusable_ledger (JSON0 := Samples.ledgerCodec)
              "2025-01-02T00:00:00.000Z" "T1" (TestManager.new "/p") ∅)
    as (_ & Hfile & _ & Hquery & _).
  - exact I.
  - rewrite Hquery. exact Hfile.
Defined.

(** ** The agent state file *)

Section AgentState.
Import StateManager.
Context `{!JSON JsonValue}.
Local Arguments VALID_STATES_has : simpl never.
Local Arguments truthy : simpl never.

Lemma field_set_field_eq key value fields :
  field key (set_field key value fields) = Some value.
Proof.
  induction fields as [|[k v] rest IH]; simpl.
  - by rewrite String.eqb_refl.
  - destruct (String.eqb k key) eqn:E; simpl; by rewrite E.
Qed.

Lemma field_set_field_ne key key' value fields :
  key ≠ key' → field key' (set_field key value fields) = field key' fields.
Proof.
  intros Hne. induction fields as [|[k v] rest IH]; simpl.
  - destruct (String.eqb key key') eqn:E; [|done].
    by apply String.eqb_eq in E.
  - destruct (String.eqb k key) eqn:E; simpl; [|by rewrite IH].
    apply String.eqb_eq in E as ->.
    destruct (String.eqb key key') eqn:E'; [|done].
    by apply String.eqb_eq in E'.
Qed.

Lemma VALID_STATES_has_valid v :
  VALID_STATES_has v = true ↔ validState v.
Proof.
  unfold validState. split.
  - destruct v as [[| | |name| |]|]; unfold VALID_STATES_has; try done.
    intros Hin%bool_decide_eq_true. eauto.
  - intros (name & -> & Hin). unfold VALID_STATES_has.
    by apply bool_decide_eq_true.
Qed.

Lemma coerced_valid v : validState (Some (coerced v)).
Proof.
  unfold coerced. destruct (VALID_STATES_has (Some v)) eqn:E.
  - by apply VALID_STATES_has_valid.
  - exists "pause". split; [done|]. unfold VALID_STATES. set_solver.
Qed.

Lemma pauseState_valid now note :
  validState (field "desired_state"
                (match pauseState now note with JObj fs => fs | _ => [] end))
  ∧ validState (field "current_state"
                  (match pauseState now note with JObj fs => fs | _ => [] end)).
Proof.
  split; exists "pause"; (split; [done|]); unfold VALID_STATES; set_solver.
Qed.

(** The file is absent or is not JSON: the default record. *)
Lemma readState_unusable now m disk :
  stateFileUnusable m disk → ∃ note, readState now m disk = Return (pauseState now note).
Proof.
  unfold stateFileUnusable, readState, readState_try, readFileSync.
  destruct (disk !! stateFilePath m) as [text|] eqn:Hfile.
  - intros ->. rewrite (existsSync_Some _ _ _ Hfile). simpl. eauto.
  - intros _. rewrite (existsSync_None _ _ Hfile). simpl. eauto.
Qed.

(** The file holds both required fields: each is kept when it is a state
    name and becomes [pause] otherwise; the other fields are kept. *)
Lemma readState_coerces now m disk fields desired current :
  stateFileHolds m disk fields desired current →
  ∃ fields', readState now m disk = Return (JObj fields')
    ∧ field "desired_state" fields' = Some (coerced desired)
    ∧ field "current_state" fields' = Some (coerced current)
    ∧ ∀ key, key ≠ "desired_state" → key ≠ "current_state" →
             field key fields' = field key fields.
Proof.
  intros ((text & Hfile & Hparse) & Hd & Hc & Td & Tc).
  unfold readState, readState_try, readFileSync.
  rewrite (existsSync_Some _ _ _ Hfile), Hfile. simpl. rewrite Hparse. simpl.
  rewrite Hd, Td. simpl. rewrite Hc, Tc. simpl.
  unfold coerced.
  destruct (VALID_STATES_has (Some desired)) eqn:Vd,
           (VALID_STATES_has (Some current)) eqn:Vc; simpl;
    eexists; (split; [reflexivity|]).
  - done.
  - split; [by rewrite field_set_field_ne|].
    split; [by rewrite field_set_field_eq|].
    intros key _ Hkey. by rewrite field_set_field_ne.
  - split; [by rewrite field_set_field_eq|].
    split; [by rewrite field_set_field_ne|].
    intros key Hkey _. by rewrite field_set_field_ne.
  - split; [by rewrite field_set_field_ne, field_set_field_eq|].
    split; [by rewrite field_set_field_eq|].
    intros key Hkey Hkey'. by rewrite !field_set_field_ne.
Qed.

(** [readState] always returns, and what it returns is either the default
    record or the stored object with its two state fields coerced. *)
Lemma readState_cases now m disk :
  (∃ note, readState now m disk = Return (pauseState now note))
  ∨ (∃ fields desired current, stateFileHolds m disk fields desired current).
Proof.
  unfold stateFileHolds, readState, readState_try, readFileSync.
  destruct (disk !! stateFilePath m) as [text|] eqn:Hfile.
  2:{ rewrite (existsSync_None _ _ Hfile). simpl. eauto. }
  rewrite (existsSync_Some _ _ _ Hfile). simpl.
  destruct (JSON_parse text) as [state|] eqn:Hparse; [|eauto].
  destruct state as [| b | n | s | items | fields]; simpl; eauto.
  destruct (field "desired_state" fields) as [desired|] eqn:Hd; simpl; [|eauto].
  destruct (truthy (Some desired)) eqn:Td; simpl; [|eauto].
  destruct (field "current_state" fields) as [current|] eqn:Hc; simpl; [|eauto].
  destruct (truthy (Some current)) eqn:Tc; simpl; [|eauto].
  right. exists fields, desired, current. eauto 10.
Qed.



End AgentState.



(** ** The human backlog *)

Section HumanBacklog.
Import BacklogManager.
Context `{!JSON (list BacklogItem)}.

Lemma find_filter {A} (P Q : A → bool) (l : list A) :
  List.find Q (List.filter P l) = List.find (fun x => P x && Q x) l.
Proof.
  induction l as [|x l IH]; simpl; [done|].
  destruct (P x); simpl; [destruct (Q x)|]; done.
Qed.

Lemma find_firstSuch rule backlog :
  match List.find rule backlog with
  | Some x => firstSuch rule backlog x
  | None => noneSuch rule backlog
  end.
Proof.
  induction backlog as [|a backlog IH]; simpl.
  - intros y Hy. by apply elem_of_nil in Hy.
  - destruct (rule a) eqn:Ra.
    + exists 0%nat. split; [done|]. split; [done|]. intros j y _ Hj. lia.
    + destruct (List.find rule backlog) as [x|].
      * destruct IH as (i & Hi & Rx & Hbefore).
        exists (S i). split; [done|]. split; [done|].
        intros [|j] y Hy Hj; simpl in Hy; [congruence|].
        apply (Hbefore j); [done|lia].
      * intros y [->|Hy]%elem_of_cons; [done|by apply IH].
Qed.

Lemma scanPriorities_first matches order incomplete :
  match scanPriorities matches order incomplete with
  | Some x =>
      ∃ k p, order !! k = Some p
             ∧ List.find (matches p) incomplete = Some x
             ∧ ∀ k' q, (k' < k)%nat → order !! k' = Some q →
                       List.find (matches q) incomplete = None
  | None => ∀ q, q ∈ order → List.find (matches q) incomplete = None
  end.
Proof.
  induction order as [|p order IH]; simpl.
  - intros q Hq. by apply elem_of_nil in Hq.
  - destruct (List.find (matches p) incomplete) as [x|] eqn:Hfind.
    + exists 0%nat, p. split; [done|]. split; [done|]. intros k' q Hk'. lia.
    + destruct (scanPriorities matches order incomplete) as [x|].
      * destruct IH as (k & p' & Hk & Hfound & Hbefore).
        exists (S k), p'. split; [done|]. split; [done|].
        intros [|k'] q Hk' Hq; simpl in Hq; [congruence|].
        apply (Hbefore k'); [lia|done].
      * intros q [->|Hq]%elem_of_cons; [done|by apply IH].
Qed.

(** A scan over the incomplete items, read on the whole backlog. *)
Lemma scanPriorities_rule (matches rule : string → BacklogItem → bool) backlog :
  (∀ p x, rule p x = pending x && matches p x) →
  match scanPriorities matches priorityOrder
          (List.filter (fun item => negb (completed item)) backlog) with
  | Some x => firstByPriority rule backlog x
  | None => noPriorityMatch rule backlog
  end.
Proof.
  intros Hrule.
  assert (∀ p, List.find (matches p)
                 (List.filter (fun item => negb (completed item)) backlog)
               = List.find (rule p) backlog) as Hfind.
  { intros p. rewrite find_filter. clear -Hrule.
    induction backlog as [|x l IH]; simpl; [done|].
    rewrite Hrule. unfold pending. by rewrite IH. }
  pose proof (scanPriorities_first matches priorityOrder
                (List.filter (fun item => negb (completed item)) backlog))
    as Hscan.
  destruct (scanPriorities _ _ _) as [x|].
  - destruct Hscan as (k & p & Hk & Hfound & Hbefore).
    exists k, p. split; [done|]. split.
    + rewrite Hfind in Hfound.
      pose proof (find_firstSuch (rule p) backlog) as H0.
      by rewrite Hfound in H0.
    + intros k' q Hk' Hq. specialize (Hbefore k' q Hk' Hq).
      rewrite Hfind in Hbefore.
      pose proof (find_firstSuch (rule q) backlog) as H0.
      by rewrite Hbefore in H0.
  - intros q Hq. specialize (Hscan q Hq). rewrite Hfind in Hscan.
    pose proof (find_firstSuch (rule q) backlog) as H0.
    by rewrite Hscan in H0.
Qed.

(** The cascade of [getNextItem] over the backlog it loads, in terms of the
    scans of the code. *)
Lemma getNextItem_scans m disk :
  let backlog := loadBacklog m disk in
  scanOutcome backlog (getNextItem m disk)
  ∧ (getNextItem m disk = None ↔ ∀ item, item ∈ backlog → completed item = true)
  ∧ ((∃ item, item ∈ backlog ∧ completed item = false) →
     getNextItem m disk ≠ None).
Proof.
  intros backlog.
  assert (noneSuch pending backlog ↔ ∀ item, item ∈ backlog → completed item = true)
    as Hpending.
  { unfold noneSuch, pending. split; intros Hall y Hy;
      specialize (Hall y Hy); by destruct (completed y). }
  assert (scanOutcome backlog (getNextItem m disk)) as Hnext.
  { unfold getNextItem. fold backlog.
    pose proof (find_firstSuch pending backlog) as Hfirst.
    rewrite (find_first_filter pending backlog) in Hfirst.
    change (List.filter pending backlog)
      with (List.filter (fun item => negb (completed item)) backlog) in Hfirst.
    case_bool_decide as Hlen.
    { apply nil_length_inv in Hlen. rewrite Hlen in Hfirst. exact Hfirst. }
    pose proof (find_firstSuch resumable backlog) as Hresume.
    assert (List.find (fun item => String.eqb (status item) "in_progress")
              (List.filter (fun item => negb (completed item)) backlog)
            = List.find resumable backlog) as ->.
    { by rewrite find_filter. }
    destruct (List.find resumable backlog) as [x|]; [by left|].
    pose proof (scanPriorities_rule
                  (fun p i => String.eqb (priority i) p
                              && String.eqb (status i) "backlog")
                  queued backlog (fun p x => eq_refl)) as Hqueued.
    destruct (scanPriorities _ _ _) as [x|]; [right; left; done|].
    pose proof (scanPriorities_rule
                  (fun p i => String.eqb (priority i) p)
                  ranked backlog (fun p x => eq_refl)) as Hranked.
    destruct (scanPriorities _ _ _) as [x|]; [right; right; left; done|].
    destruct (first _) as [x|] eqn:Hx.
    - right; right; right. done.
    - destruct (List.filter _ backlog); [done|discriminate Hx]. }
  split; [done|]. split; [|intros (item & Hin & Hitem) Hnone].
  - rewrite <- Hpending. split; [intros Hnone; by rewrite Hnone in Hnext|].
    intros Hall. destruct (getNextItem m disk) as [x|]; [|done].
    exfalso. simpl in Hnext.
    assert (∀ rule, (∀ y, rule y = true → pending y = true) →
                    firstSuch rule backlog x → False) as Hno.
    { intros rule Hrule (i & Hi & Rx & _).
      apply Hrule in Rx. rewrite (Hall x) in Rx; [done|].
      by eapply list_elem_of_lookup_2. }
    destruct Hnext as [H1|[[_ H2]|[(_ & _ & H3)|(_ & _ & _ & H4)]]].
    + apply (Hno resumable); [|done]. by intros y [? _]%andb_prop.
    + destruct H2 as (k & p & _ & H2 & _).
      apply (Hno (queued p)); [|done]. by intros y [? _]%andb_prop.
    + destruct H3 as (k & p & _ & H3 & _).
      apply (Hno (ranked p)); [|done]. by intros y [? _]%andb_prop.
    + by apply (Hno pending).
  - rewrite Hnone in Hnext. simpl in Hnext.
    specialize (Hnext item Hin). unfold pending in Hnext.
    rewrite Hitem in Hnext. done.
Qed.

(** The list the code scans gives each of the four priorities its rank. *)
Lemma priorityOrder_urgency k p :
  priorityOrder !! k = Some p ↔ urgency p = Some k.
Proof.
  unfold priorityOrder, urgency. split.
  - destruct k as [|[|[|[|k]]]]; simpl; intros Hk; try done;
      by injection Hk as <-.
  - destruct (String.eqb_spec p "critical") as [->|_]; [by intros [= <-]|].
    destruct (String.eqb_spec p "high") as [->|_]; [by intros [= <-]|].
    destruct (String.eqb_spec p "medium") as [->|_]; [by intros [= <-]|].
    destruct (String.eqb_spec p "low") as [->|_]; [by intros [= <-]|].
    done.
Qed.

Lemma firstByPriority_foundByScan (rule : string → BacklogItem → bool)
    (base : BacklogItem → bool) backlog x :
  (∀ p y, rule p y = base y && String.eqb (priority y) p) →
  firstByPriority rule backlog x → foundByScan base backlog x.
Proof.
  intros Hrule (k & p & Hk & (i & Hi & Rx & Hbefore) & Hnone).
  rewrite Hrule in Rx. apply andb_prop in Rx as [Bx Px].
  apply String.eqb_eq in Px.
  exists i, k. split; [done|]. split; [done|].
  split; [rewrite Px; by apply priorityOrder_urgency|].
  intros j y k' Hj By Hu. apply priorityOrder_urgency in Hu.
  destruct (lt_eq_lt_dec k' k) as [[Hlt|Heq]|Hgt]; [| |left; lia].
  - exfalso. apply list_elem_of_lookup_2 in Hj.
    specialize (Hnone k' (priority y) Hlt Hu y Hj).
    by rewrite Hrule, By, String.eqb_refl in Hnone.
  - right. subst k'. split; [done|].
    assert (priority y = p) as Hp by congruence.
    destruct (decide (i ≤ j)%nat) as [|Hji]; [done|]. exfalso.
    assert (j < i)%nat as Hlt by lia.
    specialize (Hbefore j y Hj Hlt).
    by rewrite Hrule, By, Hp, String.eqb_refl in Hbefore.
Qed.

Lemma noPriorityMatch_scanFindsNone (rule : string → BacklogItem → bool)
    (base : BacklogItem → bool) backlog :
  (∀ p y, rule p y = base y && String.eqb (priority y) p) →
  noPriorityMatch rule backlog → scanFindsNone base backlog.
Proof.
  intros Hrule Hnone y Hin By.
  destruct (urgency (priority y)) as [k|] eqn:Hu; [|done]. exfalso.
  apply priorityOrder_urgency, list_elem_of_lookup_2 in Hu.
  specialize (Hnone _ Hu y Hin).
  by rewrite Hrule, By, String.eqb_refl in Hnone.
Qed.

Lemma scanOutcome_precedence backlog r :
  scanOutcome backlog r → precedence backlog r.
Proof.
  assert (∀ p y, queued p y = waiting y && String.eqb (priority y) p) as Hq.
  { intros p y. unfold queued, waiting.
    by destruct (pending y), (String.eqb (priority y) p),
                (String.eqb (status y) "backlog"). }
  assert (∀ p y, ranked p y = pending y && String.eqb (priority y) p) as Hr
    by done.
  destruct r as [x|]; simpl; [|done].
  intros [H1|[[H0 H2]|[(H0 & Hn2 & H3)|(H0 & Hn2 & Hn3 & H4)]]].
  - by left.
  - right; left. split; [done|].
    by apply (firstByPriority_foundByScan queued).
  - right; right; left. split; [done|]. split.
    + by apply (noPriorityMatch_scanFindsNone queued).
    + by apply (firstByPriority_foundByScan ranked).
  - right; right; right. split; [done|]. split.
    + by apply (noPriorityMatch_scanFindsNone queued).
    + split; [|done]. by apply (noPriorityMatch_scanFindsNone ranked).
Qed.

Lemma loadBacklog_file m disk text backlog :
  disk !! backlogFilePath m = Some text →
  JSON_parse text = Some backlog →
  loadBacklog m disk = backlog.
Proof.
  intros Hfile Hparse. unfold loadBacklog, existsSync, readFileSync.
  rewrite Hfile, bool_decide_eq_true_2 by eauto. simpl. by rewrite Hparse.
Qed.

(** C7 — for every backlog the file holds, [getNextItem] follows the
    four-step precedence over incomplete items: the first in-progress item
    in file order; else, among the items of status [backlog], the one whose
    priority comes first in the order critical, high, medium, low, the first
    in file order of that priority; else the same among all incomplete
    items, whatever their status; else (no incomplete item has one of the
    four priorities) the first incomplete item in file order.  It returns
    null exactly when no item is incomplete. *)
Theorem getNextItem_precedence m disk text backlog :
  disk !! backlogFilePath m = Some text →
  JSON_parse text = Some backlog →
  precedence backlog (getNextItem m disk)
  ∧ (getNextItem m disk = None ↔ ∀ item, item ∈ backlog → completed item = true)
  ∧ ((∃ item, item ∈ backlog ∧ completed item = false) →
     getNextItem m disk ≠ None).
Proof.
  intros Hfile Hparse.
  pose proof (getNextItem_scans m disk) as Hscans. cbv zeta in Hscans.
  rewrite (loadBacklog_file m disk text backlog Hfile Hparse) in Hscans.
  destruct Hscans as (Hnext & Hnull & Hsome).
  split; [by apply scanOutcome_precedence|]. by split.
Qed.

(** Outside the reopening of a done item the operations keep the invariant:
    what each of them saves satisfies it as soon as the backlog read did. *)
Lemma invariant_kept_unless_leaving_done now m disk :
  Forall completedIffDone (loadBacklog m disk) →
  (∀ newId kind prio text more issue,
     ∃ saved, (addItem now newId kind prio text more issue m disk).2
              = saveBacklog saved m disk
              ∧ Forall completedIffDone saved)
  ∧ (∀ itemId newStatus k item,
       list_find (fun i => id i = itemId) (loadBacklog m disk) = Some (k, item) →
       status item ≠ "done" ∨ newStatus = "done" →
       ∃ saved, updateStatus now itemId newStatus m disk
                = (true, saveBacklog saved m disk)
                ∧ Forall completedIffDone saved)
  ∧ (∀ itemId reason k item,
       list_find (fun i => id i = itemId) (loadBacklog m disk) = Some (k, item) →
       status item ≠ "done" →
       ∃ saved, markBlocked now itemId reason m disk
                = (true, saveBacklog saved m disk)
                ∧ Forall completedIffDone saved)
  ∧ (∀ itemId who words k item,
       list_find (fun i => id i = itemId) (loadBacklog m disk) = Some (k, item) →
       ∃ saved, addComment now itemId who words m disk
                = (true, saveBacklog saved m disk)
                ∧ Forall completedIffDone saved).
Proof.
  intros Hinv.
  assert (∀ itemId k item,
            list_find (fun i => id i = itemId) (loadBacklog m disk) = Some (k, item) →
            completedIffDone item) as Hitem.
  { intros itemId k item (Hk & _ & _)%list_find_Some.
    rewrite Forall_forall in Hinv. apply Hinv. by eapply list_elem_of_lookup_2. }
  split; [|split; [|split]].
  - intros newId kind prio text more issue. eexists. split; [reflexivity|].
    apply Forall_app. split; [done|]. constructor; [|constructor].
    unfold completedIffDone. simpl. split; discriminate.
  - intros itemId newStatus k item Hfind Hcase.
    unfold updateStatus. rewrite Hfind.
    eexists. split; [reflexivity|]. apply Forall_insert; [done|].
    specialize (Hitem itemId k item Hfind). unfold completedIffDone in *.
    destruct (String.eqb newStatus "done") eqn:E; simpl.
    + apply String.eqb_eq in E. done.
    + apply String.eqb_neq in E. destruct Hcase as [Hopen|?]; [|done].
      split; [|done]. intros Hc. by apply Hitem in Hc.
  - intros itemId reason k item Hfind Hopen.
    unfold markBlocked. rewrite Hfind.
    eexists. split; [reflexivity|]. apply Forall_insert; [done|].
    specialize (Hitem itemId k item Hfind). unfold completedIffDone in *.
    simpl. split; [|discriminate]. intros Hc. by apply Hitem in Hc.
  - intros itemId who words k item Hfind.
    unfold addComment. rewrite Hfind.
    eexists. split; [reflexivity|]. apply Forall_insert; [done|].
    by specialize (Hitem itemId k item Hfind).
Qed.

(** C9, at the failing input — an item that is done and completed, given a
    status other than [done] by [updateStatus] (hence by [markInProgress])
    or by [markBlocked], is saved with the new status and with
    [completed = true]: the invariant no longer holds for it. *)
Theorem leaving_done_keeps_completed now newStatus reason m disk text item rest :
  disk !! backlogFilePath m = Some text →
  JSON_parse text = Some (item :: rest) →
  status item = "done" →
  completed item = true →
  newStatus ≠ "done" →
  (∃ item' disk',
     updateStatus now (id item) newStatus m disk = (true, disk')
     ∧ disk' !! backlogFilePath m = Some (JSON_stringify (item' :: rest))
     ∧ status item' = newStatus ∧ completed item' = true
     ∧ ¬ completedIffDone item')
  ∧ (∃ item' disk',
       markBlocked now (id item) reason m disk = (true, disk')
       ∧ disk' !! backlogFilePath m = Some (JSON_stringify (item' :: rest))
       ∧ status item' = "blocked" ∧ completed item' = true
       ∧ ¬ completedIffDone item').
Proof.
  intros Hfile Hparse Hdone Hcompleted Hnew.
  assert (loadBacklog m disk = item :: rest) as Hload.
  { unfold loadBacklog, readFileSync.
    rewrite (existsSync_Some _ _ _ Hfile), Hfile. simpl. by rewrite Hparse. }
  assert (list_find (fun i => id i = id item) (item :: rest) = Some (0%nat, item))
    as Hfind.
  { apply list_find_Some. split; [done|]. split; [done|]. intros j y _ Hj. lia. }
  assert (∀ backlog, saveBacklog backlog m disk !! backlogFilePath m
                     = Some (JSON_stringify backlog)) as Hsave.
  { intros backlog. unfold saveBacklog, renameSync, writeFileSync.
    rewrite lookup_insert_eq. apply lookup_insert_eq. }
  split.
  - unfold updateStatus. rewrite Hload, Hfind.
    assert (String.eqb newStatus "done" = false) as ->.
    { apply String.eqb_neq. done. }
    eexists _, _. split; [reflexivity|]. split; [apply Hsave|].
    simpl. split; [done|]. split; [done|].
    unfold completedIffDone. simpl. intros [Hiff _]. by apply Hnew, Hiff.
  - unfold markBlocked. rewrite Hload, Hfind.
    eexists _, _. split; [reflexivity|]. split; [apply Hsave|].
    simpl. split; [done|]. split; [done|].
    unfold completedIffDone. simpl. intros [Hiff _].
    specialize (Hiff Hcompleted). discriminate Hiff.
Qed.

End HumanBacklog.

Lemma getNextItem_precedence_witness :
  precedence Samples.requests
    (BacklogManager.getNextItem (JSON0 := Samples.requestsCodec)
       (BacklogManager.new "/p") Samples.requestsDisk)
  ∧ BacklogManager.getNextItem (JSON0 := Samples.requestsCodec)
      (BacklogManager.new "/p") Samples.requestsDisk ≠ None.
Proof.
  destruct (getNextItem_precedence (JSON0 := Samples.requestsCodec)
              (BacklogManager.new "/p") Samples.requestsDisk "requests"
              Samples.requests) as (Hrule & _ & Hsome).
  - reflexivity.
  - reflexivity.
  - split; [exact Hrule|]. apply Hsome.
    exists (Samples.request "1" "medium" "backlog").
    split; [|reflexivity]. apply list_elem_of_In. simpl. tauto.
Defined.

(** The critical request is selected, though a medium one waits before it in
    the file and a high one is blocked. *)
Example sample_backlog_selects_the_critical_request :
  BacklogManager.getNextItem (JSON0 := Samples.requestsCodec)
    (BacklogManager.new "/p") Samples.requestsDisk
  = Some (Samples.request "3" "critical" "backlog").
Proof. vm_compute. reflexivity. Qed.

Lemma leaving_done_keeps_completed_witness :
  ∃ item' disk',
    BacklogManager.markInProgress (JSON0 := Samples.backlogCodec)
      "2025-01-02T00:00:00.000Z" "1735689600000"
      (BacklogManager.new "/p") Samples.backlogDisk = (true, disk')
    ∧ BacklogManager.status item' = "in_progress"
    ∧ BacklogManager.completed item' = true.
Proof.
  destruct (leaving_done_keeps_completed (JSON0 := Samples.backlogCodec)
              "2025-01-02T00:00:00.000Z" "in_progress" "waiting"
              (BacklogManager.new "/p") Samples.backlogDisk "backlog"
              Samples.doneItem [])
    as [(item' & disk' & Hrun & _ & Hstatus & Hcompleted & _) _].
  - reflexivity.
  - reflexivity.
  - reflexivity.
  - reflexivity.
  - discriminate.
  - exists item', disk'. exact (conj Hrun (conj Hstatus Hcompleted)).
Defined.

(** ** The workflow loop *)

Section Workflow.
Import WorkflowEngine.
Context `{!JSON FeatureManager.FeatureList}.
Local Arguments FeatureManager.getNextIncompleteFeature : simpl never.

Lemma stepCount_app s (xs ys : list StepResult) :
  stepCount s (xs ++ ys) = (stepCount s xs + stepCount s ys)%nat.
Proof. unfold stepCount. by rewrite List.filter_app, length_app. Qed.

Lemma stepCount_snoc s (xs : list StepResult) r :
  stepCount s (xs ++ [r])
  = (stepCount s xs + if sameStep (step r) s then 1 else 0)%nat.
Proof. rewrite stepCount_app. unfold stepCount. simpl. by destruct sameStep. Qed.

(** One pass of the body: one code record, at most one verify record, and
    success only when the test phase reported it. *)
Lemma iteration_steps env l :
  let l' := iteration env l in
  stepCount Step3 (loop_steps l') = S (stepCount Step3 (loop_steps l))
  ∧ stepCount Step4 (loop_steps l') = S (stepCount Step4 (loop_steps l))
  ∧ stepCount Step1 (loop_steps l') = stepCount Step1 (loop_steps l)
  ∧ stepCount Step2 (loop_steps l') = stepCount Step2 (loop_steps l)
  ∧ loop_calls l' = S (loop_calls l).
Proof.
  unfold iteration, executeStep3, executeStep4. simpl.
  destruct (executeTestPhase env (loop_calls l)) as [r|err]; simpl.
  - destruct (allPassed r); simpl; rewrite !stepCount_snoc; simpl;
      repeat split; lia.
  - rewrite !stepCount_snoc; simpl; repeat split; lia.
Qed.

Lemma iteration_failing env l :
  loop_allPassed l = false →
  verificationFails env (loop_calls l) →
  loop_allPassed (iteration env l) = false.
Proof.
  unfold verificationFails, iteration, executeStep3, executeStep4. simpl.
  intros Hl. destruct (executeTestPhase env (loop_calls l)) as [r|err]; simpl.
  - by intros ->.
  - done.
Qed.

(** The loop stops within the cap: it runs at most
    [maxIterations - iterations] passes, each adding one code record. *)
Lemma while_bounded env l :
  let l' := while env l in
  maxIterations (context (loop_engine l'))
    = maxIterations (context (loop_engine l))
  ∧ loop_iterations l ≤ loop_iterations l'
  ∧ loop_iterations l'
      ≤ Z.max (loop_iterations l) (maxIterations (context (loop_engine l)))
  ∧ Z.of_nat (stepCount Step3 (loop_steps l'))
      = Z.of_nat (stepCount Step3 (loop_steps l))
        + (loop_iterations l' - loop_iterations l)
  ∧ (stepCount Step4 (loop_steps l') + stepCount Step3 (loop_steps l)
      = stepCount Step3 (loop_steps l') + stepCount Step4 (loop_steps l))%nat
  ∧ stepCount Step1 (loop_steps l') = stepCount Step1 (loop_steps l)
  ∧ stepCount Step2 (loop_steps l') = stepCount Step2 (loop_steps l).
Proof.
  funelim (while env l); simpl.
  - destruct H as (Hmax & Hle & Hub & H3 & H4 & H1 & H2).
    rewrite iteration_maxIterations in *.
    rewrite iteration_iterations in *.
    destruct (iteration_steps env l) as (S3 & S4 & S1 & S2 & _).
    simpl in *.
    pose proof running as below. unfold loop_condition in below.
    apply andb_prop in below as [_ below%Z.ltb_lt].
    repeat split; try lia; congruence.
  - repeat split; lia.
Qed.

Lemma while_unfold env l :
  while env l = if loop_condition l then while env (iteration env l) else l.
Proof.
  funelim (while env l).
  - by rewrite running.
  - match goal with E : loop_condition _ = false |- _ => by rewrite E end.
Qed.

Lemma iteration_failing_steps env l :
  verificationFails env (loop_calls l) →
  map step (loop_steps (iteration env l))
  = (map step (loop_steps l) ++ [Step3; Step4])%list.
Proof.
  unfold verificationFails, iteration, executeStep3, executeStep4. simpl.
  destruct (executeTestPhase env (loop_calls l)) as [r|err]; simpl.
  - intros ->. simpl. by rewrite !map_app, <- app_assoc.
  - intros _. by rewrite !map_app, <- app_assoc.
Qed.

(** A verification that keeps failing leaves the loop running until the
    cap, and no further. *)
Lemma while_all_failing env l :
  loop_allPassed l = false →
  (∀ k, (loop_calls l ≤ k)%nat →
        Z.of_nat (k - loop_calls l)
          < maxIterations (context (loop_engine l)) - loop_iterations l →
        verificationFails env k) →
  let l' := while env l in
  loop_allPassed l' = false
  ∧ loop_iterations l'
      = Z.max (loop_iterations l) (maxIterations (context (loop_engine l)))
  ∧ map step (loop_steps l')
      = (map step (loop_steps l)
         ++ cycles (Z.to_nat (loop_iterations l' - loop_iterations l)))%list.
Proof.
  funelim (while env l); intros Hfalse Hfails; simpl.
  - pose proof running as below. unfold loop_condition in below.
    apply andb_prop in below as [_ below%Z.ltb_lt].
    destruct (iteration_steps env l) as (_ & _ & _ & _ & Hcalls).
    simpl in Hcalls.
    assert (verificationFails env (loop_calls l)) as Hnow
      by (apply Hfails; lia).
    destruct H as (Hp & Hi & Hs).
    + by apply iteration_failing.
    + intros k Hk Hlt. apply Hfails; [lia|].
      rewrite iteration_maxIterations, iteration_iterations in Hlt. lia.
    + rewrite iteration_maxIterations, iteration_iterations in Hi.
      rewrite iteration_iterations in Hs.
      split; [done|]. split; [lia|].
      rewrite Hs, iteration_failing_steps by done.
      rewrite <- app_assoc. f_equal.
      replace (Z.to_nat (loop_iterations (while env (iteration env l))
                         - loop_iterations l))
        with (S (Z.to_nat (loop_iterations (while env (iteration env l))
                           - (loop_iterations l + 1)))) by lia.
      done.
  - match goal with E : loop_condition _ = false |- _ =>
      pose proof E as stop end.
    unfold loop_condition in stop. rewrite Hfalse in stop. simpl in stop.
    apply Z.ltb_ge in stop. split; [done|]. split; [lia|].
    rewrite Z.sub_diag. simpl. by rewrite app_nil_r.
Qed.

(** When steps 1 and 2 succeed and every verification within the cap fails,
    the workflow ends failed after exactly [maxIterations] cycles. *)
Lemma executeWorkflow_all_failing env e disk :
  setupSucceeds env e disk →
  0 ≤ maxIterations (context e) →
  (∀ k, Z.of_nat k < maxIterations (context e) → verificationFails env k) →
  let r := (executeWorkflow env e disk).1 in
  result_success r = false
  ∧ iterations r = maxIterations (context e)
  ∧ map step (steps r)
    = Step1 :: Step2 :: cycles (Z.to_nat (maxIterations (context e))).
Proof.
  intros (Hinit & Hchmod & Hserver & next & fm & Hnext) Hcap Hfails.
  unfold executeWorkflow, executeStep1, executeStep2. simpl.
  rewrite Hinit, Hchmod, Hserver. simpl. rewrite Hnext. simpl.
  match goal with |- context [while env ?l] =>
    pose proof (while_all_failing env l) as Hloop;
    remember (while env l) as l' end.
  simpl in Hloop. destruct Hloop as (Hp & Hi & Hs); [done| |].
  { intros k _ Hk. apply Hfails. lia. }
  rewrite Z.max_r in Hi by done. rewrite Z.sub_0_r, Hi in Hs.
  by rewrite Hp, Hi, Hs.
Qed.

(** The records of a workflow never hold more code steps, nor more verify
    steps, than the cap of its context. *)
Lemma executeWorkflow_step_counts env e disk :
  let r := (executeWorkflow env e disk).1 in
  Z.of_nat (stepCount Step3 (steps r)) ≤ Z.max 0 (maxIterations (context e))
  ∧ stepCount Step4 (steps r) = stepCount Step3 (steps r).
Proof.
  unfold executeWorkflow.
  destruct (executeStep1 env _ disk) as [r1 e1] eqn:E1.
  assert (step r1 = Step1 ∧ maxIterations (context e1) = maxIterations (context e))
    as [Hs1 Hm1].
  { revert E1. unfold executeStep1.
    repeat case_match; intros [= <- <-]; done. }
  destruct (success r1); simpl.
  2:{ unfold stepCount. simpl. rewrite Hs1. simpl. lia. }
  destruct (executeStep2 _ disk) as [r2 e2] eqn:E2.
  assert (step r2 = Step2 ∧ maxIterations (context e2) = maxIterations (context e))
    as [Hs2 Hm2].
  { revert E2. unfold executeStep2.
    repeat case_match; intros [= <- <-]; done. }
  destruct (success r2); simpl.
  2:{ unfold stepCount. simpl. rewrite Hs1, Hs2. simpl. lia. }
  assert (stepCount Step3 [r1; r2] = 0%nat ∧ stepCount Step4 [r1; r2] = 0%nat)
    as [Z3 Z4].
  { unfold stepCount. simpl. by rewrite Hs1, Hs2. }
  match goal with |- context [while env ?l] =>
    destruct (while_bounded env l) as (_ & Hle & Hub & H3 & H4 & _);
    remember (while env l) as l' end.
  simpl in *. rewrite Z3 in H3, H4. rewrite Z4 in H4. rewrite Hm2 in Hub. lia.
Qed.


(** C4 — the code/verify retry loop never runs more than the
    [maxIterations] of the context: the result holds at most that many code
    records and as many verify records.  With cap 3, when steps 1 and 2
    succeed and the verifications of iterations 1, 2 and 3 fail, the workflow
    returns (it does not throw) a result with [success = false],
    [iterations = 3] and eight step records: init, select, then three code
    and three verify records. *)
Theorem executeWorkflow_bounded_by_cap env e disk :
  let r := (executeWorkflow env e disk).1 in
  (Z.of_nat (stepCount Step3 (steps r)) ≤ Z.max 0 (maxIterations (context e))
   ∧ stepCount Step4 (steps r) = stepCount Step3 (steps r))
  ∧ (maxIterations (context e) = 3 →
     setupSucceeds env e disk →
     (∀ k, (k < 3)%nat → verificationFails env k) →
     result_success r = false
     ∧ iterations r = 3
     ∧ map step (steps r)
       = [Step1; Step2; Step3; Step4; Step3; Step4; Step3; Step4]
     ∧ stepCount Step3 (steps r) = 3%nat
     ∧ stepCount Step4 (steps r) = 3%nat
     ∧ length (steps r) = 8%nat).
Proof.
  intros r. split; [apply executeWorkflow_step_counts|].
  intros Hcap Hsetup Hfails.
  destruct (executeWorkflow_all_failing env e disk) as (Hs & Hi & Hsteps);
    [done|lia|intros k Hk; apply Hfails; lia|].
  fold r in Hs, Hi, Hsteps. rewrite Hcap in Hi, Hsteps.
  change (cycles (Z.to_nat 3)) with [Step3; Step4; Step3; Step4; Step3; Step4]
    in Hsteps.
  assert (length (steps r) = 8%nat) as Hlen
    by (rewrite <- (length_map step), Hsteps; done).
  assert (∀ s, stepCount s (steps r)
               = length (List.filter (fun x => sameStep x s) (map step (steps r))))
    as Hcount.
  { intros s. unfold stepCount. generalize (steps r) as l.
    induction l as [|x l IH]; simpl; [done|].
    destruct (sameStep (step x) s); simpl; by rewrite IH. }
  rewrite !Hcount, Hsteps. done.
Qed.
End Workflow.

Lemma executeWorkflow_bounded_by_cap_witness :
  let r := (WorkflowEngine.executeWorkflow (JSON0 := Samples.featureCodec)
              Samples.failingEnvironment
              (WorkflowEngine.new "s" "/p" (FeatureManager.new "/p") None)
              Samples.projectDisk).1 in
  WorkflowEngine.result_success r = false
  ∧ WorkflowEngine.iterations r = 3
  ∧ length (WorkflowEngine.steps r) = 8%nat.
Proof.
  destruct (executeWorkflow_bounded_by_cap (JSON0 := Samples.featureCodec)
              Samples.failingEnvironment
              (WorkflowEngine.new "s" "/p" (FeatureManager.new "/p") None)
              Samples.projectDisk) as [_ scenario].
  destruct scenario as (Hs & Hi & _ & _ & _ & Hl).
  - reflexivity.
  - repeat split; try (vm_compute; reflexivity).
    eexists _, _. vm_compute. reflexivity.
  - intros k _. exact eq_refl.
  - exact (conj Hs (conj Hi Hl)).
Defined.

(** C5 — the constructor takes [maxIterations] (default 3) and the
    documentation passes it as the cap, but [createInitialContext] writes the
    constant 3: whatever value is passed, the context's cap is 3, and an
    engine built with [maxIterations = 1] runs three code-then-verify cycles
    when every verification fails. *)
Theorem constructor_maxIterations_not_used :
  (∀ sid root fm requested,
     WorkflowEngine.maxIterations
       (WorkflowEngine.context (WorkflowEngine.new sid root fm requested)) = 3)
  ∧ let r := (WorkflowEngine.executeWorkflow (JSON0 := Samples.featureCodec)
                Samples.failingEnvironment
                (WorkflowEngine.new "s" "/p" (FeatureManager.new "/p") (Some 1))
                Samples.projectDisk).1 in
    WorkflowEngine.iterations r = 3
    ∧ stepCount WorkflowEngine.Step3 (WorkflowEngine.steps r) = 3%nat
    ∧ stepCount WorkflowEngine.Step4 (WorkflowEngine.steps r) = 3%nat.
Proof.
  split; [done|]. vm_compute. done.
Qed.

(** ** The workflow: outcomes other than exhaustion *)

Section WorkflowOutcomes.
Import WorkflowEngine.
Context `{!JSON FeatureManager.FeatureList}.
Local Arguments FeatureManager.getNextIncompleteFeature : simpl never.

Lemma iteration_context env l :
  loop_allPassed l = false →
  let c := context (loop_engine l) in
  let c' := context (loop_engine (iteration env l)) in
  currentFeatureId c' = currentFeatureId c
  ∧ featureManager (loop_engine (iteration env l)) = featureManager (loop_engine l)
  ∧ iterationCount c' = loop_iterations l + 1
  ∧ currentStep c' = Step4
  ∧ state c' = (if loop_allPassed (iteration env l) then completed else coding).
Proof.
  intros Hl. unfold iteration, executeStep3, executeStep4. simpl.
  destruct (executeTestPhase env (loop_calls l)) as [r|err]; simpl.
  - destruct (allPassed r); simpl; [done|]. by rewrite Hl.
  - by rewrite Hl.
Qed.

Lemma iteration_passing env l :
  verificationPasses env (loop_calls l) →
  loop_allPassed (iteration env l) = true
  ∧ map step (loop_steps (iteration env l))
    = (map step (loop_steps l) ++ [Step3; Step4])%list.
Proof.
  intros (r & Hr & Hpass). unfold iteration, executeStep3, executeStep4. simpl.
  rewrite Hr, Hpass. simpl. split; [done|]. by rewrite !map_app, <- app_assoc.
Qed.

(** The loop runs its body while its condition holds. *)
Lemma while_step env l :
  while env l = if loop_condition l then while env (iteration env l) else l.
Proof.
  funelim (while env l).
  - by rewrite running.
  - match goal with E : loop_condition _ = false |- _ => by rewrite E end.
Qed.

Lemma while_done env l : loop_allPassed l = true → while env l = l.
Proof.
  intros Hl. rewrite while_step. unfold loop_condition. by rewrite Hl.
Qed.

(** What the loop leaves in the engine: the selected feature and the feature
    manager are untouched; once a pass has run, the context is at step 4, in
    state [completed] if the last verification passed and [coding] if not. *)
Lemma while_context env l :
  loop_allPassed l = false →
  let l' := while env l in
  currentFeatureId (context (loop_engine l'))
    = currentFeatureId (context (loop_engine l))
  ∧ featureManager (loop_engine l') = featureManager (loop_engine l)
  ∧ (loop_iterations l' = loop_iterations l → loop_engine l' = loop_engine l)
  ∧ (loop_iterations l < loop_iterations l' →
     iterationCount (context (loop_engine l')) = loop_iterations l'
     ∧ currentStep (context (loop_engine l')) = Step4
     ∧ state (context (loop_engine l'))
       = (if loop_allPassed l' then completed else coding)).
Proof.
  funelim (while env l); intros Hfalse; simpl.
  - destruct (iteration_context env l Hfalse) as (Hf & Hm & Hi & Hs & Hst).
    simpl in *.
    pose proof (iteration_iterations env l) as Hit.
    destruct (loop_allPassed (iteration env l)) eqn:Hp.
    + rewrite (while_done env (iteration env l) Hp) in *.
      rewrite Hp. repeat split; try done; lia.
    + destruct (H eq_refl) as (Hf' & Hm' & Hsame & Hmoved).
      destruct (while_bounded env (iteration env l)) as (_ & Hle & _).
      simpl in Hle. rewrite Hit in *.
      split; [congruence|]. split; [congruence|]. split; [lia|].
      intros _.
      destruct (decide (loop_iterations (while env (iteration env l))
                        = loop_iterations l + 1)) as [Heq|Hne].
      * specialize (Hsame Heq).
        assert (while env (iteration env l) = iteration env l) as Hw.
        { rewrite while_step.
          destruct (loop_condition (iteration env l)) eqn:Hc; [|done].
          exfalso.
          destruct (while_bounded env (iteration env (iteration env l)))
            as (_ & Hle2 & _). simpl in Hle2.
          rewrite iteration_iterations, Hit in Hle2.
          rewrite while_step, Hc in Heq. lia. }
        rewrite Hw, Hp, Hit. done.
      * apply Hmoved. lia.
  - repeat split; try done; lia.
Qed.

(** X1 — the loop stops at the first verification that passes: when steps 1
    and 2 succeed, the first [k] verifications fail and the next one passes
    within the cap, the workflow succeeds after [k + 1] cycles, with no step
    record after the passing verification, and leaves the context in state
    [completed] with [iterationCount = k + 1]. *)
Theorem executeWorkflow_stops_at_first_pass env e disk (k : nat) :
  setupSucceeds env e disk →
  Z.of_nat k < maxIterations (context e) →
  (∀ j, (j < k)%nat → verificationFails env j) →
  verificationPasses env k →
  let '(r, e') := executeWorkflow env e disk in
  result_success r = true
  ∧ featureCompleted r = true
  ∧ iterations r = Z.of_nat k + 1
  ∧ map step (steps r) = Step1 :: Step2 :: cycles (S k)
  ∧ state (context e') = completed
  ∧ iterationCount (context e') = Z.of_nat k + 1.
Proof.
  intros (Hinit & Hchmod & Hserver & next & fm & Hnext) Hcap Hfails Hpass.
  unfold executeWorkflow, executeStep1, executeStep2. simpl.
  rewrite Hinit, Hchmod, Hserver. simpl. rewrite Hnext. simpl.
  match goal with |- context [while env ?l] => set (l0 := l) end.
  assert (∀ n l,
            loop_allPassed l = false →
            loop_iterations l + Z.of_nat n < maxIterations (context (loop_engine l)) →
            (∀ j, (j < n)%nat → verificationFails env (loop_calls l + j)) →
            verificationPasses env (loop_calls l + n) →
            loop_allPassed (while env l) = true
            ∧ loop_iterations (while env l) = loop_iterations l + Z.of_nat n + 1
            ∧ map step (loop_steps (while env l))
              = (map step (loop_steps l) ++ cycles (S n))%list) as Hrun.
  { clear. induction n as [|n IH]; intros l Hl Hlt Hf Hp.
    - rewrite Nat.add_0_r in Hp.
      destruct (iteration_passing env l Hp) as [Hdone Hsteps].
      rewrite while_step. unfold loop_condition. rewrite Hl. simpl.
      assert ((loop_iterations l <? maxIterations (context (loop_engine l))) = true)
        as -> by (apply Z.ltb_lt; lia).
      rewrite (while_done env _ Hdone), iteration_iterations.
      split; [done|]. split; [lia|]. rewrite Hsteps. simpl. done.
    - assert (verificationFails env (loop_calls l)) as Hnow.
      { specialize (Hf 0%nat). rewrite Nat.add_0_r in Hf. apply Hf. lia. }
      destruct (iteration_steps env l) as (_ & _ & _ & _ & Hcalls).
      simpl in Hcalls.
      rewrite while_step. unfold loop_condition. rewrite Hl. simpl.
      assert ((loop_iterations l <? maxIterations (context (loop_engine l))) = true)
        as -> by (apply Z.ltb_lt; lia).
      destruct (IH (iteration env l)) as (Hd & Hi & Hs).
      + by apply iteration_failing.
      + rewrite iteration_maxIterations, iteration_iterations. lia.
      + intros j Hj. rewrite Hcalls.
        assert (S (loop_calls l) + j = loop_calls l + S j)%nat as -> by lia.
        apply Hf. lia.
      + rewrite Hcalls.
        assert (S (loop_calls l) + n = loop_calls l + S n)%nat as -> by lia.
        done.
      + rewrite iteration_iterations in Hi.
        split; [done|]. split; [lia|].
        rewrite Hs, iteration_failing_steps by done.
        rewrite <- app_assoc. done. }
  destruct (Hrun k l0) as (Hd & Hi & Hs); [done|simpl; lia|by apply Hfails|done|].
  destruct (while_context env l0 eq_refl) as (_ & _ & _ & Hmoved).
  simpl in Hmoved, Hi, Hs. rewrite Hd in Hmoved.
  destruct Hmoved as (Hcount & _ & Hstate); [lia|].
  rewrite Hd, Hi, Hs, Hstate, Hcount, Hi. done.
Qed.

(** X2 — when step 1 does not succeed (no [init.sh], [chmod] throws, or the
    server does not answer), the workflow ends failed with the single record
    of step 1: the feature manager is not consulted, no code or verify
    record exists, and the context is left in state [failed].  The record
    asks for [abort] only when the script is missing and for [retry]
    otherwise; the workflow stops in both cases. *)
Theorem executeWorkflow_step1_failure env e disk :
  ¬ environmentStarts env e disk →
  let '(r, e') := executeWorkflow env e disk in
  result_success r = false
  ∧ featureCompleted r = false
  ∧ (∃ r1, steps r = [r1] ∧ step r1 = Step1 ∧ success r1 = false
           ∧ nextAction r1
             = if existsSync disk (projectRoot e ++ "/init.sh")
               then retry else abort)
  ∧ iterations r = iterationCount (context e)
  ∧ featureId r = currentFeatureId (context e)
  ∧ featureManager e' = featureManager e
  ∧ state (context e') = failed.
Proof.
  intros Hnot. unfold executeWorkflow, executeStep1. simpl.
  destruct (existsSync disk (projectRoot e ++ "/init.sh")) eqn:Hinit; simpl.
  2:{ repeat split; eauto. }
  destruct (chmod env) as [[]|err] eqn:Hchmod; simpl.
  2:{ repeat split; eauto. }
  destruct (serverReady env) eqn:Hserver; simpl.
  - destruct Hnot. done.
  - repeat split; eauto.
Qed.

(** X3 — when step 1 succeeds and the feature manager names no feature
    (every feature passes, or the list cannot be loaded), the workflow ends
    failed with the records of steps 1 and 2 only: no code is attempted, the
    test phase is never run, and the result reports the feature id the
    context held before.  The record of step 2 asks for [abort] when there is
    nothing to do, with the error [All features completed or no features
    defined], and for [retry], with an error text, when loading threw; for a
    missing feature list that text is [String(error)] of the read error,
    [Error: ENOENT: no such file or directory, open '...'] with the path of
    the list. *)
Theorem executeWorkflow_step2_failure env e disk outcome fm :
  environmentStarts env e disk →
  FeatureManager.getNextIncompleteFeature (featureManager e) disk
    = (outcome, fm) →
  outcome = Return None ∨ (∃ err, outcome = Throw err) →
  let '(r, e') := executeWorkflow env e disk in
  result_success r = false
  ∧ (∃ r1 r2, steps r = [r1; r2] ∧ step r1 = Step1 ∧ success r1 = true
              ∧ step r2 = Step2 ∧ success r2 = false
              ∧ match outcome with
                | Throw err => nextAction r2 = retry ∧ is_Some (error r2)
                | Return _ =>
                    nextAction r2 = abort
                    ∧ error r2
                      = Some "All features completed or no features defined"
                end
              ∧ (FeatureManager.featureList (featureManager e) = None →
                 disk !! FeatureManager.featureListPath (featureManager e)
                 = None →
                 nextAction r2 = retry
                 ∧ error r2
                   = Some ("Error: ENOENT: no such file or directory, open '"
                           ++ FeatureManager.featureListPath (featureManager e)
                           ++ "'")))
  ∧ stepCount Step3 (steps r) = 0%nat
  ∧ stepCount Step4 (steps r) = 0%nat
  ∧ featureId r = currentFeatureId (context e)
  ∧ featureManager e' = fm
  ∧ state (context e') = failed.
Proof.
  intros (Hinit & Hchmod & Hserver) Hnext Hbad.
  assert (FeatureManager.featureList (featureManager e) = None →
          disk !! FeatureManager.featureListPath (featureManager e) = None →
          outcome
          = Throw ("ENOENT: no such file or directory, open '"
                   ++ FeatureManager.featureListPath (featureManager e)
                   ++ "'")) as Hmissing.
  { intros Hm Hfile. revert Hnext.
    unfold FeatureManager.getNextIncompleteFeature,
      FeatureManager.loadFeatureList, readFileSync.
    rewrite Hm, Hfile. by intros [= <- _]. }
  unfold executeWorkflow, executeStep1, executeStep2. simpl.
  rewrite Hinit, Hchmod, Hserver. simpl. rewrite Hnext.
  destruct Hbad as [-> | [err ->]]; simpl.
  - split; [done|]. split; [|repeat split; eauto].
    eexists _, _. split; [reflexivity|]. do 4 (split; [done|]).
    split; [by split|].
    intros Hm Hfile. by specialize (Hmissing Hm Hfile).
  - split; [done|]. split; [|repeat split; eauto].
    eexists _, _. split; [reflexivity|]. do 4 (split; [done|]).
    split; [split; [done|by eexists]|].
    intros Hm Hfile. specialize (Hmissing Hm Hfile).
    injection Hmissing as ->. by split.
Qed.

(** X4 — when steps 1 and 2 succeed, the result and the context name the
    feature the backlog selected, whatever the verifications answer, and the
    engine keeps the feature manager as the selection left it. *)
Theorem executeWorkflow_reports_selected_feature env e disk next fm :
  environmentStarts env e disk →
  FeatureManager.getNextIncompleteFeature (featureManager e) disk
    = (Return (Some next), fm) →
  let '(r, e') := executeWorkflow env e disk in
  featureId r = Some (FeatureManager.id next)
  ∧ currentFeatureId (context e') = Some (FeatureManager.id next)
  ∧ featureManager e' = fm
  ∧ featureCompleted r = result_success r.
Proof.
  intros (Hinit & Hchmod & Hserver) Hnext.
  unfold executeWorkflow, executeStep1, executeStep2. simpl.
  rewrite Hinit, Hchmod, Hserver. simpl. rewrite Hnext. simpl.
  match goal with |- context [while env ?l] =>
    destruct (while_context env l eq_refl) as (Hf & Hm & _) end.
  simpl in Hf, Hm. rewrite Hf, Hm. done.
Qed.

(** X5 — a workflow that exhausts its retries does not leave the context in
    state [failed]: when steps 1 and 2 succeed, the cap is at least 1 and
    every verification within the cap fails, the context ends in state
    [coding], at step 4, with [iterationCount] equal to the cap. *)
Theorem executeWorkflow_exhausted_context env e disk :
  setupSucceeds env e disk →
  1 ≤ maxIterations (context e) →
  (∀ k, Z.of_nat k < maxIterations (context e) → verificationFails env k) →
  let '(r, e') := executeWorkflow env e disk in
  result_success r = false
  ∧ state (context e') = coding
  ∧ currentStep (context e') = Step4
  ∧ iterationCount (context e') = maxIterations (context e).
Proof.
  intros Hsetup Hcap Hfails.
  pose proof (executeWorkflow_all_failing env e disk Hsetup
                ltac:(lia) Hfails) as (Hs & Hi & _).
  destruct Hsetup as (Hinit & Hchmod & Hserver & next & fm & Hnext).
  revert Hs Hi.
  unfold executeWorkflow, executeStep1, executeStep2. simpl.
  rewrite Hinit, Hchmod, Hserver. simpl. rewrite Hnext. simpl.
  match goal with |- context [while env ?l] =>
    destruct (while_context env l eq_refl) as (_ & _ & _ & Hmoved);
    set (l' := while env l) in * end.
  simpl in Hmoved. intros Hs Hi. rewrite Hs in Hmoved.
  destruct Hmoved as (Hcount & Hstep & Hstate); [lia|].
  rewrite Hcount, Hi. done.
Qed.

End WorkflowOutcomes.

Lemma executeWorkflow_stops_at_first_pass_witness :
  WorkflowEngine.iterations
    (WorkflowEngine.executeWorkflow (JSON0 := Samples.featureCodec)
       Samples.recoveringEnvironment
       (WorkflowEngine.new "s" "/p" (FeatureManager.new "/p") None)
       Samples.projectDisk).1 = 2.
Proof.
  pose proof (executeWorkflow_stops_at_first_pass (JSON0 := Samples.featureCodec)
                Samples.recoveringEnvironment
                (WorkflowEngine.new "s" "/p" (FeatureManager.new "/p") None)
                Samples.projectDisk 1) as H.
  destruct (WorkflowEngine.executeWorkflow _ _ _) as [r e'].
  destruct H as (_ & _ & Hi & _).
  - repeat split; try (vm_compute; reflexivity).
    eexists _, _. vm_compute. reflexivity.
  - reflexivity.
  - intros [|j] Hj; [exact eq_refl|lia].
  - eexists. split; reflexivity.
  - exact Hi.
Defined.

Lemma executeWorkflow_step1_failure_witness :
  WorkflowEngine.result_success
    (WorkflowEngine.executeWorkflow (JSON0 := Samples.featureCodec)
       Samples.deadEnvironment
       (WorkflowEngine.new "s" "/p" (FeatureManager.new "/p") None)
       Samples.projectDisk).1 = false.
Proof.
  pose proof (executeWorkflow_step1_failure (JSON0 := Samples.featureCodec)
                Samples.deadEnvironment
                (WorkflowEngine.new "s" "/p" (FeatureManager.new "/p") None)
                Samples.projectDisk) as H.
  destruct (WorkflowEngine.executeWorkflow _ _ _) as [r e'].
  destruct H as (Hs & _).
  - intros (_ & _ & Hserver). discriminate Hserver.
  - exact Hs.
Defined.

Lemma executeWorkflow_step2_failure_witness :
  ∃ r1 r2,
    WorkflowEngine.steps
      (WorkflowEngine.executeWorkflow (JSON0 := Samples.featureCodec)
         Samples.failingEnvironment
         (WorkflowEngine.new "s" "/p" (FeatureManager.new "/p") None)
         {[ "/p/init.sh" := "npm run dev" ]}).1 = [r1; r2]
    ∧ WorkflowEngine.error r2
      = Some "Error: ENOENT: no such file or directory, open '/p/feature_list.json'".
Proof.
  pose proof (executeWorkflow_step2_failure (JSON0 := Samples.featureCodec)
                Samples.failingEnvironment
                (WorkflowEngine.new "s" "/p" (FeatureManager.new "/p") None)
                {[ "/p/init.sh" := "npm run dev" ]}
                (Throw "ENOENT: no such file or directory, open '/p/feature_list.json'")
                (FeatureManager.new "/p")) as H.
  destruct (WorkflowEngine.executeWorkflow _ _ _) as [r e'].
  destruct H as (_ & (r1 & r2 & Hsteps & _ & _ & _ & _ & _ & Htext) & _).
  - repeat split; vm_compute; reflexivity.
  - vm_compute. reflexivity.
  - right. eexists. reflexivity.
  - exists r1, r2. split; [exact Hsteps|].
    destruct Htext as [_ Htext]; [reflexivity|reflexivity|exact Htext].
Defined.

Lemma executeWorkflow_reports_selected_feature_witness :
  WorkflowEngine.featureId
    (WorkflowEngine.executeWorkflow (JSON0 := Samples.featureCodec)
       Samples.recoveringEnvironment
       (WorkflowEngine.new "s" "/p" (FeatureManager.new "/p") None)
       Samples.projectDisk).1 = Some "F1".
Proof.
  pose proof (executeWorkflow_reports_selected_feature
                (JSON0 := Samples.featureCodec)
                Samples.recoveringEnvironment
                (WorkflowEngine.new "s" "/p" (FeatureManager.new "/p") None)
                Samples.projectDisk (Samples.feature "F1" 10 None false)
                (FeatureManager.set_featureList (FeatureManager.new "/p")
                   Samples.scenarioA)) as H.
  destruct (WorkflowEngine.executeWorkflow _ _ _) as [r e'].
  destruct H as (Hf & _).
  - repeat split; vm_compute; reflexivity.
  - vm_compute. reflexivity.
  - exact Hf.
Defined.

Lemma executeWorkflow_exhausted_context_witness :
  WorkflowEngine.state
    (WorkflowEngine.context
       (WorkflowEngine.executeWorkflow (JSON0 := Samples.featureCodec)
          Samples.failingEnvironment
          (WorkflowEngine.new "s" "/p" (FeatureManager.new "/p") None)
          Samples.projectDisk).2) = WorkflowEngine.coding.
Proof.
  pose proof (executeWorkflow_exhausted_context (JSON0 := Samples.featureCodec)
                Samples.failingEnvironment
                (WorkflowEngine.new "s" "/p" (FeatureManager.new "/p") None)
                Samples.projectDisk) as H.
  destruct (WorkflowEngine.executeWorkflow _ _ _) as [r e'].
  destruct H as (_ & Hstate & _).
  - repeat split; try (vm_compute; reflexivity).
    eexists _, _. vm_compute. reflexivity.
  - vm_compute. discriminate.
  - intros k _. exact eq_refl.
  - exact Hstate.
Defined.

(** ** Writing the agent state *)

Section AgentStateWrites.
Import StateManager.
Context `{!JSON JsonValue}.
Local Arguments VALID_STATES_has : simpl never.
Local Arguments truthy : simpl never.

Lemma readState_valid now m disk :
  ∃ fields, readState now m disk = Return (JObj fields)
            ∧ validState (field "desired_state" fields)
            ∧ validState (field "current_state" fields).
Proof.
  destruct (readState_cases now m disk)
    as [(note & Hread)|(fields & desired & current & Hholds)].
  - eexists. split; [exact Hread|]. apply (pauseState_valid now note).
  - destruct (readState_coerces now m disk fields desired current Hholds)
      as (fields' & Hread & Hd & Hc & _).
    exists fields'. split; [done|]. rewrite Hd, Hc.
    split; apply coerced_valid.
Qed.

Lemma field_set_field key key' value fields :
  field key' (set_field key value fields)
  = if String.eqb key key' then Some value else field key' fields.
Proof.
  destruct (String.eqb key key') eqn:E.
  - apply String.eqb_eq in E as ->. apply field_set_field_eq.
  - apply String.eqb_neq in E. by apply field_set_field_ne.
Qed.

Lemma field_put key key' value fields :
  field key' (put key value fields)
  = if String.eqb key key'
    then match value with Some v => Some v | None => field key' fields end
    else field key' fields.
Proof.
  destruct value as [v|]; simpl; [apply field_set_field|].
  by destruct (String.eqb key key').
Qed.

Lemma field_restore key key' current newState :
  is_Some (field key current) →
  field key' (restore key current newState)
  = if String.eqb key key' then field key current else field key' newState.
Proof.
  intros [v Hv]. unfold restore. rewrite Hv, field_set_field.
  by destruct (String.eqb key key').
Qed.

Lemma validState_is_Some v : validState v → is_Some v.
Proof. intros (name & -> & _). eauto. Qed.

Lemma rejected_spec asked :
  rejected asked
  = match asked with
    | None => false
    | Some name =>
        negb (String.eqb name "") && negb (bool_decide (name ∈ VALID_STATES))
    end.
Proof. by destruct asked. Qed.

Lemma field_put_ne key key' value fields :
  String.eqb key key' = false →
  field key' (put key value fields) = field key' fields.
Proof. intros E. by rewrite field_put, E. Qed.

Lemma field_put_eq key value fields :
  field key (put key value fields)
  = match value with Some v => Some v | None => field key fields end.
Proof. by rewrite field_put, String.eqb_refl. Qed.

(** Looking a key up in [{...currentState, ...updates}]. *)
Lemma field_spread cur updates :
  field "desired_state" (spread cur updates)
    = match u_desired_state updates with
      | Some s => Some (JStr s) | None => field "desired_state" cur end
  ∧ field "current_state" (spread cur updates)
    = match u_current_state updates with
      | Some s => Some (JStr s) | None => field "current_state" cur end
  ∧ field "note" (spread cur updates)
    = match u_note updates with
      | Some s => Some (JStr s) | None => field "note" cur end
  ∧ field "phase" (spread cur updates)
    = match u_phase updates with
      | Some s => Some (JStr s) | None => field "phase" cur end
  ∧ field "current_issue" (spread cur updates)
    = match u_current_issue updates with
      | Some n => Some (JNum n) | None => field "current_issue" cur end
  ∧ field "restart_count" (spread cur updates)
    = match u_restart_count updates with
      | Some n => Some (JNum n) | None => field "restart_count" cur end
  ∧ field "last_commit" (spread cur updates)
    = match u_last_commit updates with
      | Some s => Some (JStr s) | None => field "last_commit" cur end
  ∧ ∀ key, key ∉ stateKeys → field key (spread cur updates) = field key cur.
Proof.
  unfold spread.
  repeat split;
    try (repeat first [rewrite field_put_eq | rewrite field_put_ne by done];
         by destruct (_ updates)).
  intros key Hkey. unfold stateKeys in Hkey.
  rewrite !field_put_ne; [done|..];
    apply String.eqb_neq; intros <-; apply Hkey;
    apply list_elem_of_In; simpl; tauto.
Qed.

Lemma field_guarded_restore (guard : bool) key key' current newState :
  is_Some (field key current) →
  field key' (if guard then restore key current newState else newState)
  = if guard && String.eqb key key' then field key current
    else field key' newState.
Proof.
  intros Hsome. destruct guard; simpl; [|done].
  rewrite field_restore by done. by destruct (String.eqb key key').
Qed.

(** Looking a key up in the object [writeState] serialises. *)
Lemma field_mergedState now cur updates key :
  validState (field "desired_state" cur) →
  validState (field "current_state" cur) →
  field key (mergedState now (JObj cur) updates)
  = if String.eqb "desired_state" key
    then requestedState (u_desired_state updates) (field key cur)
    else if String.eqb "current_state" key
    then requestedState (u_current_state updates) (field key cur)
    else if String.eqb "setBy" key
    then Some (JStr (orElse (u_setBy updates) "agent"))
    else if String.eqb "timestamp" key then Some (JStr now)
    else field key (spread cur updates).
Proof.
  intros Vd%validState_is_Some Vc%validState_is_Some.
  destruct (field_spread cur updates) as (Sd & Sc & _).
  unfold mergedState, properties. cbv zeta.
  rewrite !field_guarded_restore, !field_set_field, !rejected_spec by done.
  destruct (String.eqb "desired_state" key) eqn:Ed.
  { apply String.eqb_eq in Ed as <-. simpl. rewrite andb_false_r, andb_true_r.
    rewrite Sd. unfold requestedState.
    destruct (u_desired_state updates) as [name|]; [|done].
    destruct (String.eqb name "") eqn:En; simpl.
    - by apply String.eqb_eq in En as ->.
    - by destruct (bool_decide (name ∈ VALID_STATES)). }
  destruct (String.eqb "current_state" key) eqn:Ec.
  { apply String.eqb_eq in Ec as <-. simpl. rewrite andb_true_r, andb_false_r.
    rewrite Sc. unfold requestedState.
    destruct (u_current_state updates) as [name|]; [|done].
    destruct (String.eqb name "") eqn:En; simpl.
    - by apply String.eqb_eq in En as ->.
    - by destruct (bool_decide (name ∈ VALID_STATES)). }
  by rewrite !andb_false_r.
Qed.

(** X6 — [writeState] is a partial update on the state [readState] returns:
    the object it leaves in the state file carries the time of the write,
    the setter given (or [agent] when none or an empty one is given: the
    stored setter is not kept), the supplied note, phase, issue, restart
    count and commit (or the stored ones where none is supplied), and every
    other stored property unchanged.  A supplied state name is written when
    it is one of the five names and replaced by the stored state when it is
    another non-empty name. *)
Theorem writeState_partial_update now updates m disk :
  ∃ cur,
    readState now m disk = Return (JObj cur)
    ∧ let new := mergedState now (JObj cur) updates in
      writeState now updates m disk !! stateFilePath m
        = Some (JSON_stringify (JObj new))
      ∧ field "timestamp" new = Some (JStr now)
      ∧ field "setBy" new = Some (JStr (orElse (u_setBy updates) "agent"))
      ∧ field "desired_state" new
        = requestedState (u_desired_state updates) (field "desired_state" cur)
      ∧ field "current_state" new
        = requestedState (u_current_state updates) (field "current_state" cur)
      ∧ field "note" new
        = match u_note updates with
          | Some s => Some (JStr s) | None => field "note" cur end
      ∧ field "phase" new
        = match u_phase updates with
          | Some s => Some (JStr s) | None => field "phase" cur end
      ∧ field "current_issue" new
        = match u_current_issue updates with
          | Some n => Some (JNum n) | None => field "current_issue" cur end
      ∧ field "restart_count" new
        = match u_restart_count updates with
          | Some n => Some (JNum n) | None => field "restart_count" cur end
      ∧ field "last_commit" new
        = match u_last_commit updates with
          | Some s => Some (JStr s) | None => field "last_commit" cur end
      ∧ ∀ key, key ∉ stateKeys → field key new = field key cur.
Proof.
  destruct (readState_valid now m disk) as (cur & Hread & Vd & Vc).
  exists cur. split; [done|]. intros new.
  destruct (field_spread cur updates)
    as (_ & _ & Sn & Sp & Si & Sr & Sl & Sother).
  split.
  { unfold writeState. rewrite Hread. unfold renameSync, writeFileSync.
    rewrite lookup_insert_eq. apply lookup_insert_eq. }
  unfold new. rewrite !(field_mergedState now cur updates) by done. simpl.
  repeat split; try done.
  intros key Hkey. rewrite (field_mergedState now cur updates) by done.
  assert (∀ k, k ∈ stateKeys → String.eqb k key = false) as Hne.
  { intros k Hk. apply String.eqb_neq. by intros <-. }
  rewrite !Hne by (apply list_elem_of_In; simpl; tauto). by apply Sother.
Qed.

Lemma requestedState_valid asked stored :
  asked ≠ Some "" → validState stored →
  validState (requestedState asked stored)
  ∧ ∀ name, asked = Some name → name ∉ VALID_STATES →
            requestedState asked stored = stored.
Proof.
  intros Hasked Hstored. unfold requestedState.
  destruct asked as [name|]; [|by split].
  destruct (String.eqb name "") eqn:En.
  { apply String.eqb_eq in En as ->. done. }
  case_bool_decide as Hin.
  - split; [by exists name|]. by intros ? [= <-] ?.
  - by split.
Qed.

Lemma writeState_keeps_states_valid_aux now updates m disk :
  u_desired_state updates ≠ Some "" →
  u_current_state updates ≠ Some "" →
  ∃ new, writtenState now updates m disk = JObj new
         ∧ validState (field "desired_state" new)
         ∧ validState (field "current_state" new).
Proof.
  intros Hd Hc.
  destruct (readState_valid now m disk) as (cur & Hread & Vd & Vc).
  exists (mergedState now (JObj cur) updates).
  split; [unfold writtenState; by rewrite Hread|].
  rewrite !(field_mergedState now cur updates) by done. simpl.
  split; by apply requestedState_valid.
Qed.

(** X7 — [writeState] never stores an unknown non-empty state name: when the
    supplied [desired_state] and [current_state] are absent or non-empty,
    both state fields of the object written are state names, and a supplied
    name that is not one of the five leaves the stored state in place. *)
Theorem writeState_keeps_states_valid now updates m disk :
  u_desired_state updates ≠ Some "" →
  u_current_state updates ≠ Some "" →
  ∃ cur new,
    readState now m disk = Return (JObj cur)
    ∧ writtenState now updates m disk = JObj new
    ∧ validState (field "desired_state" new)
    ∧ validState (field "current_state" new)
    ∧ (∀ name, u_desired_state updates = Some name →
               name ∉ VALID_STATES →
               field "desired_state" new = field "desired_state" cur)
    ∧ (∀ name, u_current_state updates = Some name →
               name ∉ VALID_STATES →
               field "current_state" new = field "current_state" cur).
Proof.
  intros Hd Hc.
  destruct (readState_valid now m disk) as (cur & Hread & Vd & Vc).
  exists cur, (mergedState now (JObj cur) updates).
  split; [done|]. split; [unfold writtenState; by rewrite Hread|].
  rewrite !(field_mergedState now cur updates) by done. simpl.
  destruct (requestedState_valid _ _ Hd Vd) as [? ?],
           (requestedState_valid _ _ Hc Vc) as [? ?]. done.
Qed.

Lemma validState_truthy v : validState v → truthy v = true ∧ VALID_STATES_has v = true.
Proof.
  intros Hv. split; [|by apply VALID_STATES_has_valid].
  destruct Hv as (name & -> & Hin). unfold truthy.
  destruct (String.eqb name "") eqn:E; [|done].
  apply String.eqb_eq in E as ->. exfalso. revert Hin. unfold VALID_STATES.
  rewrite !elem_of_cons, elem_of_nil. intros [?|[?|[?|[?|[?|[]]]]]]; done.
Qed.

(** A file that holds an object with two valid state fields is read as it
    is. *)
Lemma readState_valid_object now m disk text fields :
  disk !! stateFilePath m = Some text →
  JSON_parse text = Some (JObj fields) →
  validState (field "desired_state" fields) →
  validState (field "current_state" fields) →
  readState now m disk = Return (JObj fields).
Proof.
  intros Hfile Hparse [Td Vd]%validState_truthy [Tc Vc]%validState_truthy.
  unfold readState, readState_try, readFileSync.
  rewrite (existsSync_Some _ _ _ Hfile), Hfile. simpl. rewrite Hparse. simpl.
  by rewrite Td, Tc, Vd, Vc.
Qed.

Lemma writeState_file now updates m disk :
  writeState now updates m disk !! stateFilePath m
  = Some (JSON_stringify (writtenState now updates m disk)).
Proof.
  unfold writeState, writtenState.
  destruct (readState_valid now m disk) as (cur & -> & _).
  unfold renameSync, writeFileSync.
  rewrite lookup_insert_eq. apply lookup_insert_eq.
Qed.

(** X8 — whatever the state file holds, exactly one of [shouldPause],
    [shouldContinue], [isRunOnce] and [isCleanupRequested] answers true; when
    the file is absent or is not JSON it is [shouldPause]. *)
Theorem state_predicates_partition now m disk :
  (Nat.b2n (shouldPause now m disk) + Nat.b2n (shouldContinue now m disk)
   + Nat.b2n (isRunOnce now m disk) + Nat.b2n (isCleanupRequested now m disk)
   = 1)%nat
  ∧ (stateFileUnusable m disk →
     shouldPause now m disk = true ∧ shouldContinue now m disk = false).
Proof.
  split.
  - unfold shouldPause, shouldContinue, isRunOnce, isCleanupRequested.
    destruct (readState_valid now m disk) as (cur & -> & (name & Hd & Hin) & _).
    unfold desiredIs. rewrite Hd. revert Hin. unfold VALID_STATES.
    rewrite !elem_of_cons, elem_of_nil.
    intros [->|[->|[->|[->|[->|[]]]]]]; reflexivity.
  - intros Hbad. unfold shouldPause, shouldContinue.
    destruct (readState_unusable now m disk Hbad) as (note & ->). done.
Qed.

(** The read that follows a write. *)
Lemma readState_written now later updates m disk :
  u_desired_state updates ≠ Some "" →
  u_current_state updates ≠ Some "" →
  readsBack (writtenState now updates m disk) →
  readState later m (writeState now updates m disk)
  = Return (writtenState now updates m disk).
Proof.
  intros Hd Hc Hback.
  destruct (writeState_keeps_states_valid_aux now updates m disk Hd Hc)
    as (new & Hnew & Vd & Vc).
  pose proof (writeState_file now updates m disk) as Hfile.
  rewrite Hnew in *.
  by apply (readState_valid_object later m _ _ new Hfile Hback).
Qed.

(** X9 — what [writeState] writes is what the next [readState] returns:
    when the supplied state names are absent or non-empty and the codec
    reads back the text of the object written, reading the state after the
    write returns that object, unchanged. *)
Theorem readState_after_writeState now later updates m disk :
  u_desired_state updates ≠ Some "" →
  u_current_state updates ≠ Some "" →
  readsBack (writtenState now updates m disk) →
  readState later m (writeState now updates m disk)
  = Return (writtenState now updates m disk).
Proof.
  intros Hd Hc Hback.
  destruct (writeState_keeps_states_valid_aux now updates m disk Hd Hc)
    as (new & Hnew & Vd & Vc).
  pose proof (writeState_file now updates m disk) as Hfile.
  rewrite Hnew in *.
  by apply (readState_valid_object later m _ _ new Hfile Hback).
Qed.

Lemma desiredIs_after_write now later updates m disk name :
  u_desired_state updates = Some name →
  name ∈ VALID_STATES →
  u_current_state updates ≠ Some "" →
  readsBack (writtenState now updates m disk) →
  desiredIs name (readState later m (writeState now updates m disk)) = true
  ∧ ∀ other, other ≠ name →
      desiredIs other (readState later m (writeState now updates m disk)) = false.
Proof.
  intros Hname Hin Hc Hback.
  assert (u_desired_state updates ≠ Some "") as Hd.
  { rewrite Hname. intros [= ->].
    destruct (validState_truthy (Some (JStr ""))) as [Ht _]; [by exists ""|].
    vm_compute in Ht. discriminate Ht. }
  rewrite (readState_written now later updates m disk Hd Hc Hback).
  unfold writtenState.
  destruct (readState_valid now m disk) as (cur & -> & Vd & Vc).
  unfold desiredIs. rewrite (field_mergedState now cur updates) by done.
  simpl. rewrite Hname. unfold requestedState.
  assert (String.eqb name "" = false) as ->.
  { apply String.eqb_neq. by intros ->. }
  rewrite bool_decide_eq_true_2 by done.
  split; [apply String.eqb_refl|].
  intros other Hother. apply String.eqb_neq. congruence.
Qed.

Lemma note_after_write now later updates m disk text :
  u_note updates = Some text →
  u_desired_state updates ≠ Some "" →
  u_current_state updates ≠ Some "" →
  readsBack (writtenState now updates m disk) →
  noteOf (readState later m (writeState now updates m disk))
  = Some (JStr text).
Proof.
  intros Hnote Hd Hc Hback.
  rewrite (readState_written now later updates m disk Hd Hc Hback).
  unfold writtenState.
  destruct (readState_valid now m disk) as (cur & -> & Vd & Vc).
  unfold noteOf. rewrite (field_mergedState now cur updates) by done.
  destruct (field_spread cur updates) as (_ & _ & Sn & _).
  simpl. by rewrite Sn, Hnote.
Qed.

(** X10 — the named transitions take effect on the next read: provided the
    codec reads back the object each one writes, [pause] and [terminate]
    make [shouldPause] true, [startContinuous] makes [shouldContinue] true
    (and [shouldPause] false), [requestRunOnce] makes [isRunOnce] true and
    [requestCleanup] makes [isCleanupRequested] true; and the note read back
    is the note given, an absent or empty note being replaced by the default
    note of the transition: [Agent paused], [Starting continuous mode],
    [Agent terminated], [Single run requested], [Cleanup session
    requested]. *)
Theorem state_transitions_take_effect now later note m disk :
  (readsBack (writtenState now
                (bothStates "pause" (orElse note "Agent paused")) m disk) →
   shouldPause later m (pause now note m disk) = true
   ∧ shouldContinue later m (pause now note m disk) = false
   ∧ noteOf (readState later m (pause now note m disk))
     = Some (JStr (noteOrDefault note "Agent paused")))
  ∧ (readsBack (writtenState now
                  (bothStates "continuous"
                     (orElse note "Starting continuous mode")) m disk) →
     shouldContinue later m (startContinuous now note m disk) = true
     ∧ shouldPause later m (startContinuous now note m disk) = false
     ∧ noteOf (readState later m (startContinuous now note m disk))
       = Some (JStr (noteOrDefault note "Starting continuous mode")))
  ∧ (readsBack (writtenState now
                  (bothStates "terminated" (orElse note "Agent terminated"))
                  m disk) →
     shouldPause later m (terminate now note m disk) = true
     ∧ noteOf (readState later m (terminate now note m disk))
       = Some (JStr (noteOrDefault note "Agent terminated")))
  ∧ (readsBack (writtenState now
                  (desiredState "run_once"
                     (orElse note "Single run requested")) m disk) →
     isRunOnce later m (requestRunOnce now note m disk) = true
     ∧ shouldPause later m (requestRunOnce now note m disk) = false
     ∧ noteOf (readState later m (requestRunOnce now note m disk))
       = Some (JStr (noteOrDefault note "Single run requested")))
  ∧ (readsBack (writtenState now
                  (desiredState "run_cleanup"
                     (orElse note "Cleanup session requested")) m disk) →
     isCleanupRequested later m (requestCleanup now note m disk) = true
     ∧ shouldPause later m (requestCleanup now note m disk) = false
     ∧ noteOf (readState later m (requestCleanup now note m disk))
       = Some (JStr (noteOrDefault note "Cleanup session requested"))).
Proof.
  assert (∀ name, name ∈ VALID_STATES ↔
                  name = "continuous" ∨ name = "run_once"
                  ∨ name = "run_cleanup" ∨ name = "pause"
                  ∨ name = "terminated") as Hvalid.
  { intros name. unfold VALID_STATES.
    rewrite !elem_of_cons, elem_of_nil. tauto. }
  repeat split; intros;
    unfold shouldPause, shouldContinue, isRunOnce, isCleanupRequested,
           pause, startContinuous, terminate, requestRunOnce, requestCleanup.
  all: match goal with
       | Hback : readsBack (writtenState _ ?u _ _) |- _ =>
           match eval cbv in (u_desired_state u) with
           | Some ?name =>
               destruct (desiredIs_after_write now later u m disk name)
                 as [Hyes Hno]; [done|apply Hvalid; tauto|done|done|]
           end
       end.
  all: try (rewrite ?Hyes, ?Hno by done; done).
  all: match goal with
       | Hback : readsBack (writtenState _ ?u _ _) |- noteOf _ = _ =>
           by apply (note_after_write now later u m disk)
       end.
Qed.

End AgentStateWrites.

Lemma writeState_keeps_states_valid_witness :
  ∃ new,
    writtenState (JSON0 := Samples.stateCodec) Samples.stamp
      (StateManager.desiredState "bogus" "try") (StateManager.new "/p")
      Samples.scenarioD = StateManager.JObj new
    ∧ StateManager.field "desired_state" new = Some (StateManager.JStr "pause").
Proof.
  destruct (writeState_keeps_states_valid (JSON0 := Samples.stateCodec)
              Samples.stamp (StateManager.desiredState "bogus" "try")
              (StateManager.new "/p") Samples.scenarioD)
    as (cur & new & Hread & Hnew & _ & _ & Hkept & _).
  - discriminate.
  - discriminate.
  - exists new. split; [exact Hnew|].
    rewrite (Hkept "bogus" eq_refl).
    + vm_compute in Hread. injection Hread as <-. reflexivity.
    + vm_compute. intros Hin.
      repeat (apply elem_of_cons in Hin as [Hin|Hin]; [discriminate Hin|]).
      by apply elem_of_nil in Hin.
Defined.

Lemma state_predicates_partition_witness :
  StateManager.shouldPause (JSON0 := Samples.stateCodec) Samples.stamp
    (StateManager.new "/p") ∅ = true.
Proof.
  destruct (state_predicates_partition (JSON0 := Samples.stateCodec)
              Samples.stamp (StateManager.new "/p") ∅) as [_ Hbad].
  destruct Hbad as [Hpause _]; [exact I|exact Hpause].
Defined.

Lemma readState_after_writeState_witness :
  StateManager.readState (JSON0 := Samples.pausedCodec) "2025-01-03T00:00:00.000Z"
    (StateManager.new "/p")
    (StateManager.writeState (JSON0 := Samples.pausedCodec) Samples.stamp
       (StateManager.bothStates "pause" "Agent paused")
       (StateManager.new "/p") ∅)
  = Return (writtenState (JSON0 := Samples.pausedCodec) Samples.stamp
              (StateManager.bothStates "pause" "Agent paused")
              (StateManager.new "/p") ∅).
Proof.
  apply (readState_after_writeState (JSON0 := Samples.pausedCodec)
           Samples.stamp "2025-01-03T00:00:00.000Z"
           (StateManager.bothStates "pause" "Agent paused")
           (StateManager.new "/p") ∅).
  - discriminate.
  - discriminate.
  - reflexivity.
Defined.

Lemma state_transitions_take_effect_witness :
  StateManager.shouldPause (JSON0 := Samples.pausedCodec)
    "2025-01-03T00:00:00.000Z" (StateManager.new "/p")
    (StateManager.pause (JSON0 := Samples.pausedCodec) Samples.stamp None
       (StateManager.new "/p") ∅) = true
  ∧ noteOf
      (StateManager.readState (JSON0 := Samples.pausedCodec)
         "2025-01-03T00:00:00.000Z" (StateManager.new "/p")
         (StateManager.pause (JSON0 := Samples.pausedCodec) Samples.stamp None
            (StateManager.new "/p") ∅))
    = Some (StateManager.JStr "Agent paused").
Proof.
  destruct (state_transitions_take_effect (JSON0 := Samples.pausedCodec)
              Samples.stamp "2025-01-03T00:00:00.000Z" None
              (StateManager.new "/p") ∅) as [Hpause _].
  destruct Hpause as (Hyes & _ & Hnote); [reflexivity|].
  split; [exact Hyes|exact Hnote].
Defined.

(** ** The test ledger: the other operations *)

Section TestLedgerOperations.
Import TestManager.
Context `{!JSON TestSuite}.

Lemma find_first_index {A} (P : A → bool) (l : list A) :
  match List.find P l with
  | Some x => ∃ i, l !! i = Some x ∧ P x = true
                   ∧ ∀ j y, l !! j = Some y → (j < i)%nat → P y = false
  | None => ∀ y, y ∈ l → P y = false
  end.
Proof.
  induction l as [|a l IH]; simpl.
  - intros y Hy. by apply elem_of_nil in Hy.
  - destruct (P a) eqn:Pa.
    + exists 0%nat. split; [done|]. split; [done|]. intros j y _ Hj. lia.
    + destruct (List.find P l) as [x|].
      * destruct IH as (i & Hi & Px & Hbefore).
        exists (S i). split; [done|]. split; [done|].
        intros [|j] y Hy Hj; simpl in Hy; [congruence|].
        apply (Hbefore j); [done|lia].
      * intros y [->|Hy]%elem_of_cons; [done|by apply IH].
Qed.

(** The scan of [getNextTest] over the tests of a suite. *)
Lemma firstByPriority_least (ts : list TestCase) :
  match firstByPriority [critical; high; medium; low]
          (List.filter (fun t => negb (passes t)) ts) with
  | None => ∀ t, t ∈ ts → passes t = true
  | Some t =>
      ∃ i, ts !! i = Some t ∧ passes t = false
           ∧ ∀ j t', ts !! j = Some t' → passes t' = false →
                     (priorityRank (priority t) < priorityRank (priority t'))%nat
                     ∨ (priority t = priority t' ∧ (i ≤ j)%nat)
  end.
Proof.
  assert (∀ p, match List.find (fun t => bool_decide (priority t = p))
                       (List.filter (fun t => negb (passes t)) ts) with
               | Some t => ∃ i, ts !! i = Some t ∧ passes t = false
                                ∧ priority t = p
                                ∧ ∀ j t', ts !! j = Some t' → (j < i)%nat →
                                          passes t' = false → priority t' ≠ p
               | None => ∀ t, t ∈ ts → passes t = false → priority t ≠ p
               end) as Hscan.
  { intros p. rewrite find_filter.
    pose proof (find_first_index
                  (fun t => negb (passes t) && bool_decide (priority t = p)) ts)
      as Hfind.
    destruct (List.find _ ts) as [t|].
    - destruct Hfind as (i & Hi & [Hp Hq]%andb_prop & Hbefore).
      exists i. split; [done|]. split; [by apply negb_true_iff|].
      split; [by apply bool_decide_eq_true in Hq|].
      intros j t' Hj Hlt Hp' Hq'. specialize (Hbefore j t' Hj Hlt).
      rewrite Hp', Hq' in Hbefore. simpl in Hbefore.
      by rewrite bool_decide_eq_true_2 in Hbefore.
    - intros t Hin Hp' Hq'. specialize (Hfind t Hin).
      rewrite Hp', Hq' in Hfind. simpl in Hfind.
      by rewrite bool_decide_eq_true_2 in Hfind. }
  simpl.
  pose proof (Hscan critical) as Hc. pose proof (Hscan high) as Hh.
  pose proof (Hscan medium) as Hm. pose proof (Hscan low) as Hl.
  assert (∀ i t p,
            ts !! i = Some t → passes t = false → priority t = p →
            (∀ j t', ts !! j = Some t' → (j < i)%nat →
                     passes t' = false → priority t' ≠ p) →
            (∀ t', t' ∈ ts → passes t' = false →
                   (priorityRank (priority t') < priorityRank p)%nat → False) →
            ∃ i, ts !! i = Some t ∧ passes t = false
                 ∧ ∀ j t', ts !! j = Some t' → passes t' = false →
                           (priorityRank (priority t) < priorityRank (priority t'))%nat
                           ∨ (priority t = priority t' ∧ (i ≤ j)%nat)) as Hpick.
  { intros i t p Hi Hp Hq Hbefore Hlower. exists i. split; [done|]. split; [done|].
    intros j t' Hj Hp'. rewrite Hq.
    destruct (decide (priorityRank p < priorityRank (priority t'))%nat);
      [by left|].
    destruct (decide (priority t' = p)) as [Heq|Hne].
    - right. split; [done|].
      destruct (decide (i ≤ j)%nat); [done|].
      exfalso. apply (Hbefore j t' Hj); [lia|done|done].
    - exfalso. apply (Hlower t'); [by eapply list_elem_of_lookup_2|done|].
      destruct p, (priority t'); simpl in *; try lia; done. }
  destruct (List.find _ _) as [t|].
  { destruct Hc as (i & Hi & Hp & Hq & Hbefore).
    apply (Hpick i t critical); try done. simpl. intros; lia. }
  destruct (List.find _ _) as [t|].
  { destruct Hh as (i & Hi & Hp & Hq & Hbefore).
    apply (Hpick i t high); try done. intros t' Hin Hp' Hr.
    apply (Hc t' Hin Hp'). destruct (priority t'); simpl in *; done || lia. }
  destruct (List.find _ _) as [t|].
  { destruct Hm as (i & Hi & Hp & Hq & Hbefore).
    apply (Hpick i t medium); try done. intros t' Hin Hp' Hr.
    destruct (priority t') eqn:E; simpl in *; try lia.
    - by apply (Hc t' Hin Hp').
    - by apply (Hh t' Hin Hp'). }
  destruct (List.find _ _) as [t|].
  { destruct Hl as (i & Hi & Hp & Hq & Hbefore).
    apply (Hpick i t low); try done. intros t' Hin Hp' Hr.
    destruct (priority t') eqn:E; simpl in *; try lia.
    - by apply (Hc t' Hin Hp').
    - by apply (Hh t' Hin Hp').
    - by apply (Hm t' Hin Hp'). }
  intros t Hin. destruct (passes t) eqn:Hp; [done|]. exfalso.
  destruct (priority t) eqn:E.
  - by apply (Hc t Hin Hp). - by apply (Hh t Hin Hp).
  - by apply (Hm t Hin Hp). - by apply (Hl t Hin Hp).
Qed.

(** X11 — [getNextTest] returns null exactly when no test of the loaded
    suite is failing; otherwise it returns a failing test of the most urgent
    priority that has a failing test (critical, high, medium, low), the
    first such test in file order. *)
Theorem getNextTest_most_urgent now m disk :
  let suite := (loadSuite now m disk).1 in
  match (getNextTest now m disk).1 with
  | None => ∀ t, t ∈ tests suite → passes t = true
  | Some t =>
      ∃ i, tests suite !! i = Some t ∧ passes t = false
           ∧ ∀ j t', tests suite !! j = Some t' → passes t' = false →
                     (priorityRank (priority t) < priorityRank (priority t'))%nat
                     ∨ (priority t = priority t' ∧ (i ≤ j)%nat)
  end.
Proof.
  unfold getNextTest. destruct (loadSuite now m disk) as [suite disk'].
  cbn [fst].
  pose proof (firstByPriority_least (tests suite)) as Hscan.
  case_bool_decide as Hlen.
  - apply nil_length_inv in Hlen. rewrite Hlen in Hscan. exact Hscan.
  - destruct (firstByPriority _ _) as [t|] eqn:Hfirst; cbn [fst]; [done|].
    destruct (List.filter _ (tests suite)) as [|t rest] eqn:Hfilter; [done|].
    exfalso. assert (t ∈ List.filter (fun t => negb (passes t)) (tests suite))
      as Hin by (rewrite Hfilter; left).
    apply list_elem_of_In, List.filter_In in Hin as [Hin Hp].
    apply list_elem_of_In in Hin. rewrite (Hscan t Hin) in Hp. done.
Qed.

Lemma saveSuite_file now suite m disk :
  (saveSuite now suite m disk).2 !! testsFilePath m
  = Some (JSON_stringify (saveSuite now suite m disk).1).
Proof.
  unfold saveSuite, renameSync, writeFileSync. simpl.
  rewrite lookup_insert_eq. apply lookup_insert_eq.
Qed.

(** X12 — [addTest] appends: the test it returns is failing and carries the
    generated id; the suite it leaves in [tests.json] is the loaded suite
    with that test added at the end, every earlier test unchanged, and
    counters that count the new test as failing.  On a ledger that is absent
    or is not JSON the new test is the only one. *)
Theorem addTest_appends_failing now timestamp random test m disk :
  let suite := (loadSuite now m disk).1 in
  let '(newTest, disk') := addTest now timestamp random test m disk in
  passes newTest = false
  ∧ id newTest = generateTestId timestamp random (category test)
  ∧ ∃ saved,
      disk' !! testsFilePath m = Some (JSON_stringify saved)
      ∧ tests saved = (tests suite ++ [newTest])%list
      ∧ total_tests saved = S (length (tests suite))
      ∧ passed_tests saved = length (List.filter passes (tests suite))
      ∧ (ledgerUnusable m disk → tests saved = [newTest]).
Proof.
  unfold addTest.
  pose proof (loadSuite_unusable now m disk) as Hbad.
  rewrite initialize_disk in Hbad.
  destruct (loadSuite now m disk) as [suite disk1]. cbn [fst].
  match goal with |- context [saveSuite now ?s m disk1] =>
    pose proof (saveSuite_file now s m disk1) as Hfile;
    destruct (saveSuite now s m disk1) as [saved disk'] eqn:Hsave end.
  split; [done|]. split; [done|]. exists saved. split; [done|].
  unfold saveSuite in Hsave. injection Hsave as <- _. simpl.
  split; [done|]. split.
  { rewrite length_app. simpl. lia. }
  split.
  { rewrite List.filter_app, length_app. simpl. lia. }
  intros Hunusable. specialize (Hbad Hunusable). by injection Hbad as -> _.
Qed.

(** X13 — [markTestFailing] resets a test without forgetting its evidence:
    on a readable ledger, the test found gets [passes = false], no
    verification time and the reason as its notes ([Marked as failing] when
    the reason is absent or empty), while its screenshot and console-log
    paths stay as they were; the other tests are unchanged and the stored
    counter is the recount.  An unknown id returns [false] and writes
    nothing. *)
Theorem markTestFailing_resets now testId reason m disk text suite :
  disk !! testsFilePath m = Some text →
  JSON_parse text = Some suite →
  (list_find (fun t => id t = testId) (tests suite) = None →
   markTestFailing now testId reason m disk = (false, disk))
  ∧ (∀ i test,
       list_find (fun t => id t = testId) (tests suite) = Some (i, test) →
       ∃ disk' saved test',
         markTestFailing now testId reason m disk = (true, disk')
         ∧ disk' !! testsFilePath m = Some (JSON_stringify saved)
         ∧ tests saved !! i = Some test'
         ∧ (∀ j, j ≠ i → tests saved !! j = tests suite !! j)
         ∧ passes test' = false
         ∧ verified_at test' = None
         ∧ screenshot_path test' = screenshot_path test
         ∧ console_log_path test' = console_log_path test
         ∧ notes test' = Some (noteOrDefault reason "Marked as failing")
         ∧ passed_tests saved = length (List.filter passes (tests saved))).
Proof.
  intros Hfile Hparse.
  pose proof (loadSuite_present now m disk text suite Hfile Hparse) as Hload.
  unfold markTestFailing. rewrite Hload. split.
  - by intros ->.
  - intros i test Hfind. rewrite Hfind.
    match goal with |- context [saveSuite now ?s m disk] =>
      pose proof (saveSuite_file now s m disk) as Hsaved;
      destruct (saveSuite now s m disk) as [saved disk'] eqn:Hsave end.
    apply list_find_Some in Hfind as (Hi & _ & _).
    exists disk', saved, (fail reason test).
    split; [done|]. split; [done|].
    unfold saveSuite in Hsave. injection Hsave as <- _. simpl.
    split. { apply list_lookup_insert_eq. by eapply lookup_lt_Some. }
    split. { intros j Hj. by apply list_lookup_insert_ne. }
    repeat split; done.
Qed.

Lemma duplicateIssues_nil seen (ts : list TestCase) :
  duplicateIssues seen ts = []
  ↔ NoDup (map id ts) ∧ ∀ t, t ∈ ts → id t ∉ seen.
Proof.
  revert seen. induction ts as [|t ts IH]; intros seen; simpl.
  - split; [|done]. intros _. split; [constructor|].
    intros t Ht. by apply elem_of_nil in Ht.
  - rewrite NoDup_cons. case_bool_decide as Hseen; simpl.
    + split; [done|]. intros [_ Hall]. destruct (Hall t); [by left|done].
    + rewrite IH. split.
      * intros [Hnd Hall]. split; [split; [|done]|].
        -- intros (t' & Heq & Hin)%list_elem_of_fmap.
           apply (Hall t' Hin). rewrite <- Heq. by left.
        -- intros t' [->|Hin]%elem_of_cons; [done|].
           intros Hin'. apply (Hall t' Hin). by right.
      * intros [[Hfresh Hnd] Hall]. split; [done|].
        intros t' Hin [Heq|Hin']%elem_of_cons.
        -- apply Hfresh. apply list_elem_of_fmap. exists t'. by split.
        -- apply (Hall t'); [by right|done].
Qed.

Lemma mjoin_map_nil {A B} (f : A → list B) (l : list A) :
  mjoin (map f l) = [] ↔ ∀ x, x ∈ l → f x = [].
Proof.
  induction l as [|a l IH]; simpl.
  - split; [|done]. intros _ x Hx. by apply elem_of_nil in Hx.
  - split.
    + intros [Ha Hl]%app_eq_nil x [->|Hx]%elem_of_cons; [done|].
      by apply IH.
    + intros Hall. rewrite (Hall a) by (by left). simpl.
      apply IH. intros x Hx. apply Hall. by right.
Qed.

Lemma missing_false path : missing path = false ↔ ∃ p, path = Some p ∧ p ≠ "".
Proof.
  destruct path as [p|]; simpl.
  - rewrite String.eqb_neq. split; [eauto|]. by intros (? & [= <-] & ?).
  - split; [done|]. by intros (? & ? & _).
Qed.

(** X14 — [validate] accepts a ledger exactly when its ids are distinct,
    every test has a description and at least one step, and every passing
    test records a screenshot path and a console-log path. *)
Theorem validate_accepts_sound_ledgers now m disk :
  let suite := (loadSuite now m disk).1 in
  (validate now m disk).1.1 = true ↔ ledgerSound (tests suite).
Proof.
  unfold validate. destruct (loadSuite now m disk) as [suite disk']. cbn [fst].
  rewrite bool_decide_eq_true.
  rewrite length_zero_iff_nil.
  unfold ledgerSound.
  split.
  - intros [Hdup [Hfield Hev]%app_eq_nil]%app_eq_nil.
    apply duplicateIssues_nil in Hdup as [Hnd _].
    split; [done|]. intros t Hin.
    pose proof (proj1 (mjoin_map_nil fieldIssues _) Hfield t Hin) as Hf.
    unfold fieldIssues in Hf. apply app_eq_nil in Hf as [Hdesc Hsteps].
    split.
    { intros Hd. rewrite Hd in Hdesc. done. }
    split.
    { intros Hs. rewrite Hs in Hsteps. done. }
    intros Hp.
    assert (t ∈ List.filter passes (tests suite)) as Hin'.
    { apply list_elem_of_In, List.filter_In. split; [by apply list_elem_of_In|done]. }
    pose proof (proj1 (mjoin_map_nil evidenceIssues _) Hev t Hin') as He.
    unfold evidenceIssues in He. apply app_eq_nil in He as [Hshot Hlog].
    split; apply missing_false.
    + by destruct (missing (screenshot_path t)).
    + by destruct (missing (console_log_path t)).
  - intros [Hnd Hall].
    assert (duplicateIssues [] (tests suite) = []) as ->.
    { apply duplicateIssues_nil. split; [done|]. intros t _ Hin.
      by apply elem_of_nil in Hin. }
    assert (mjoin (map fieldIssues (tests suite)) = []) as ->.
    { apply mjoin_map_nil. intros t Hin.
      destruct (Hall t Hin) as (Hd & Hs & _). unfold fieldIssues.
      apply String.eqb_neq in Hd. rewrite Hd.
      rewrite bool_decide_eq_false_2; [done|].
      by intros ?%nil_length_inv. }
    simpl. apply mjoin_map_nil. intros t Hin.
    apply list_elem_of_In, List.filter_In in Hin as [Hin Hp].
    apply list_elem_of_In in Hin.
    destruct (Hall t Hin) as (_ & _ & He). destruct (He Hp) as [Hs Hl].
    apply missing_false in Hs, Hl. unfold evidenceIssues. by rewrite Hs, Hl.
Qed.

End TestLedgerOperations.

Lemma markTestFailing_resets_witness :
  ∃ disk' saved test',
    TestManager.markTestFailing (JSON0 := Samples.ledgerCodec) Samples.stamp
      "T1" None (TestManager.new "/p") Samples.scenarioC = (true, disk')
    ∧ disk' !! "/p/tests.json"
      = Some (JSON_stringify (JSON := Samples.ledgerCodec) saved)
    ∧ TestManager.tests saved !! 0%nat = Some test'
    ∧ TestManager.notes test' = Some "Marked as failing".
Proof.
  destruct (markTestFailing_resets (JSON0 := Samples.ledgerCodec) Samples.stamp
              "T1" None (TestManager.new "/p") Samples.scenarioC "ledger"
              Samples.ledger) as [_ Hfound].
  - reflexivity.
  - reflexivity.
  - destruct (Hfound 0%nat (Samples.test "T1"))
      as (disk' & saved & test' & Hrun & Hfile & Htest & _ & _ & _ & _ & _
          & Hnotes & _); [reflexivity|].
    exists disk', saved, test'.
    split; [exact Hrun|]. split; [exact Hfile|]. split; [exact Htest|].
    exact Hnotes.
Defined.

(** ** A sort under any consistent comparator *)

Section SortAny.
Context {A : Type} (compare : A → A → Z).
Hypothesis compare_total : ∀ a b, 0 < compare a b → compare b a ≤ 0.
Hypothesis compare_trans :
  ∀ a b c, compare a b ≤ 0 → compare b c ≤ 0 → compare a c ≤ 0.

Lemma sort_insert_perm x (s : list A) : sort_insert compare x s ≡ₚ x :: s.
Proof.
  induction s as [|y s IH]; simpl; [done|].
  destruct (compare x y <=? 0); [done|].
  rewrite IH. apply Permutation_swap.
Qed.

Lemma sort_perm (l : list A) : sort compare l ≡ₚ l.
Proof.
  induction l as [|x l IH]; simpl; [done|].
  by rewrite sort_insert_perm, IH.
Qed.

Lemma sort_insert_ordered x (s : list A) :
  StronglySorted (fun a b => compare a b ≤ 0) s →
  StronglySorted (fun a b => compare a b ≤ 0) (sort_insert compare x s).
Proof.
  induction 1 as [|y s Hs IH Hy]; simpl.
  - by repeat constructor.
  - destruct (Z.leb_spec (compare x y) 0) as [Hle|Hgt].
    + constructor; [by constructor|].
      constructor; [done|]. eapply Forall_impl; [exact Hy|].
      intros z Hz. by eapply compare_trans.
    + constructor; [done|].
      rewrite sort_insert_perm. constructor; [|done].
      by apply compare_total.
Qed.

Lemma sort_ordered (l : list A) :
  StronglySorted (fun a b => compare a b ≤ 0) (sort compare l).
Proof.
  induction l as [|x l IH]; simpl; [constructor|by apply sort_insert_ordered].
Qed.

Lemma StronglySorted_pairs (R : A → A → Prop) (l : list A) i j x y :
  StronglySorted R l → (i < j)%nat → l !! i = Some x → l !! j = Some y → R x y.
Proof.
  intros Hsorted. revert i j. induction Hsorted as [|a l Hs IH Ha]; intros i j Hij Hi Hj.
  - done.
  - destruct i as [|i], j as [|j]; simpl in *; try lia.
    + injection Hi as <-. rewrite Forall_forall in Ha. apply Ha.
      by eapply list_elem_of_lookup_2.
    + apply (IH i j); [lia|done..].
Qed.

End SortAny.

(** ** The human backlog: the other operations *)

Section HumanBacklogOperations.
Import BacklogManager.
Context `{!JSON (list BacklogItem)}.

Lemma compareItems_total a b : 0 < compareItems a b → compareItems b a ≤ 0.
Proof.
  unfold compareItems.
  destruct (completed a), (completed b), (inProgress a), (inProgress b);
    simpl; try lia;
    rewrite (Z.eqb_sym (votes b) (votes a));
    destruct (Z.eqb_spec (votes a) (votes b)); simpl; lia.
Qed.

Lemma compareItems_trans a b c :
  compareItems a b ≤ 0 → compareItems b c ≤ 0 → compareItems a c ≤ 0.
Proof.
  unfold compareItems.
  destruct (completed a), (completed b), (completed c),
           (inProgress a), (inProgress b), (inProgress c);
    simpl; try lia;
    destruct (Z.eqb_spec (votes a) (votes b)),
             (Z.eqb_spec (votes b) (votes c)),
             (Z.eqb_spec (votes a) (votes c)); simpl; lia.
Qed.

Lemma saveBacklog_file backlog m disk :
  saveBacklog backlog m disk !! backlogFilePath m = Some (JSON_stringify backlog).
Proof.
  unfold saveBacklog, renameSync, writeFileSync.
  rewrite lookup_insert_eq. apply lookup_insert_eq.
Qed.

(** X15 — [sortBacklog] saves a rearrangement of the loaded backlog in which
    no item follows one the comparator ranks after it: every incomplete item
    comes before every completed one and, among items of the same
    completion, every in-progress item comes before the others and, among
    those of the same progress, more votes come first. *)
Theorem sortBacklog_orders m disk :
  ∃ saved,
    sortBacklog m disk !! backlogFilePath m = Some (JSON_stringify saved)
    ∧ saved ≡ₚ loadBacklog m disk
    ∧ ∀ i j x y,
        (i < j)%nat → saved !! i = Some x → saved !! j = Some y →
        compareItems x y ≤ 0
        ∧ (completed x = true → completed y = true)
        ∧ (completed x = completed y →
           inProgress y = true → inProgress x = true)
        ∧ (completed x = completed y → inProgress x = inProgress y →
           votes y ≤ votes x).
Proof.
  exists (sort compareItems (loadBacklog m disk)).
  split; [apply saveBacklog_file|]. split; [apply sort_perm|].
  intros i j x y Hij Hi Hj.
  assert (compareItems x y ≤ 0) as Hle.
  { eapply (StronglySorted_pairs (fun a b => compareItems a b ≤ 0));
      [apply sort_ordered|..]; eauto using compareItems_total, compareItems_trans. }
  split; [done|]. revert Hle. unfold compareItems.
  destruct (completed x), (completed y), (inProgress x), (inProgress y);
    simpl; try lia; try done;
    destruct (Z.eqb_spec (votes x) (votes y)); simpl;
    intros; repeat split; intros; try done; lia.
Qed.

(** What one of [updateStatus], [markBlocked], [addComment] answers. *)
Lemma addressed_item_cases (change : BacklogItem → BacklogItem) itemId m disk
    (run : bool * Disk) :
  run = match list_find (fun i => id i = itemId) (loadBacklog m disk) with
        | None => (false, disk)
        | Some (k, item) =>
            (true, saveBacklog (<[k := change item]> (loadBacklog m disk)) m disk)
        end →
  (∀ item, sameRequest item (change item)) →
  (run.1 = true ↔ ∃ item, item ∈ loadBacklog m disk ∧ id item = itemId)
  ∧ (run.1 = false → run.2 = disk)
  ∧ (run.1 = true →
     ∃ saved, run.2 !! backlogFilePath m = Some (JSON_stringify saved)
              ∧ Forall2 sameRequest (loadBacklog m disk) saved).
Proof.
  intros -> Hchange.
  destruct (list_find _ (loadBacklog m disk)) as [[k item]|] eqn:Hfind; simpl.
  - apply list_find_Some in Hfind as (Hk & Hid & _).
    split; [split; [|done]|split; [done|]].
    + intros _. exists item. split; [by eapply list_elem_of_lookup_2|done].
    + intros _. eexists. split; [apply saveBacklog_file|].
      apply Forall2_same_length_lookup. split; [by rewrite length_insert|].
      intros j old new Hold Hnew.
      destruct (decide (j = k)) as [->|Hne].
      * rewrite list_lookup_insert_eq in Hnew by (by eapply lookup_lt_Some).
        injection Hnew as <-. assert (old = item) as -> by congruence. done.
      * rewrite list_lookup_insert_ne in Hnew by done.
        assert (new = old) as -> by congruence.
        repeat split; done.
  - apply list_find_None in Hfind.
    split; [split; [done|]|split; [done|done]].
    intros (item & Hin & Hid). rewrite Forall_forall in Hfind.
    by destruct (Hfind item Hin).
Qed.

(** X16 — the status and comment operations never delete, reorder or rewrite
    a request: [updateStatus], [markBlocked] and [addComment] answer [true]
    exactly when an item carries the id; on [false] nothing is written; on
    [true] the saved backlog has the same items in the same order, each with
    its id, type, priority, description, details and creation date intact
    and with its earlier comments still first. *)
Theorem backlog_operations_keep_requests now itemId newStatus reason who words
    m disk (run : bool * Disk) :
  run = updateStatus now itemId newStatus m disk
  ∨ run = markBlocked now itemId reason m disk
  ∨ run = addComment now itemId who words m disk →
  (run.1 = true ↔ ∃ item, item ∈ loadBacklog m disk ∧ id item = itemId)
  ∧ (run.1 = false → run.2 = disk)
  ∧ (run.1 = true →
     ∃ saved, run.2 !! backlogFilePath m = Some (JSON_stringify saved)
              ∧ Forall2 sameRequest (loadBacklog m disk) saved).
Proof.
  intros [-> | [-> | ->]].
  - apply (addressed_item_cases
             (fun item => if String.eqb newStatus "done"
                          then set_completed now (set_status newStatus item)
                          else set_status newStatus item)).
    + unfold updateStatus. by destruct (list_find _ _) as [[k item]|].
    + intros item. destruct (String.eqb newStatus "done"); repeat split; done.
  - apply (addressed_item_cases
             (fun item => push_comment
                            {| author := agent; timestamp := now;
                               text := "Blocked: " ++ reason |}
                            (set_status "blocked" item))).
    + unfold markBlocked. by destruct (list_find _ _) as [[k item]|].
    + intros item. repeat split; try done. simpl. by apply prefix_app_r.
  - apply (addressed_item_cases
             (fun item => push_comment
                            {| author := who; timestamp := now; text := words |}
                            item)).
    + unfold addComment. by destruct (list_find _ _) as [[k item]|].
    + intros item. repeat split; try done. simpl. by apply prefix_app_r.
Qed.

End HumanBacklogOperations.

Lemma backlog_operations_keep_requests_witness :
  (BacklogManager.addComment (JSON0 := Samples.backlogCodec) Samples.stamp
     "unknown" BacklogManager.human "hello" (BacklogManager.new "/p")
     Samples.backlogDisk).2 = Samples.backlogDisk.
Proof.
  destruct (backlog_operations_keep_requests (JSON0 := Samples.backlogCodec)
              Samples.stamp "unknown" "blocked" "why" BacklogManager.human
              "hello" (BacklogManager.new "/p") Samples.backlogDisk
              (BacklogManager.addComment (JSON0 := Samples.backlogCodec)
                 Samples.stamp "unknown" BacklogManager.human "hello"
                 (BacklogManager.new "/p") Samples.backlogDisk))
    as (_ & Hfalse & _).
  - right. right. reflexivity.
  - apply Hfalse. reflexivity.
Defined.

(** ** The feature list: generation and the loaded copy *)

Section FeatureGeneration.
Import FeatureManager.
Context `{!JSON FeatureList}.

Local Arguments getNextIncompleteFeature : simpl never.
Local Arguments expandFeature : simpl never.
Local Arguments numbered : simpl never.

Lemma calculatePriority_bounds level :
  10 ≤ calculatePriority level ≤ 100.
Proof.
  unfold calculatePriority.
  destruct (String.eqb level "high"), (String.eqb level "medium"),
           (String.eqb level "low"); lia.
Qed.

Lemma expandFeatures_cons s specs n :
  expandFeatures (s :: specs) n
  = ((expandFeature s n
      ++ (expandFeatures specs (n + length (expandFeature s n))).1)%list,
     (expandFeatures specs (n + length (expandFeature s n))).2).
Proof.
  cbn [expandFeatures]. by destruct (expandFeatures specs _).
Qed.

(** What the expansion of the specified features produces: failing
    features of priority ten or more; one that has dependencies is an
    error-handling feature that depends on one feature of the expansion, of
    lower priority. *)
Lemma expandFeatures_facts specs n :
  (expandFeatures specs n).2 = (n + length (expandFeatures specs n).1)%nat
  ∧ length (expandFeatures specs n).1
    = (length specs
       + length (List.filter
                   (fun s => negb (bool_decide (includeErrorHandling s = Some false)))
                   specs))%nat
  ∧ ∀ f, f ∈ (expandFeatures specs n).1 →
         passes f = false ∧ 10 ≤ priority f
         ∧ ∀ deps, dependencies f = Some deps →
             category f = error_handling
             ∧ ∃ g, g ∈ (expandFeatures specs n).1 ∧ deps = [id g]
                    ∧ priority g < priority f.
Proof.
  revert n. induction specs as [|s specs IH]; intros n.
  - simpl. split; [lia|]. split; [done|]. intros f Hf.
    by apply elem_of_nil in Hf.
  - rewrite expandFeatures_cons. cbn [fst snd].
    specialize (IH (n + length (expandFeature s n))%nat).
    destruct IH as (Hlast & Hlen & Hall).
    pose proof (calculatePriority_bounds (spec_priority s)) as Hp.
    split; [|split].
    + rewrite Hlast, length_app. lia.
    + rewrite length_app, Hlen. unfold expandFeature. cbn [List.filter].
      case_bool_decide as Hopt.
      * rewrite Hopt. simpl. lia.
      * destruct (includeErrorHandling s) as [[|]|]; try done; simpl; lia.
    + intros f [Hf|Hf]%elem_of_app.
      * unfold expandFeature in Hf.
        assert (f = failing (numbered "F" n) (spec_category s)
                      (spec_description s)
                      (match spec_steps s with
                       | Some steps => steps
                       | None => generateDefaultSteps s
                       end)
                      (calculatePriority (spec_priority s)) None
                ∨ f = failing (numbered "F" (n + 1)) error_handling
                        ("Error handling for: " ++ spec_description s)
                        ["Trigger error condition for " ++ spec_name s;
                         "Verify appropriate error message is displayed";
                         "Verify system remains in stable state";
                         "Verify user can recover from error"]
                        (calculatePriority (spec_priority s) + 10)
                        (Some [numbered "F" n])) as [-> | ->].
        { destruct (includeErrorHandling s) as [[|]|];
            repeat (apply elem_of_cons in Hf as [Hf|Hf]; [auto|]);
            by apply elem_of_nil in Hf. }
        -- split; [done|]. split; [simpl; lia|]. done.
        -- split; [done|]. split; [simpl; lia|]. intros deps [= <-].
           split; [done|]. eexists. split.
           ++ apply elem_of_app. left. unfold expandFeature. by left.
           ++ split; [done|]. simpl. lia.
      * destruct (Hall f Hf) as (Hpass & Hprio & Hdeps).
        split; [done|]. split; [done|]. intros deps Hd.
        destruct (Hdeps deps Hd) as (Hcat & g & Hg & Hid & Hlt).
        split; [done|]. exists g. split; [|done].
        apply elem_of_app. by right.
Qed.

Lemma generateInfrastructureFeatures_facts spec n :
  (∃ server rest,
     generateInfrastructureFeatures spec n = server :: rest
     ∧ description server = "Development server starts successfully"
     ∧ id server = numbered "I" n
     ∧ priority server = 1)
  ∧ length (generateInfrastructureFeatures spec n)
    = (3 + (if usesTypescript spec then 1 else 0))%nat
  ∧ ∀ f, f ∈ generateInfrastructureFeatures spec n →
         passes f = false ∧ 1 ≤ priority f ∧ dependencies f = None.
Proof.
  unfold generateInfrastructureFeatures. split; [|split].
  - eexists _, _. simpl. done.
  - destruct (usesTypescript spec); done.
  - intros f Hf. destruct (usesTypescript spec); simpl in Hf;
      repeat (apply elem_of_cons in Hf as [->|Hf]; [simpl; done|]);
      by apply elem_of_nil in Hf.
Qed.

Lemma sort_of_sorted {A} (key : A → Z) (l : list A) :
  StronglySorted (fun a b => key a ≤ key b) l →
  sort (fun a b => key a - key b) l = l.
Proof.
  induction 1 as [|x l Hl IH Hx]; simpl; [done|].
  rewrite IH. destruct l as [|y l]; simpl; [done|].
  apply Forall_cons in Hx as [Hxy _].
  destruct (Z.leb_spec (key x - key y) 0); [done|lia].
Qed.

Lemma filter_all {A} (P : A → bool) (l : list A) :
  (∀ x, x ∈ l → P x = true) → List.filter P l = l.
Proof.
  induction l as [|x l IH]; simpl; [done|]. intros Hall.
  rewrite (Hall x) by left. f_equal. apply IH. intros y Hy. apply Hall. by right.
Qed.

(** The features before the final sort of [generateFeatureList]. *)
Lemma generateFeatureList_unsorted spec :
  ∃ raw,
    generateFeatureList spec = sort byPriority raw
    ∧ raw = ((expandFeatures (spec_features spec) 1).1
             ++ generateInfrastructureFeatures spec
                  (expandFeatures (spec_features spec) 1).2)%list.
Proof.
  unfold generateFeatureList.
  destruct (expandFeatures (spec_features spec) 1) as [feats lastId]. eauto.
Qed.

Lemma generated_features_facts spec f :
  f ∈ generateFeatureList spec →
  passes f = false ∧ 1 ≤ priority f
  ∧ ∀ deps, dependencies f = Some deps →
      category f = error_handling
      ∧ ∃ g, g ∈ generateFeatureList spec ∧ deps = [id g]
             ∧ priority g < priority f.
Proof.
  destruct (generateFeatureList_unsorted spec) as (raw & -> & Hraw).
  rewrite (sort_perm byPriority raw). intros Hf.
  assert (∀ g, g ∈ raw → g ∈ sort byPriority raw) as Hback.
  { intros g Hg. by rewrite (sort_perm byPriority raw). }
  subst raw. apply elem_of_app in Hf as [Hf|Hf].
  - destruct (expandFeatures_facts (spec_features spec) 1) as (_ & _ & Hall).
    destruct (Hall f Hf) as (Hpass & Hprio & Hdeps).
    split; [done|]. split; [lia|]. intros deps Hd.
    destruct (Hdeps deps Hd) as (Hcat & g & Hg & Hid & Hlt).
    split; [done|]. exists g. split; [|done].
    apply Hback, elem_of_app. by left.
  - destruct (generateInfrastructureFeatures_facts spec
                (expandFeatures (spec_features spec) 1).2) as (_ & _ & Hall).
    destruct (Hall f Hf) as (Hpass & Hprio & Hdeps).
    split; [done|]. split; [done|]. intros deps Hd. congruence.
Qed.

Lemma generateFeatureList_sorted spec :
  StronglySorted (fun a b => priority a ≤ priority b) (generateFeatureList spec).
Proof.
  destruct (generateFeatureList_unsorted spec) as (raw & -> & _).
  apply (sort_sorted priority).
Qed.

(** X17 — every feature [generateFeatureList] produces is failing; the list
    is in ascending priority; it holds one feature per specified feature,
    one more for each that does not opt out of error handling, and three or
    four infrastructure features; and a feature with dependencies is an
    error-handling feature whose single dependency is the id of a feature
    placed before it. *)
Theorem generateFeatureList_shape spec :
  Forall (fun f => passes f = false) (generateFeatureList spec)
  ∧ (∀ i j f g, (i < j)%nat →
       generateFeatureList spec !! i = Some f →
       generateFeatureList spec !! j = Some g → priority f ≤ priority g)
  ∧ length (generateFeatureList spec)
    = (length (spec_features spec)
       + length (List.filter
                   (fun s => negb (bool_decide (includeErrorHandling s = Some false)))
                   (spec_features spec))
       + 3 + (if usesTypescript spec then 1 else 0))%nat
  ∧ ∀ i f deps,
      generateFeatureList spec !! i = Some f → dependencies f = Some deps →
      category f = error_handling
      ∧ ∃ j g, (j < i)%nat ∧ generateFeatureList spec !! j = Some g
               ∧ deps = [id g].
Proof.
  split; [|split; [|split]].
  - apply Forall_forall. intros f Hf.
    by apply generated_features_facts in Hf as [Hpass _].
  - intros i j f g Hij Hi Hj.
    by apply (StronglySorted_pairs (fun a b => priority a ≤ priority b)
                (generateFeatureList spec) i j f g
                (generateFeatureList_sorted spec)).
  - destruct (generateFeatureList_unsorted spec) as (raw & -> & ->).
    rewrite (Permutation_length (sort_perm byPriority _)), length_app.
    destruct (expandFeatures_facts (spec_features spec) 1) as (_ & -> & _).
    destruct (generateInfrastructureFeatures_facts spec
                (expandFeatures (spec_features spec) 1).2) as (_ & -> & _).
    lia.
  - intros i f deps Hi Hd.
    destruct (generated_features_facts spec f) as (_ & _ & Hdeps);
      [by eapply list_elem_of_lookup_2|].
    destruct (Hdeps deps Hd) as (Hcat & g & Hg & Hid & Hlt).
    split; [done|]. apply list_elem_of_lookup_1 in Hg as [j Hj].
    exists j, g. split; [|done].
    destruct (decide (j < i)%nat) as [|Hge]; [done|]. exfalso.
    destruct (decide (j = i)) as [->|Hne].
    + assert (f = g) as -> by congruence. lia.
    + assert (priority f ≤ priority g); [|lia].
      apply (StronglySorted_pairs (fun a b => priority a ≤ priority b)
               (generateFeatureList spec) i j f g
               (generateFeatureList_sorted spec)); [lia|done..].
Qed.

(** The generated list opens with the development-server feature. *)
Lemma generateFeatureList_head spec :
  ∃ server rest,
    generateFeatureList spec = server :: rest
    ∧ description server = "Development server starts successfully"
    ∧ id server
      = numbered "I" (1 + length (expandFeatures (spec_features spec) 1).1)
    ∧ priority server = 1
    ∧ dependencies server = None.
Proof.
  destruct (generateFeatureList_unsorted spec) as (raw & Hgen & Hraw).
  destruct (expandFeatures_facts (spec_features spec) 1) as (Hlast & _ & Hexp).
  destruct (generateInfrastructureFeatures_facts spec
              (expandFeatures (spec_features spec) 1).2)
    as ((server & rest & Hinfra & Hdesc & Hid & Hprio) & _ & Hall).
  pose proof (first_sort_filter priority (fun _ => true) raw) as Hfirst.
  rewrite (filter_all (fun _ => true)) in Hfirst by done.
  fold byPriority in Hfirst. rewrite <- Hgen in Hfirst.
  assert (raw !! length (expandFeatures (spec_features spec) 1).1 = Some server)
    as Hserver.
  { rewrite Hraw, Hinfra, lookup_app_r by lia.
    by rewrite Nat.sub_diag. }
  destruct (first (generateFeatureList spec)) as [x|] eqn:Hx.
  - destruct Hfirst as (i & Hi & _ & Hmin).
    assert (x = server) as ->.
    { destruct (decide (i < length (expandFeatures (spec_features spec) 1).1)%nat)
        as [Hlt|Hge].
      - rewrite Hraw, lookup_app_l in Hi by done.
        destruct (Hexp x) as (_ & Hten & _); [by eapply list_elem_of_lookup_2|].
        destruct (Hmin _ _ Hserver eq_refl) as [?|[? ?]]; lia.
      - destruct (Hmin _ _ Hserver eq_refl) as [Hlt|[Heq Hle]].
        + rewrite Hraw, lookup_app_r in Hi by lia.
          destruct (Hall x) as (_ & Hone & _); [by eapply list_elem_of_lookup_2|].
          lia.
        + assert (i = length (expandFeatures (spec_features spec) 1).1) as ->
            by lia.
          congruence. }
    unfold first in Hx. destruct (generateFeatureList spec) as [|y l]; [done|].
    simpl in Hx. injection Hx as ->. exists server, l.
    rewrite Hid, Hlast. split; [done|]. split; [exact Hdesc|].
    split; [reflexivity|]. split; [exact Hprio|].
    destruct (Hall server) as (_ & _ & Hnone); [|done].
    rewrite Hinfra. by left.
  - apply list_elem_of_lookup_2 in Hserver. by specialize (Hfirst _ Hserver).
Qed.

(** X18 — on a project just initialised (the generated list saved, as
    [initializeProject] does), [getNextIncompleteFeature] selects the
    development-server feature, whatever the specification asks for: the
    infrastructure feature numbered right after the specified ones, of
    priority 1, which is also the first feature of the generated list. *)
Theorem fresh_list_starts_with_the_server now spec m disk :
  ∃ server,
    getNextIncompleteFeature
      (saveFeatureList now (generateFeatureList spec) m disk).1
      (saveFeatureList now (generateFeatureList spec) m disk).2
    = (Return (Some server),
       (saveFeatureList now (generateFeatureList spec) m disk).1)
    ∧ description server = "Development server starts successfully"
    ∧ id server
      = numbered "I" (1 + length (expandFeatures (spec_features spec) 1).1)
    ∧ priority server = 1
    ∧ first (generateFeatureList spec) = Some server.
Proof.
  destruct (generateFeatureList_head spec)
    as (server & rest & Hhead & Hdesc & Hid & Hprio & Hdeps).
  exists server. split; [|by rewrite Hhead].
  unfold saveFeatureList. simpl.
  erewrite getNextIncompleteFeature_value; [|by apply loadFeatureList_hit].
  cbn [features]. rewrite (filter_all (fun f => negb (passes f))).
  - unfold byPriority. rewrite (sort_of_sorted priority)
      by apply generateFeatureList_sorted.
    rewrite Hhead. simpl. unfold dependenciesMet at 1. by rewrite Hdeps.
  - intros f Hf. apply generated_features_facts in Hf as (-> & _). done.
Qed.

Lemma find_by_id featureId (feats : list Feature) i f :
  list_find (fun f => id f = featureId) feats = Some (i, f) →
  List.find (fun f => String.eqb (id f) featureId) feats = Some f.
Proof.
  revert i. induction feats as [|g feats IH]; intros i; [done|].
  cbn [list_find List.find]. case_decide as Hg.
  - intros [= <- <-]. by rewrite (proj2 (String.eqb_eq _ _) Hg).
  - destruct (String.eqb_spec (id g) featureId) as [|_]; [done|].
    destruct (list_find _ feats) as [[j h]|]; [|done].
    intros [= <- <-]. by apply (IH j).
Qed.

Lemma find_by_id_insert featureId (feats : list Feature) i f c :
  list_find (fun f => id f = featureId) feats = Some (i, f) →
  id c = featureId →
  List.find (fun f => String.eqb (id f) featureId) (<[i := c]> feats) = Some c.
Proof.
  revert i. induction feats as [|g feats IH]; intros i; [done|].
  cbn [list_find]. case_decide as Hg.
  - intros [= <- <-] Hc. simpl. by rewrite (proj2 (String.eqb_eq _ _) Hc).
  - destruct (list_find _ feats) as [[j h]|]; [|done].
    intros [= <- <-] Hc. simpl.
    destruct (String.eqb_spec (id g) featureId) as [|_]; [done|].
    by apply IH.
Qed.

Lemma selection_none (l : FeatureList) (incomplete : list Feature) :
  match List.find (dependenciesMet l) incomplete with
  | Some f => Some f
  | None => first incomplete
  end = None ↔ incomplete = [].
Proof.
  destruct incomplete as [|h hs]; simpl; [done|].
  destruct (dependenciesMet l h); [done|]. by destruct (List.find _ hs).
Qed.

Lemma incomplete_after_completion (feats : list Feature) i f c :
  feats !! i = Some f → passes c = true →
  length (List.filter (fun f => negb (passes f)) feats)
  = (length (List.filter (fun f => negb (passes f)) (<[i := c]> feats))
     + (if passes f then 0 else 1))%nat.
Proof.
  revert i. induction feats as [|g feats IH]; intros [|i] Hi Hc; try done;
    simpl in *.
  - injection Hi as ->. rewrite Hc. simpl. destruct (passes f); simpl; lia.
  - destruct (passes g); simpl; rewrite (IH i Hi Hc); lia.
Qed.

(** X19 — once a manager holds a loaded list it never reads the file again:
    its queries and the outcome of [markFeatureComplete] are the same on
    every disk, so a list saved by another manager (the orchestrator and the
    coordinator each own one) or an edit of the file is not seen; the count
    of incomplete features is the one of the held list. *)
Theorem loaded_list_is_not_reread l now featureId vsteps m disk disk' :
  featureList m = Some l →
  getNextIncompleteFeature m disk = getNextIncompleteFeature m disk'
  ∧ getFeature featureId m disk = getFeature featureId m disk'
  ∧ (markFeatureComplete now featureId vsteps m disk).1
    = (markFeatureComplete now featureId vsteps m disk').1
  ∧ getIncompleteFeatureCount m disk = getIncompleteFeatureCount m disk'
  ∧ getIncompleteFeatureCount m disk
    = (Return (length (List.filter (fun f => negb (passes f)) (features l))), m).
Proof.
  intros Hm.
  pose proof (loadFeatureList_hit m disk l Hm) as Hload.
  pose proof (loadFeatureList_hit m disk' l Hm) as Hload'.
  split; [|split; [|split; [|split]]].
  - by rewrite (getNextIncompleteFeature_value m disk l m Hload),
      (getNextIncompleteFeature_value m disk' l m Hload').
  - unfold getFeature. by rewrite Hload, Hload'.
  - unfold markFeatureComplete. rewrite Hload, Hload'.
    destruct (list_find _ (features l)) as [[i f]|]; [|done].
    by destruct (negb (forallb passed vsteps)).
  - unfold getIncompleteFeatureCount. by rewrite Hload, Hload'.
  - unfold getIncompleteFeatureCount. by rewrite Hload.
Qed.

(** X20 — after [markFeatureComplete] returns, the manager answers
    accordingly: [getFeature] finds the feature passing, the count of
    incomplete features has dropped by one if the feature was failing and
    is unchanged if it was passing already, and [getNextIncompleteFeature]
    answers null exactly when that count is zero. *)
Theorem markFeatureComplete_then_queries now featureId vsteps m disk m' disk' :
  markFeatureComplete now featureId vsteps m disk = (Return tt, m', disk') →
  ∃ before after remaining,
    (getFeature featureId m disk).1 = Return (Some before)
    ∧ getFeature featureId m' disk' = (Return (Some after), m')
    ∧ passes after = true
    ∧ (getIncompleteFeatureCount m disk).1
      = Return (remaining + (if passes before then 0 else 1))%nat
    ∧ getIncompleteFeatureCount m' disk' = (Return remaining, m')
    ∧ (remaining = 0%nat
       ↔ getNextIncompleteFeature m' disk' = (Return None, m')).
Proof.
  unfold markFeatureComplete.
  destruct (loadFeatureList m disk) as [[l|err] m0] eqn:Hload; [|done].
  destruct (list_find _ (features l)) as [[i f]|] eqn:Hfind; [|done].
  destruct (negb (forallb passed vsteps)); [done|].
  unfold saveFeatureList. intros [= <- <-].
  set (feats := <[i := complete now vsteps f]> (features l)).
  match goal with |- context [set_featureList m0 ?l'] => set (saved := l') end.
  assert (loadFeatureList (set_featureList m0 saved)
            (writeFileSync disk (featureListPath m0) (JSON_stringify saved))
          = (Return saved, set_featureList m0 saved)) as Hsaved
    by by apply loadFeatureList_hit.
  pose proof Hfind as Hi. apply list_find_Some in Hi as (Hi & Hid & _).
  exists f, (complete now vsteps f),
    (length (List.filter (fun f => negb (passes f)) feats)).
  split; [|split; [|split; [|split; [|split]]]].
  - unfold getFeature. rewrite Hload. simpl. f_equal. by eapply find_by_id.
  - unfold getFeature. rewrite Hsaved. do 2 f_equal.
    by apply (find_by_id_insert featureId (features l) i f).
  - done.
  - unfold getIncompleteFeatureCount. rewrite Hload. simpl. f_equal.
    by apply incomplete_after_completion.
  - unfold getIncompleteFeatureCount. by rewrite Hsaved.
  - rewrite (getNextIncompleteFeature_value _ _ saved _ Hsaved). cbv zeta.
    split.
    + intros Hzero. do 2 f_equal. apply selection_none, nil_length_inv.
      rewrite (Permutation_length (sort_perm byPriority _)). exact Hzero.
    + intros [= Hnone]. apply selection_none in Hnone.
      apply (f_equal length) in Hnone.
      rewrite (Permutation_length (sort_perm byPriority _)) in Hnone.
      exact Hnone.
Qed.

End FeatureGeneration.

Lemma loaded_list_is_not_reread_witness :
  FeatureManager.getIncompleteFeatureCount (JSON0 := Samples.featureCodec)
    (FeatureManager.set_featureList (FeatureManager.new "/p") Samples.scenarioA)
    ∅
  = (Return 2%nat,
     FeatureManager.set_featureList (FeatureManager.new "/p") Samples.scenarioA).
Proof.
  destruct (loaded_list_is_not_reread (JSON0 := Samples.featureCodec)
              Samples.scenarioA "2025-01-02T00:00:00.000Z" "F1" []
              (FeatureManager.set_featureList (FeatureManager.new "/p")
                 Samples.scenarioA)
              ∅ Samples.projectDisk) as (_ & _ & _ & _ & Hcount).
  - reflexivity.
  - exact Hcount.
Defined.

Lemma markFeatureComplete_then_queries_witness :
  ∃ after,
    (FeatureManager.getFeature (JSON0 := Samples.featureCodec) "F1"
       (FeatureManager.markFeatureComplete (JSON0 := Samples.featureCodec)
          "2025-01-02T00:00:00.000Z" "F1" []
          (FeatureManager.new "/p") Samples.projectDisk).1.2
       (FeatureManager.markFeatureComplete (JSON0 := Samples.featureCodec)
          "2025-01-02T00:00:00.000Z" "F1" []
          (FeatureManager.new "/p") Samples.projectDisk).2).1
    = Return (Some after)
    ∧ FeatureManager.passes after = true.
Proof.
  destruct (markFeatureComplete_then_queries (JSON0 := Samples.featureCodec)
              "2025-01-02T00:00:00.000Z" "F1" []
              (FeatureManager.new "/p") Samples.projectDisk
              (FeatureManager.markFeatureComplete (JSON0 := Samples.featureCodec)
                 "2025-01-02T00:00:00.000Z" "F1" []
                 (FeatureManager.new "/p") Samples.projectDisk).1.2
              (FeatureManager.markFeatureComplete (JSON0 := Samples.featureCodec)
                 "2025-01-02T00:00:00.000Z" "F1" []
                 (FeatureManager.new "/p") Samples.projectDisk).2)
    as (before & after & remaining & _ & Hafter & Hpass & _).
  - vm_compute. reflexivity.
  - exists after. rewrite Hafter. split; [reflexivity|exact Hpass].
Defined.

(** ** The progress snapshot and the coordinator *)

Section ProgressSnapshots.
Import ProgressTracker.

Lemma streak_le (l : list ProgressEntry) : (streak l ≤ length l)%nat.
Proof.
  induction l as [|e l IH]; simpl; [lia|]. destruct (madeProgress e); lia.
Qed.

Lemma streak_split (l : list ProgressEntry) :
  ∃ run rest,
    l = (run ++ rest)%list ∧ length run = streak l
    ∧ Forall (fun e => madeProgress e = true) run
    ∧ ∀ e, head rest = Some e → madeProgress e = false.
Proof.
  induction l as [|e l IH]; simpl.
  - exists [], []. by repeat split.
  - destruct (madeProgress e) eqn:He.
    + destruct IH as (run & rest & -> & Hlen & Hrun & Hrest).
      exists (e :: run), rest. simpl. rewrite Hlen. repeat split; auto.
    + exists [], (e :: l). simpl. repeat split; auto. by intros ? [= <-].
Qed.

Lemma streak_zero (l : list ProgressEntry) :
  streak l = 0%nat ↔ ∀ e, head l = Some e → madeProgress e = false.
Proof.
  destruct l as [|e l]; simpl; [done|].
  destruct (madeProgress e) eqn:He; split; try done.
  - intros Hall. specialize (Hall e eq_refl). congruence.
  - by intros _ ? [= <-].
Qed.

Lemma unique_elem seen items x :
  x ∈ unique seen items ↔ x ∈ items ∧ x ∉ seen.
Proof.
  revert seen. induction items as [|y items IH]; intros seen; simpl.
  - rewrite elem_of_nil. tauto.
  - case_bool_decide as Hy.
    + rewrite IH, elem_of_cons. split; [tauto|].
      intros [[->|Hx] Hseen]; [done|tauto].
    + rewrite !elem_of_cons, IH, elem_of_cons.
      destruct (decide (x = y)) as [->|Hne]; tauto.
Qed.

Lemma unique_NoDup seen items : NoDup (unique seen items).
Proof.
  revert seen. induction items as [|y items IH]; intros seen; simpl.
  - constructor.
  - case_bool_decide as Hy; [apply IH|].
    constructor; [|apply IH]. rewrite unique_elem, elem_of_cons. tauto.
Qed.

Lemma collectIssues_elem entries issue :
  issue ∈ collectIssues entries
  ↔ ∃ e issues, e ∈ entries ∧ issuesEncountered e = Some issues
                ∧ issue ∈ issues.
Proof.
  unfold collectIssues. induction entries as [|e entries IH]; simpl.
  - split; [by intros ?%elem_of_nil|]. by intros (e & ? & ?%elem_of_nil & _).
  - rewrite elem_of_app, IH. split.
    + intros [Hhere|(e' & issues & Hin & Hop & Hissue)].
      * destruct (issuesEncountered e) as [issues|] eqn:Hop;
          [|by apply elem_of_nil in Hhere].
        exists e, issues. split; [by left|done].
      * exists e', issues. split; [by right|done].
    + intros (e' & issues & [->|Hin]%elem_of_cons & Hop & Hissue).
      * left. by rewrite Hop.
      * right. eauto.
Qed.

(** X21 — the snapshot [getCurrentProgress] computes from the logged
    entries: the streak and the number of completed features never exceed
    the number of sessions; the recent progress is the last five entries (all
    of them when fewer) in log order; the streak is the length of the longest
    run of entries that made progress at the end of the log, so it is zero
    exactly when the log is empty or its last entry made none; and the
    blocked issues are the issues of all entries without repetition. *)
Theorem getCurrentProgress_snapshot entries :
  (currentStreak (getCurrentProgress entries) ≤ length entries)%nat
  ∧ (totalFeaturesCompleted (getCurrentProgress entries) ≤ length entries)%nat
  ∧ totalSessions (getCurrentProgress entries) = length entries
  ∧ (∃ older,
       entries = (older ++ recentProgress (getCurrentProgress entries))%list
       ∧ length (recentProgress (getCurrentProgress entries))
         = min 5 (length entries))
  ∧ (∃ older run,
       entries = (older ++ run)%list
       ∧ length run = currentStreak (getCurrentProgress entries)
       ∧ Forall (fun e => madeProgress e = true) run
       ∧ ∀ e, last older = Some e → madeProgress e = false)
  ∧ (currentStreak (getCurrentProgress entries) = 0%nat
     ↔ ∀ e, last entries = Some e → madeProgress e = false)
  ∧ NoDup (blockedIssues (getCurrentProgress entries))
  ∧ ∀ issue,
      issue ∈ blockedIssues (getCurrentProgress entries)
      ↔ ∃ e issues, e ∈ entries ∧ issuesEncountered e = Some issues
                    ∧ issue ∈ issues.
Proof.
  unfold getCurrentProgress. cbn [currentStreak totalFeaturesCompleted
    totalSessions recentProgress blockedIssues].
  split; [|split; [|split; [|split; [|split; [|split; [|split]]]]]].
  - pose proof (streak_le (reverse entries)) as Hle.
    by rewrite length_reverse in Hle.
  - induction entries as [|e entries IH]; simpl; [lia|].
    destruct (completedFeature e); simpl; lia.
  - done.
  - exists (take (length entries - 5) entries). unfold lastEntries.
    split; [by rewrite take_drop|]. rewrite length_drop. lia.
  - destruct (streak_split (reverse entries))
      as (run & rest & Hsplit & Hlen & Hrun & Hrest).
    exists (reverse rest), (reverse run).
    split; [|split; [|split]].
    + rewrite <- reverse_app, <- Hsplit. by rewrite reverse_involutive.
    + by rewrite length_reverse.
    + by apply Forall_reverse.
    + intros e He. apply Hrest. by rewrite last_reverse in He.
  - by rewrite streak_zero, head_reverse.
  - apply unique_NoDup.
  - intros issue. rewrite unique_elem, collectIssues_elem.
    rewrite elem_of_nil. tauto.
Qed.

End ProgressSnapshots.

Section Coordination.
Import AgentCoordinator.
Context `{!JSON FeatureManager.FeatureList}.

Local Arguments FeatureManager.getNextIncompleteFeature : simpl never.

Lemma set_featureManager_same c : set_featureManager c (featureManager c) = c.
Proof. by destruct c. Qed.

(** X22 — the coordinator cannot decide anything without the feature list:
    when its feature manager holds no list and the file is missing,
    [determineProjectPhase], [getNextAgentType] and [createSessionTasks]
    throw the read error and leave the coordinator as it was, whatever the
    progress log holds; in particular the initialization phase is not
    reported for a project with no session yet. *)
Theorem coordinator_needs_the_feature_list newId now entries c disk :
  FeatureManager.featureList (featureManager c) = None →
  disk !! FeatureManager.featureListPath (featureManager c) = None →
  ∃ error,
    determineProjectPhase entries c disk = (Throw error, c)
    ∧ getNextAgentType entries c disk = (Throw error, c)
    ∧ createSessionTasks newId now entries c disk = (Throw error, c).
Proof.
  intros Hm Hfile.
  destruct (loadFeatureList_missing (featureManager c) disk Hm Hfile)
    as (error & Hload).
  exists error.
  assert (determineProjectPhase entries c disk = (Throw error, c)) as Hphase.
  { unfold determineProjectPhase, FeatureManager.getIncompleteFeatureCount.
    rewrite Hload. by rewrite set_featureManager_same. }
  assert (getNextAgentType entries c disk = (Throw error, c)) as Hagent.
  { unfold getNextAgentType. by rewrite Hphase. }
  split; [done|]. split; [done|].
  unfold createSessionTasks. by rewrite Hagent.
Qed.

Lemma determineProjectPhase_loaded entries c disk l :
  FeatureManager.featureList (featureManager c) = Some l →
  determineProjectPhase entries c disk
  = (Return
       (if bool_decide (length entries = 0%nat) then initialization
        else if bool_decide
                  (length (List.filter
                             (fun f => negb (FeatureManager.passes f))
                             (FeatureManager.features l)) = 0%nat)
        then completion
        else if bool_decide
                  (ProgressTracker.streak (reverse entries) = 0%nat)
                && bool_decide (5 < length entries)%nat
        then refinement
        else development), c).
Proof.
  intros Hm. unfold determineProjectPhase, FeatureManager.getIncompleteFeatureCount.
  rewrite (loadFeatureList_hit (featureManager c) disk l Hm).
  by rewrite set_featureManager_same.
Qed.

Lemma filter_nil_iff {A} (P : A → bool) (l : list A) :
  length (List.filter P l) = 0%nat ↔ ∀ x, x ∈ l → P x = false.
Proof.
  induction l as [|x l IH]; simpl.
  - split; [|done]. by intros _ ? ?%elem_of_nil.
  - destruct (P x) eqn:Px; simpl.
    + split; [done|]. intros Hall. specialize (Hall x). rewrite Px in Hall.
      by discriminate Hall; left.
    + rewrite IH. split.
      * intros Hall y [->|Hy]%elem_of_cons; [done|by apply Hall].
      * intros Hall y Hy. apply Hall. by right.
Qed.

Lemma first_lastEntries (entries : list ProgressTracker.ProgressEntry) :
  first (ProgressTracker.lastEntries 5 entries) = consultedEntry entries.
Proof.
  unfold first, ProgressTracker.lastEntries, consultedEntry.
  rewrite lookup_drop. f_equal. lia.
Qed.

(** X23 — with the feature list loaded, [getNextAgentType] answers: the
    initializer exactly when the log is empty; cleanup exactly when the log
    is not empty and every feature passes; testing exactly when the log is
    not empty, some feature is incomplete, and either the project is stalled
    or the entry consulted, the fifth from the end of the log (the first when
    the log is shorter), is a coding session that ran no test; coding in
    every other case. *)
Theorem getNextAgentType_decision entries c disk l :
  FeatureManager.featureList (featureManager c) = Some l →
  ∃ agent,
    getNextAgentType entries c disk = (Return agent, c)
    ∧ (agent = SessionManager.initializer ↔ entries = [])
    ∧ (agent = SessionManager.cleanup
       ↔ entries ≠ []
         ∧ ∀ f, f ∈ FeatureManager.features l → FeatureManager.passes f = true)
    ∧ (agent = SessionManager.testing
       ↔ entries ≠ []
         ∧ (∃ f, f ∈ FeatureManager.features l
                 ∧ FeatureManager.passes f = false)
         ∧ (stalled entries
            ∨ untestedCoding (consultedEntry entries) = true)).
Proof.
  intros Hm. unfold getNextAgentType.
  rewrite (determineProjectPhase_loaded entries c disk l Hm).
  eexists. split; [reflexivity|].
  cbn [ProgressTracker.recentProgress ProgressTracker.getCurrentProgress].
  rewrite first_lastEntries.
  assert (length (List.filter (fun f => negb (FeatureManager.passes f))
                    (FeatureManager.features l)) = 0%nat
          ↔ ∀ f, f ∈ FeatureManager.features l → FeatureManager.passes f = true)
    as Hdone.
  { rewrite filter_nil_iff. split; intros Hall f Hf; specialize (Hall f Hf);
      by destruct (FeatureManager.passes f). }
  assert ((∃ f, f ∈ FeatureManager.features l ∧ FeatureManager.passes f = false)
          ↔ ¬ ∀ f, f ∈ FeatureManager.features l → FeatureManager.passes f = true)
    as Hsome.
  { split.
    - intros (f & Hf & Hp) Hall. rewrite (Hall f Hf) in Hp. done.
    - intros Hnot. rewrite <- Hdone in Hnot.
      destruct (List.filter _ (FeatureManager.features l)) as [|f fs] eqn:Hfilter;
        [done|].
      assert (In f (List.filter (fun f => negb (FeatureManager.passes f))
                      (FeatureManager.features l))) as Hin
        by (rewrite Hfilter; by left).
      apply List.filter_In in Hin as [Hin Hp]. exists f.
      split; [by apply list_elem_of_In|by apply negb_true_iff]. }
  assert (ProgressTracker.streak (reverse entries) = 0%nat
          ∧ (5 < length entries)%nat ↔ stalled entries) as Hstalled.
  { unfold stalled. rewrite streak_zero, head_reverse. split.
    - intros [Hlast Hlen]. split; [done|].
      destruct (last entries) as [e|] eqn:Hl.
      + exists e. split; [done|by apply Hlast].
      + apply last_None in Hl. subst entries. simpl in Hlen. lia.
    - intros [Hlen (e & Hl & He)]. split; [|done].
      intros e' He'. congruence. }
  case_bool_decide as Hempty.
  { apply nil_length_inv in Hempty. subst entries.
    repeat split; try done; intros [? _]; done. }
  assert (entries ≠ []) as Hentries by (by intros ->).
  case_bool_decide as Hall.
  { split; [split; [done|by intros ->]|].
    split; [split; [intros _; split; [done|by apply Hdone]|done]|].
    split; [done|]. intros (_ & Hinc%Hsome & _). exfalso. by apply Hinc, Hdone. }
  assert (∃ f, f ∈ FeatureManager.features l ∧ FeatureManager.passes f = false)
    as Hinc by (apply Hsome; by rewrite <- Hdone).
  destruct (bool_decide (ProgressTracker.streak (reverse entries) = 0%nat)
            && bool_decide (5 < length entries)%nat) eqn:Hstall.
  { apply andb_prop in Hstall as [Hs%bool_decide_eq_true Hl%bool_decide_eq_true].
    split; [split; [done|by intros ->]|].
    split; [split; [done|]; intros [_ Hpass]; exfalso; by apply Hall, Hdone|].
    split; [intros _|done]. split; [done|]. split; [done|].
    left. by apply Hstalled. }
  assert (¬ stalled entries) as Hnot.
  { intros [Hs Hl]%Hstalled. rewrite (bool_decide_eq_true_2 _ Hs),
      (bool_decide_eq_true_2 _ Hl) in Hstall. done. }
  destruct (untestedCoding (consultedEntry entries)) eqn:Huntested.
  - split; [split; [done|by intros ->]|].
    split; [split; [done|]; intros [_ Hpass]; exfalso; by apply Hall, Hdone|].
    split; [intros _|done]. split; [done|]. split; [done|]. by right.
  - split; [split; [done|by intros ->]|].
    split; [split; [done|]; intros [_ Hpass]; exfalso; by apply Hall, Hdone|].
    split; [done|]. intros (_ & _ & [Hs|Hu]); [exfalso; by apply Hnot|done].
Qed.

Lemma sort_ext {A} (c1 c2 : A → A → Z) (l : list A) :
  (∀ a b, c1 a b = c2 a b) → sort c1 l = sort c2 l.
Proof.
  intros Heq. induction l as [|x l IH]; simpl; [done|]. rewrite IH.
  generalize (sort c2 l). intros s.
  induction s as [|y s IHs]; simpl; [done|]. by rewrite Heq, IHs.
Qed.

Lemma dependenciesCompleted_ready queue deps :
  dependenciesCompleted queue deps = true
  ↔ ∀ depId, depId ∈ deps →
      ∃ dep, List.find (fun u => String.eqb (id u) depId) queue = Some dep
             ∧ status dep = completed.
Proof.
  induction deps as [|d deps IH]; simpl.
  - split; [|done]. by intros _ ? ?%elem_of_nil.
  - destruct (List.find _ queue) as [dep|] eqn:Hfind.
    + destruct (status dep) eqn:Hstatus; simpl;
        try (split; [done|]; intros Hall;
             destruct (Hall d) as (dep' & Hdep' & Hs); [by left|]; congruence).
      rewrite IH. split.
      * intros Hall depId [->|Hin]%elem_of_cons; [by exists dep|by apply Hall].
      * intros Hall depId Hin. apply Hall. by right.
    + split; [done|]. intros Hall.
      destruct (Hall d) as (dep' & Hdep' & _); [by left|]. congruence.
Qed.

(** X24 — [getNextTask] hands out a task that is ready (pending, every
    dependency naming a completed task of the queue), of the highest
    priority among the ready tasks and the earliest in the queue among
    those; it answers null exactly when no task of the queue is ready. *)
Theorem getNextTask_selection c :
  match getNextTask c with
  | Some t =>
      ∃ i, taskQueue c !! i = Some t ∧ ready (taskQueue c) t
           ∧ ∀ j u, taskQueue c !! j = Some u → ready (taskQueue c) u →
                    priority u < priority t
                    ∨ (priority u = priority t ∧ (i ≤ j)%nat)
  | None => ∀ t, t ∈ taskQueue c → ¬ ready (taskQueue c) t
  end.
Proof.
  unfold getNextTask.
  rewrite (sort_ext byPriorityDescending
             (fun a b => - priority a - - priority b))
    by (intros a b; unfold byPriorityDescending; lia).
  rewrite filter_filter_andb.
  pose proof (first_sort_filter (fun t => - priority t)
                (fun t => TaskStatus_eqb (status t) pending
                          && areDependenciesMet c t) (taskQueue c)) as Hfirst.
  assert (∀ t, TaskStatus_eqb (status t) pending && areDependenciesMet c t = true
               ↔ ready (taskQueue c) t) as Hready.
  { intros t. unfold ready, areDependenciesMet.
    rewrite andb_true_iff, dependenciesCompleted_ready.
    destruct (status t); simpl; intuition congruence. }
  destruct (first _) as [t|].
  - destruct Hfirst as (i & Hi & Ht & Hmin). exists i.
    split; [done|]. split; [by apply Hready|].
    intros j u Hj Hu. apply Hready in Hu.
    destruct (Hmin j u Hj Hu) as [?|[? ?]]; [left|right]; lia.
  - intros t Hin Ht%Hready. by rewrite (Hfirst t Hin) in Ht.
Qed.

Lemma map_lookup {A B} (f : A → B) (l : list A) j :
  map f l !! j = f <$> l !! j.
Proof.
  revert j. induction l as [|x l IH]; intros [|j]; simpl; auto.
Qed.

Lemma unblock_sameTask taskId t : sameTask t (unblock taskId t).
Proof.
  unfold unblock.
  by destruct (bool_decide _ && TaskStatus_eqb (status t) blocked).
Qed.

Lemma find_task_by_id taskId (queue : list Task) i t :
  list_find (fun t => id t = taskId) queue = Some (i, t) →
  ∀ (change : Task → Task) done,
    (∀ u, id (change u) = id u) → id done = taskId →
    List.find (fun u => String.eqb (id u) taskId)
      (map change (<[i := done]> queue)) = Some (change done).
Proof.
  intros Hfind change done Hchange Hdone. revert i Hfind.
  induction queue as [|u queue IH]; intros i; [done|].
  cbn [list_find]. case_decide as Hu.
  - intros [= <- <-]. simpl.
    by rewrite Hchange, (proj2 (String.eqb_eq _ _) Hdone).
  - destruct (list_find _ queue) as [[j v]|]; [|done].
    intros [= <- <-]. simpl. rewrite Hchange.
    destruct (String.eqb_spec (id u) taskId) as [|_]; [done|].
    by apply (IH j).
Qed.

(** X25 — [completeTask] changes statuses only: the queue keeps its tasks in
    place and a completed task stays completed; an id no task carries leaves
    the coordinator as it was; otherwise the first task carrying the id is
    completed and no task that depends on the id remains blocked. *)
Theorem completeTask_effects taskId c :
  Forall2 (fun old new =>
             sameTask old new
             ∧ (status old = completed → status new = completed))
    (taskQueue c) (taskQueue (completeTask taskId c))
  ∧ ((∀ t, t ∈ taskQueue c → id t ≠ taskId) → completeTask taskId c = c)
  ∧ ((∃ t, t ∈ taskQueue c ∧ id t = taskId) →
     (∃ t, List.find (fun u => String.eqb (id u) taskId)
             (taskQueue (completeTask taskId c)) = Some t
           ∧ status t = completed)
     ∧ ∀ t, t ∈ taskQueue (completeTask taskId c) →
            taskId ∈ dependencies t → status t ≠ blocked).
Proof.
  unfold completeTask.
  destruct (list_find _ (taskQueue c)) as [[i task]|] eqn:Hfind.
  - pose proof Hfind as Hi. apply list_find_Some in Hi as (Hi & Hid & _).
    cbn [taskQueue set_taskQueue]. split; [|split].
    + apply Forall2_same_length_lookup.
      split; [by rewrite length_map, length_insert|].
      intros j old new Hold Hnew.
      rewrite map_lookup in Hnew.
      destruct (_ !! j) as [mid|] eqn:Hmid in Hnew; [|done].
      injection Hnew as <-.
      destruct (decide (j = i)) as [->|Hne].
      * rewrite list_lookup_insert_eq in Hmid by (by eapply lookup_lt_Some).
        injection Hmid as <-. assert (old = task) as -> by congruence.
        unfold unblock. simpl. rewrite andb_false_r. by repeat split.
      * rewrite list_lookup_insert_ne in Hmid by done.
        assert (mid = old) as -> by congruence.
        split; [apply unblock_sameTask|]. unfold unblock. intros Hs.
        rewrite Hs. by rewrite andb_false_r.
    + intros Hnone. exfalso. apply (Hnone task); [|done].
      by eapply list_elem_of_lookup_2.
    + intros _. split.
      * exists (unblock taskId (set_status completed task)). split.
        -- apply (find_task_by_id taskId (taskQueue c) i task Hfind
                    (unblock taskId) (set_status completed task)); [|done].
           intros u. apply unblock_sameTask.
        -- unfold unblock. simpl. by rewrite andb_false_r.
      * intros t Hin Hdep. apply list_elem_of_In, in_map_iff in Hin
          as (u & <- & _). unfold unblock in *.
        destruct (bool_decide (taskId ∈ dependencies u)
                  && TaskStatus_eqb (status u) blocked) eqn:Hcase; [done|].
        rewrite (bool_decide_eq_true_2 _ Hdep) in Hcase. simpl in Hcase.
        intros Hs. by rewrite Hs in Hcase.
  - split; [|split].
    + apply Forall2_same_length_lookup. split; [done|].
      intros j old new Hold Hnew. assert (new = old) as -> by congruence.
      by repeat split.
    + done.
    + intros (t & Hin & Hid). apply list_find_None in Hfind.
      rewrite Forall_forall in Hfind. by destruct (Hfind t Hin).
Qed.

(** X26 — whenever [createSessionTasks] returns, it has created work: the
    tasks returned are not empty (the coding branch always finds a feature,
    since that agent is chosen only while one is incomplete), they are
    appended to the queue, pending and without dependencies; and when no
    queued task was pending, [getNextTask] then hands out the first of
    them. *)
Theorem createSessionTasks_creates_work newId now entries c disk tasks c' :
  createSessionTasks newId now entries c disk = (Return tasks, c') →
  tasks ≠ []
  ∧ taskQueue c' = (taskQueue c ++ tasks)%list
  ∧ Forall (fun t => status t = pending ∧ dependencies t = []) tasks
  ∧ ((∀ t, t ∈ taskQueue c → status t ≠ pending) →
     getNextTask c' = first tasks).
Proof.
  intros Hrun.
  assert (taskQueue c' = (taskQueue c ++ tasks)%list
          ∧ (tasks = [createTask (newId 0%nat) now initialize_project 100 None]
             ∨ (∃ f, tasks = [createTask (newId 0%nat) now implement_feature 50 f;
                              createTask (newId 1%nat) now write_tests 40 f])
             ∨ tasks = [createTask (newId 0%nat) now run_tests 60 None]
             ∨ tasks = [createTask (newId 0%nat) now code_review 30 None;
                        createTask (newId 1%nat) now cleanup 25 None;
                        createTask (newId 2%nat) now documentation 20 None]))
    as [Hqueue Hcases].
  { revert Hrun.
    unfold createSessionTasks, getNextAgentType, determineProjectPhase,
      FeatureManager.getIncompleteFeatureCount.
    destruct (FeatureManager.loadFeatureList (featureManager c) disk)
      as [[l|err] fm] eqn:Hload; [|done].
    apply loadFeatureList_cached in Hload as (Hfm & _).
    pose proof (loadFeatureList_hit fm disk l Hfm) as Hhit.
    assert (∀ rest : Coordinator → result (list Task) * Coordinator,
              length (List.filter (fun f => negb (FeatureManager.passes f))
                        (FeatureManager.features l)) ≠ 0%nat →
              match
                match FeatureManager.getNextIncompleteFeature
                        (featureManager (set_featureManager c fm)) disk with
                | (Throw e, fm0) =>
                    (Throw e, set_featureManager (set_featureManager c fm) fm0)
                | (Return None, fm0) =>
                    (Return [], set_featureManager (set_featureManager c fm) fm0)
                | (Return (Some nextFeature), fm0) =>
                    (Return
                       [createTask (newId 0%nat) now implement_feature 50
                          (Some (FeatureManager.id nextFeature));
                        createTask (newId 1%nat) now write_tests 40
                          (Some (FeatureManager.id nextFeature))],
                     set_featureManager (set_featureManager c fm) fm0)
                end
              with
              | (Throw e, c0) => (Throw e, c0)
              | (Return tasks0, c0) =>
                  (Return tasks0, set_taskQueue c0 (taskQueue c0 ++ tasks0)%list)
              end = (Return tasks, c') →
              taskQueue c' = (taskQueue c ++ tasks)%list
              ∧ ∃ f, tasks = [createTask (newId 0%nat) now implement_feature 50 f;
                              createTask (newId 1%nat) now write_tests 40 f])
      as Hcoding.
    { intros _ Hsome. cbn [featureManager set_featureManager].
      rewrite (getNextIncompleteFeature_value fm disk l fm Hhit).
      cbv zeta.
      destruct (match List.find _ _ with Some f => Some f | None => _ end)
        as [next|] eqn:Hnext.
      - intros [= <- <-]. split; [done|]. eauto.
      - exfalso. apply selection_none in Hnext. apply Hsome.
        apply (f_equal length) in Hnext.
        by rewrite (Permutation_length (sort_perm FeatureManager.byPriority _))
          in Hnext. }
    cbn [ProgressTracker.totalSessions ProgressTracker.currentStreak
         ProgressTracker.recentProgress ProgressTracker.getCurrentProgress].
    case_bool_decide as Hempty.
    { intros [= <- <-]. split; [done|]. by left. }
    case_bool_decide as Hall.
    { intros [= <- <-]. split; [done|]. by do 3 right. }
    destruct (bool_decide _ && bool_decide _).
    { intros [= <- <-]. split; [done|]. right. right. by left. }
    destruct (untestedCoding _).
    { intros [= <- <-]. split; [done|]. right. right. by left. }
    intros Hrun. destruct (Hcoding (fun c0 => (Return [], c0)) Hall Hrun)
      as [Hq Hf]. split; [done|]. right. by left. }
  split; [|split; [done|split]].
  - destruct Hcases as [->|[(f & ->)|[->| ->]]]; done.
  - destruct Hcases as [->|[(f & ->)|[->| ->]]]; by repeat constructor.
  - intros Hidle. unfold getNextTask. rewrite Hqueue.
    assert (List.filter (fun t => TaskStatus_eqb (status t) pending)
              (taskQueue c ++ tasks) = tasks) as Hpending.
    { rewrite List.filter_app.
      assert (List.filter (fun t => TaskStatus_eqb (status t) pending)
                (taskQueue c) = []) as ->.
      { apply nil_length_inv, filter_nil_iff. intros t Hin.
        specialize (Hidle t Hin). by destruct (status t). }
      destruct Hcases as [->|[(f & ->)|[->| ->]]]; done. }
    rewrite Hpending.
    destruct Hcases as [->|[(f & ->)|[->| ->]]]; reflexivity.
Qed.

End Coordination.

Lemma coordinator_needs_the_feature_list_witness :
  ∃ error,
    AgentCoordinator.determineProjectPhase (JSON0 := Samples.featureCodec)
      [] (AgentCoordinator.new "/p") ∅
    = (Throw error, AgentCoordinator.new "/p").
Proof.
  destruct (coordinator_needs_the_feature_list (JSON0 := Samples.featureCodec)
              (fun _ => "task-1") Samples.stamp []
              (AgentCoordinator.new "/p") ∅) as (error & Hphase & _).
  - reflexivity.
  - reflexivity.
  - exists error. exact Hphase.
Defined.

Lemma getNextAgentType_decision_witness :
  (AgentCoordinator.getNextAgentType (JSON0 := Samples.featureCodec)
     [] Samples.coordinator ∅).1
  = Return SessionManager.initializer.
Proof.
  destruct (getNextAgentType_decision (JSON0 := Samples.featureCodec)
              [] Samples.coordinator ∅ Samples.scenarioA)
    as (agent & Heq & [_ Hinit] & _).
  - reflexivity.
  - rewrite Heq. simpl. f_equal. apply Hinit. reflexivity.
Defined.

Lemma createSessionTasks_creates_work_witness :
  AgentCoordinator.getNextTask
    (AgentCoordinator.set_taskQueue Samples.coordinator [Samples.firstTask])
  = Some Samples.firstTask.
Proof.
  destruct (createSessionTasks_creates_work (JSON0 := Samples.featureCodec)
              (fun _ => "task-1") Samples.stamp [] Samples.coordinator ∅
              [Samples.firstTask]
              (AgentCoordinator.set_taskQueue Samples.coordinator
                 [Samples.firstTask]))
    as (_ & _ & _ & Hnext).
  - reflexivity.
  - rewrite Hnext; [reflexivity|].
    intros t Hin. simpl in Hin. by apply elem_of_nil in Hin.
Defined.

(** ** The test phase *)

Section TestPhaseVerdict.
Import StateManager TestPhase.
Context {W : Type} (os : Machine W).
Context `{!JSON JsonValue}.

Lemma runLint_verdict t w : verdictOf Lint (runLint os t w).1.
Proof.
  unfold runLint. destruct (execSync os _ _ _ w) as [[e|text] w']; simpl.
  - split; [done|]. simpl. eauto.
  - split; [done|]. simpl. eauto.
Qed.

Lemma runBuild_verdict t w : verdictOf Build (runBuild os t w).1.
Proof.
  unfold runBuild. destruct (execSync os _ _ _ w) as [[e|text] w']; simpl.
  - split; [done|]. simpl. eauto.
  - split; [done|]. simpl. eauto.
Qed.

Lemma runBasicBrowserCheck_verdict w :
  verdictOf Browser (runBasicBrowserCheck os w).1.
Proof.
  unfold runBasicBrowserCheck.
  destruct (httpGet os _ w) as [[code|text] w']; simpl.
  - destruct (code =? 200); split; simpl; eauto.
  - split; simpl; eauto.
Qed.

Lemma runBrowserTests_verdict t w :
  verdictOf Browser (runBrowserTests os t w).1.
Proof.
  unfold runBrowserTests.
  destruct (negb (existsSync (files os w) _)); [split; simpl; eauto|].
  destruct (readFileSync (files os w) _) as [content|text];
    [|split; simpl; eauto].
  destruct (JSON_parse content) as [packageJson|]; [|split; simpl; eauto].
  destruct (hasPlaywrightTest packageJson) as [[|]|text];
    [|apply runBasicBrowserCheck_verdict|split; simpl; eauto].
  destruct (testCommand packageJson) as [command|text];
    [|split; simpl; eauto].
  destruct command; try (split; simpl; eauto; fail).
  destruct (execSync os _ _ _ w) as [[e|text] w']; split; simpl; eauto.
Qed.

Lemma executeTestPhase_results t w :
  ∃ lintResult buildResult browserResult,
    (executeTestPhase os t w).1
    = {| lint := lintResult; build := buildResult;
         browserTests := browserResult;
         allPassed := passed lintResult && passed buildResult
                      && passed browserResult;
         failedTests :=
           ((if passed lintResult then [] else [Lint])
            ++ (if passed buildResult then [] else [Build])
            ++ (if passed browserResult then [] else [Browser]))%list |}
    ∧ verdictOf Lint lintResult ∧ verdictOf Build buildResult
    ∧ verdictOf Browser browserResult
    ∧ status lintResult ≠ Skipped ∧ status buildResult ≠ Skipped.
Proof.
  unfold executeTestPhase.
  pose proof (runLint_verdict t w) as Hlint.
  assert (status (runLint os t w).1 ≠ Skipped) as Hl.
  { unfold runLint. by destruct (execSync os _ _ _ w) as [[e|text] w']. }
  destruct (runLint os t w) as [lintResult w1].
  pose proof (runBuild_verdict t w1) as Hbuild.
  assert (status (runBuild os t w1).1 ≠ Skipped) as Hb.
  { unfold runBuild. by destruct (execSync os _ _ _ w1) as [[e|text] w']. }
  destruct (runBuild os t w1) as [buildResult w2].
  pose proof (runBrowserTests_verdict t w2) as Hbrowser.
  destruct (runBrowserTests os t w2) as [browserResult w3].
  exists lintResult, buildResult, browserResult.
  split; [|done]. simpl.
  by destruct (passed lintResult), (passed buildResult), (passed browserResult).
Qed.

(** X27 — the verdict of [executeTestPhase]: each of the three results is
    coherent and of its kind, lint and build are never skipped;
    [allPassed] is the conjunction of the three [passed] flags and holds
    exactly when [failedTests] is empty; [failedTests] lists the kinds that
    did not pass, in the order lint, build, browser; and the outcome does
    not depend on [failFast], [captureScreenshots] or [screenshotDir]: all
    three checks run whatever these say. *)
Theorem executeTestPhase_verdict t w :
  let r := (executeTestPhase os t w).1 in
  (∀ kind, verdictOf kind (checkOf r kind))
  ∧ status (lint r) ≠ Skipped ∧ status (build r) ≠ Skipped
  ∧ allPassed r
    = passed (lint r) && passed (build r) && passed (browserTests r)
  ∧ failedTests r
    = List.filter (fun kind => negb (passed (checkOf r kind)))
        [Lint; Build; Browser]
  ∧ (allPassed r = true ↔ failedTests r = [])
  ∧ ∀ t', projectRoot t' = projectRoot t →
          lintCommand (config t') = lintCommand (config t) →
          buildCommand (config t') = buildCommand (config t) →
          browserTestTimeout (config t') = browserTestTimeout (config t) →
          executeTestPhase os t' w = executeTestPhase os t w.
Proof.
  destruct (executeTestPhase_results t w)
    as (lintResult & buildResult & browserResult & -> & Hlint & Hbuild
        & Hbrowser & Hl & Hb).
  cbn [lint build browserTests allPassed failedTests checkOf].
  split; [by intros []|]. split; [done|]. split; [done|]. split; [done|].
  split; [|split].
  - simpl.
    by destruct (passed lintResult), (passed buildResult),
                (passed browserResult).
  - by destruct (passed lintResult), (passed buildResult),
                (passed browserResult).
  - intros t' Hroot Hlc Hbc Htimeout.
    unfold executeTestPhase, runLint, runBuild, runBrowserTests.
    by rewrite Hroot, Hlc, Hbc, Htimeout.
Qed.

(** X28 — what [runBrowserTests] does with the manifest [package.json]:
    without the file the check is skipped and counts as passed, and nothing
    is run; a manifest that does not parse, or that is [null], fails the
    check without running anything; a manifest object with no [scripts]
    leaves the verdict to the basic check, which passes exactly on status
    200; and when [scripts] is an object whose [test] is a string naming
    playwright and that has no [test:e2e] script, whatever other scripts and
    fields the manifest has, the command run is [npx playwright test], not
    the script itself. *)
Theorem runBrowserTests_by_manifest t w :
  let manifest := files os w !! (projectRoot t ++ "/package.json") in
  (manifest = None →
   runBrowserTests os t w
   = ({| type := Browser; status := Skipped; passed := true;
         output := "No package.json found - browser tests skipped";
         error := None |}, w))
  ∧ (∀ content,
       manifest = Some content →
       JSON_parse content = None ∨ JSON_parse content = Some JNull →
       (runBrowserTests os t w).2 = w
       ∧ passed (runBrowserTests os t w).1 = false
       ∧ error (runBrowserTests os t w).1 = Some "Browser tests failed")
  ∧ (∀ content fields,
       manifest = Some content →
       JSON_parse content = Some (JObj fields) →
       field "scripts" fields = None →
       runBrowserTests os t w = runBasicBrowserCheck os w
       ∧ (passed (runBrowserTests os t w).1 = true
          ↔ (httpGet os "http://localhost:3000" w).1 = Return 200))
  ∧ (∀ content fields scripts script,
       manifest = Some content →
       JSON_parse content = Some (JObj fields) →
       field "scripts" fields = Some (JObj scripts) →
       field "test" scripts = Some (JStr script) →
       field "test:e2e" scripts = None →
       includes script "playwright" = true →
       (runBrowserTests os t w).2
       = (execSync os "npx playwright test" (projectRoot t)
            (browserTestTimeout (config t)) w).2
       ∧ (passed (runBrowserTests os t w).1 = true
          ↔ ∃ text, (execSync os "npx playwright test" (projectRoot t)
                       (browserTestTimeout (config t)) w).1 = inr text)).
Proof.
  intros manifest. subst manifest. unfold runBrowserTests, existsSync, readFileSync.
  split; [|split; [|split]].
  - intros ->. by rewrite bool_decide_eq_false_2 by (by intros [? ?]).
  - intros content -> Hparse.
    rewrite bool_decide_eq_true_2 by eauto. simpl.
    destruct Hparse as [-> | ->]; done.
  - intros content fields -> -> Hscripts.
    rewrite bool_decide_eq_true_2 by eauto. simpl.
    unfold hasPlaywrightTest, scriptIncludesPlaywright. simpl.
    rewrite Hscripts. split; [done|].
    unfold runBasicBrowserCheck.
    destruct (httpGet os _ w) as [[code|text] w']; simpl; [|done].
    destruct (Z.eqb_spec code 200) as [->|Hne]; simpl; [done|].
    split; [done|]. by intros [= ->].
  - intros content fields scripts script -> -> Hscripts Htest He2e Hplay.
    rewrite bool_decide_eq_true_2 by eauto. simpl.
    unfold hasPlaywrightTest, scriptIncludesPlaywright, testCommand. simpl.
    rewrite Hscripts. simpl. rewrite Htest. simpl. rewrite Hplay, He2e. simpl.
    destruct (execSync os _ _ _ w) as [[e|text] w']; simpl.
    + split; [done|]. split; [done|]. by intros [? ?].
    + split; [done|]. split; [eauto|done].
Qed.

End TestPhaseVerdict.

(** ** Sessions *)

Section SessionLifecycle.
Import SessionManager.
Context `{!JSON Session}.

(** X29 — an operation on a session needs its file: when the file of the
    session is missing or does not parse, [startSession], [endSession],
    [updateMetadata] and [setFeature] throw [Session not found] and leave
    the manager and the disk as they were. *)
Theorem session_operations_need_the_session now sessionId st r updates feature
    m disk :
  disk !! sessionFile m sessionId = None
  ∨ (∃ content, disk !! sessionFile m sessionId = Some content
                ∧ JSON_parse content = None) →
  loadSession sessionId m disk = None
  ∧ startSession sessionId m disk
    = (Throw ("Session not found: " ++ sessionId), m, disk)
  ∧ endSession now sessionId st r m disk
    = (Throw ("Session not found: " ++ sessionId), m, disk)
  ∧ updateMetadata sessionId updates m disk
    = (Throw ("Session not found: " ++ sessionId), m, disk)
  ∧ setFeature sessionId feature m disk
    = (Throw ("Session not found: " ++ sessionId), m, disk).
Proof.
  intros Hfile.
  assert (loadSession sessionId m disk = None) as Hload.
  { unfold loadSession, readFileSync.
    destruct Hfile as [-> | (content & -> & Hparse)]; done. }
  unfold startSession, endSession, updateMetadata, setFeature.
  by rewrite Hload.
Qed.

Lemma loadSession_saved (s : Session) m m' disk :
  sessionsPath m' = sessionsPath m → readsBack s →
  loadSession (id s) m' (saveSession s m disk) = Some s.
Proof.
  intros Hpath Hback.
  unfold loadSession, saveSession, readFileSync, writeFileSync, sessionFile.
  by rewrite Hpath, lookup_insert_eq.
Qed.

(** X30 — the life of a session, when the codec reads back what is
    written: [createSession] writes a pending session and makes it the
    current one; [startSession] on its id then succeeds, and the file and
    the current session hold it running; [endSession] then succeeds with the
    current session cleared, and the file holds the session with its id,
    type, start time and parent intact, the status asked for, the end time
    of the call and the result given. *)
Theorem session_lifecycle now uuid t parent later st r m disk :
  let created := createSession now uuid t parent m disk in
  let s := created.1.1 in
  let started := startSession (id s) created.1.2 created.2 in
  let ended := endSession later (id s) st r started.1.2 started.2 in
  readsBack s → readsBack (set_status running s) →
  status s = pending
  ∧ currentSession created.1.2 = Some s
  ∧ started.1.1 = Return tt
  ∧ currentSession started.1.2 = Some (set_status running s)
  ∧ loadSession (id s) started.1.2 started.2 = Some (set_status running s)
  ∧ ended.1.1 = Return tt
  ∧ currentSession ended.1.2 = None
  ∧ ∃ final,
      ended.2 !! sessionFile m (id s) = Some (JSON_stringify final)
      ∧ id final = id s ∧ type final = t ∧ startTime final = now
      ∧ parentSessionId final = parent ∧ status final = st
      ∧ endTime final = Some later ∧ session_result final = r.
Proof.
  intros created s started ended Hs Hrunning.
  assert (loadSession (id s) created.1.2 created.2 = Some s) as Hload.
  { subst created s. unfold createSession. cbn [fst snd].
    by apply (loadSession_saved _ m _ disk). }
  assert (started
          = (Return tt, set_currentSession created.1.2 (Some (set_status running s)),
             saveSession (set_status running s) created.1.2 created.2))
    as Hstarted.
  { subst started. unfold startSession. by rewrite Hload. }
  assert (loadSession (id s) started.1.2 started.2
          = Some (set_status running s)) as Hload'.
  { rewrite Hstarted. cbn [fst snd].
    by apply (loadSession_saved (set_status running s)). }
  split; [done|]. split; [done|].
  split; [by rewrite Hstarted|]. split; [by rewrite Hstarted|].
  split; [done|].
  subst ended. unfold endSession. rewrite Hload'.
  rewrite Hstarted. cbn [fst snd currentSession set_currentSession].
  cbn [id set_status]. rewrite String.eqb_refl.
  split; [done|]. split; [done|].
  exists (match r with
          | Some r =>
              set_result r
                (set_endTime later (set_status st (set_status running s)))
          | None => set_endTime later (set_status st (set_status running s))
          end).
  split.
  - unfold saveSession, writeFileSync. destruct r; apply lookup_insert_eq.
  - by destruct r.
Qed.

End SessionLifecycle.

Lemma session_operations_need_the_session_witness :
  SessionManager.startSession (JSON0 := Samples.sessionCodec)
    "coding-20250102-1234abcd" (SessionManager.new "/p") ∅
  = (Throw "Session not found: coding-20250102-1234abcd",
     SessionManager.new "/p", ∅).
Proof.
  destruct (session_operations_need_the_session (JSON0 := Samples.sessionCodec)
              Samples.stamp "coding-20250102-1234abcd" SessionManager.completed
              None SessionManager.noMetadata "F1" (SessionManager.new "/p") ∅)
    as (_ & Hstart & _).
  - left. reflexivity.
  - exact Hstart.
Defined.

Lemma session_lifecycle_witness :
  SessionManager.currentSession
    (SessionManager.endSession (JSON0 := Samples.sessionCodec)
       Samples.stamp "coding-20250102-1234abcd" SessionManager.completed None
       (SessionManager.startSession (JSON0 := Samples.sessionCodec)
          "coding-20250102-1234abcd"
          (SessionManager.createSession (JSON0 := Samples.sessionCodec)
             Samples.stamp "1234abcd-0000" SessionManager.coding None
             (SessionManager.new "/p") ∅).1.2
          (SessionManager.createSession (JSON0 := Samples.sessionCodec)
             Samples.stamp "1234abcd-0000" SessionManager.coding None
             (SessionManager.new "/p") ∅).2).1.2
       (SessionManager.startSession (JSON0 := Samples.sessionCodec)
          "coding-20250102-1234abcd"
          (SessionManager.createSession (JSON0 := Samples.sessionCodec)
             Samples.stamp "1234abcd-0000" SessionManager.coding None
             (SessionManager.new "/p") ∅).1.2
          (SessionManager.createSession (JSON0 := Samples.sessionCodec)
             Samples.stamp "1234abcd-0000" SessionManager.coding None
             (SessionManager.new "/p") ∅).2).2).1.2
  = None.
Proof.
  destruct (session_lifecycle (JSON0 := Samples.sessionCodec)
              Samples.stamp "1234abcd-0000" SessionManager.coding None
              Samples.stamp SessionManager.completed None
              (SessionManager.new "/p") ∅)
    as (_ & _ & _ & _ & _ & _ & Hcleared & _).
  - reflexivity.
  - reflexivity.
  - exact Hcleared.
Defined.
